(** * Fenced code blocks of zerver/lib/bugdown/fenced_code.py

    A shallow embedding of [FencedBlockPreprocessor] (its two regular
    expressions, [process_fence], [run] and [_escape]) and the properties
    of the fence scanner proved about it.

    Python strings are lists of characters.  The regular expressions are
    kept as data and run by a small backtracking matcher that follows the
    priorities of Python's [re] module for the constructs the two
    patterns use. *)

From Stdlib Require Import Ascii String.
From Stdlib Require Import List Arith Bool Lia.
From Stdlib Require Decimal DecimalString.
Import ListNotations.
Local Open Scope list_scope.

(** ** Python strings *)

Module PyStr.

Definition text := list ascii.

Definition str (s : string) : text := list_ascii_of_string s.

Definition nl : ascii := "010"%char.
Definition dquote : ascii := "034"%char.

Fixpoint starts_with (p s : text) : bool :=
  match p, s with
  | [], _ => true
  | x :: p', y :: s' => Ascii.eqb x y && starts_with p' s'
  | _ :: _, [] => false
  end.

(** [sep.join(parts)] *)
Fixpoint join (sep : text) (parts : list text) : text :=
  match parts with
  | [] => []
  | [p] => p
  | p :: rest => p ++ sep ++ join sep rest
  end.

(** [s.split(sep)] for a non-empty [sep]: separators are found from left
    to right and do not overlap.  [skip] counts the characters of a
    separator that are still to be dropped. *)
Fixpoint split_from (sep : text) (skip : nat) (s : text) : list text :=
  match s with
  | [] => [[]]
  | c :: s' =>
      match skip with
      | S n => split_from sep n s'
      | O =>
          if starts_with sep s
          then [] :: split_from sep (length sep - 1) s'
          else match split_from sep 0 s' with
               | p :: ps => (c :: p) :: ps
               | [] => [[c]]
               end
      end
  end.

Definition split (sep s : text) : list text := split_from sep 0 s.

(** [s.replace(old, new)] for a one-character [old]. *)
Definition replace (old : ascii) (new : text) (s : text) : text :=
  flat_map (fun c => if Ascii.eqb c old then new else [c]) s.

(** [s[:n]] and [s[n:]] for [0 <= n]. *)
Definition upto (n : nat) (s : text) : text := firstn n s.
Definition from (n : nat) (s : text) : text := skipn n s.

(** [s[:-2]] and [s[-2:]]. *)
Definition but_last2 (s : text) : text := firstn (length s - 2) s.
Definition last2 (s : text) : text := skipn (length s - 2) s.

Definition text_eqb (x y : text) : bool :=
  (length x =? length y) && starts_with x y.

End PyStr.
Import PyStr.

(** ** Regular expressions *)

Module Re.

(** The named groups of the two patterns; [tag] is the unnamed group 2
    around the language tag. *)
Inductive gname := fence | tag | lang | code.

Record groups := mkGroups {
  g_fence : option text;
  g_tag : option text;
  g_lang : option text;
  g_code : option text
}.

Definition no_groups : groups := mkGroups None None None None.

Definition get_group (g : gname) (gs : groups) : option text :=
  match g with
  | fence => g_fence gs
  | tag => g_tag gs
  | lang => g_lang gs
  | code => g_code gs
  end.

Definition set_group (g : gname) (v : text) (gs : groups) : groups :=
  match g with
  | fence => mkGroups (Some v) (g_tag gs) (g_lang gs) (g_code gs)
  | tag => mkGroups (g_fence gs) (Some v) (g_lang gs) (g_code gs)
  | lang => mkGroups (g_fence gs) (g_tag gs) (Some v) (g_code gs)
  | code => mkGroups (g_fence gs) (g_tag gs) (g_lang gs) (Some v)
  end.

(** The constructs used by [FENCE_RE] and [FENCED_BLOCK_RE], with the
    flags [MULTILINE] and [DOTALL] built in. *)
Inductive regex :=
| Bol                                   (* ^ *)
| Eol                                   (* $ *)
| Behind (c : ascii)                    (* (?<=c) *)
| Chr (c : ascii)                       (* c *)
| Maybe (p : ascii -> bool)             (* [p]? *)
| Many (lo : nat) (p : ascii -> bool)   (* [p]{lo,} *)
| Few (p : ascii -> bool)               (* [p]*? *)
| Seq (r1 r2 : regex)                   (* r1r2 *)
| Opt (r : regex)                       (* (r)? *)
| Grp (g : gname) (r : regex)           (* (?P<g>r) *)
| Ref (g : gname).                       (* (?P=g) *)

(** The matcher walks a cursor: [b] holds the characters before the
    position, nearest first, and [a] the characters after it. *)
Definition result := (text * text * groups)%type.
Definition cont := text -> text -> groups -> option result.

Definition at_bol (b : text) : bool :=
  match b with
  | [] => true
  | c :: _ => Ascii.eqb c nl
  end.

Definition at_eol (a : text) : bool :=
  match a with
  | [] => true
  | c :: _ => Ascii.eqb c nl
  end.

(** The text consumed between the cursor at [a] and a later one at [a']. *)
Definition captured (a a' : text) : text :=
  firstn (length a - length a') a.

(** Greedy repetition: take one more character first, stop here only
    when that fails (and at least [lo] were taken). *)
Fixpoint greedy (p : ascii -> bool) (lo : nat)
    (k : text -> text -> option result) (b a : text) : option result :=
  let stop := match lo with O => k b a | S _ => None end in
  match a with
  | c :: a' =>
      if p c
      then match greedy p (pred lo) k (c :: b) a' with
           | Some r => Some r
           | None => stop
           end
      else stop
  | [] => stop
  end.

(** Lazy repetition: stop here first, take one more character only when
    that fails. *)
Fixpoint lazy (p : ascii -> bool)
    (k : text -> text -> option result) (b a : text) : option result :=
  match k b a with
  | Some r => Some r
  | None =>
      match a with
      | c :: a' => if p c then lazy p k (c :: b) a' else None
      | [] => None
      end
  end.

Fixpoint exec (r : regex) (b a : text) (gs : groups) (k : cont)
    : option result :=
  match r with
  | Bol => if at_bol b then k b a gs else None
  | Eol => if at_eol a then k b a gs else None
  | Behind c =>
      match b with
      | x :: _ => if Ascii.eqb x c then k b a gs else None
      | [] => None
      end
  | Chr c =>
      match a with
      | x :: a' => if Ascii.eqb x c then k (x :: b) a' gs else None
      | [] => None
      end
  | Maybe p =>
      match a with
      | x :: a' =>
          if p x
          then match k (x :: b) a' gs with
               | Some r => Some r
               | None => k b a gs
               end
          else k b a gs
      | [] => k b a gs
      end
  | Many lo p => greedy p lo (fun b' a' => k b' a' gs) b a
  | Few p => lazy p (fun b' a' => k b' a' gs) b a
  | Seq r1 r2 => exec r1 b a gs (fun b' a' gs' => exec r2 b' a' gs' k)
  | Opt r' =>
      match exec r' b a gs k with
      | Some r => Some r
      | None => k b a gs
      end
  | Grp g r' =>
      exec r' b a gs
        (fun b' a' gs' => k b' a' (set_group g (captured a a') gs'))
  | Ref g =>
      match get_group g gs with
      | Some s =>
          if starts_with s a
          then k (rev s ++ b) (skipn (length s) a) gs
          else None
      | None => None
      end
  end.

Definition finish : cont := fun b a gs => Some (b, a, gs).

(** A match object: [m.start()], [m.end()] and the groups. *)
Record rmatch := mkMatch {
  m_start : nat;
  m_end : nat;
  m_groups : groups
}.

Definition group (m : rmatch) (g : gname) : option text :=
  get_group g (m_groups m).

(** The first position, from the cursor on, at which the pattern
    matches. *)
Fixpoint scan (r : regex) (b a : text) : option rmatch :=
  match exec r b a no_groups finish with
  | Some (b', _, gs) => Some (mkMatch (length b) (length b') gs)
  | None =>
      match a with
      | c :: a' => scan r (c :: b) a'
      | [] => None
      end
  end.

(** [pattern.search(s, pos)]; a [pos] beyond the end is the end. *)
Definition search (r : regex) (s : text) (pos : nat) : option rmatch :=
  scan r (rev (firstn pos s)) (skipn pos s).

End Re.

(** ** The host pipeline *)

Module Markdown.

(** [markdown.util.HtmlStash]: [store] appends the markup and hands out
    the placeholder of the current counter. *)
Record HtmlStash := mkStash {
  rawHtmlBlocks : list (text * bool);
  html_counter : nat
}.

(** The values of [CodeHiliteExtension.config] that [process_fence]
    reads (each at index 0 of its entry). *)
Record Config := mkConfig {
  force_linenos : bool;
  guess_lang : bool;
  css_class : text;
  pygments_style : text;
  noclasses : bool
}.

Inductive Extension :=
| CodeHiliteExtension (config : Config)
| OtherExtension.

Record Markdown := mkMarkdown {
  registeredExtensions : list Extension;
  htmlStash : HtmlStash
}.

(** What the library beyond this repository provides: the text of the
    placeholder for a counter value, and the highlighter
    [CodeHilite(src, force_linenos, guess_lang, css_class, style, lang,
    noclasses).hilite()]. *)
Record Library := mkLibrary {
  get_placeholder : nat -> text;
  hilite : text -> bool -> bool -> text -> text -> option text -> bool -> text
}.

Definition store (lib : Library) (st : HtmlStash) (html : text) (safe : bool)
    : text * HtmlStash :=
  (get_placeholder lib (html_counter st),
   mkStash (rawHtmlBlocks st ++ [(html, safe)]) (S (html_counter st))).

(** Python-Markdown's own placeholder, [STX + "wzxhzdk:%d" + ETX]. *)
Definition HTML_PLACEHOLDER (key : nat) : text :=
  ["002"%char] ++ str "wzxhzdk:"
    ++ str (DecimalString.NilEmpty.string_of_uint (Nat.to_uint key)) ++ ["003"%char].

End Markdown.

(** ** zerver/lib/bugdown/fenced_code.py *)

Module FencedCode.
Import Re Markdown.

Definition is_tilde (c : ascii) : bool := Ascii.eqb c "~".
Definition is_space (c : ascii) : bool := Ascii.eqb c " ".
Definition is_lbrace (c : ascii) : bool := Ascii.eqb c "{".
Definition is_rbrace (c : ascii) : bool := Ascii.eqb c "}".
Definition is_dot (c : ascii) : bool := Ascii.eqb c ".".
Definition any (c : ascii) : bool := true.

Definition between (lo hi c : ascii) : bool :=
  (nat_of_ascii lo <=? nat_of_ascii c) && (nat_of_ascii c <=? nat_of_ascii hi).

(** The class [a-zA-Z0-9_+-] *)
Definition is_langchar (c : ascii) : bool :=
  between "a" "z" c || between "A" "Z" c || between "0" "9" c
  || Ascii.eqb c "_" || Ascii.eqb c "+" || Ascii.eqb c "-".

Infix ";;" := Seq (at level 61, right associativity).

(** The pattern piece (?P<fence>^(?:~{3,})) *)
Definition fence_group : regex := Grp fence (Bol ;; Many 3 is_tilde).

(** The pattern piece ( \{? \.? (?P<lang> [a-zA-Z0-9_+-]* ) \}? ), written
    here with blanks between its parts. *)
Definition tag_group : regex :=
  Grp tag (Maybe is_lbrace ;; Maybe is_dot ;; Grp lang (Many 0 is_langchar)
           ;; Maybe is_rbrace).

(** [FENCE_RE]: fence group, [ ]*, tag group, $ *)
Definition FENCE_RE : regex :=
  fence_group ;; Many 0 is_space ;; tag_group ;; Eol.

(** [FENCED_BLOCK_RE]: fence group, [ ]*, optional tag group, [ ]*, \n,
    (?P<code>.*?), (?<=\n), (?P=fence), [ ]*, $ *)
Definition FENCED_BLOCK_RE : regex :=
  fence_group ;; Many 0 is_space ;; Opt tag_group ;; Many 0 is_space
  ;; Chr nl ;; Grp code (Few any) ;; Behind nl ;; Ref fence
  ;; Many 0 is_space ;; Eol.

(** [CODE_WRAP % (langclass, body)] and [LANG_TAG % lang] *)
Definition CODE_WRAP (langclass body : text) : text :=
  str "<pre><code" ++ langclass ++ str ">" ++ body ++ str "</code></pre>".

Definition LANG_TAG (l : text) : text :=
  str " class=" ++ [dquote] ++ l ++ [dquote].

Record Preprocessor := mkSelf {
  markdown : Markdown;
  checked_for_codehilite : bool;
  codehilite_conf : option Config
}.

(** [FencedBlockPreprocessor(md)] *)
Definition init (md : Markdown) : Preprocessor := mkSelf md false None.

Definition with_stash (self : Preprocessor) (st : HtmlStash) : Preprocessor :=
  mkSelf (mkMarkdown (registeredExtensions (markdown self)) st)
         (checked_for_codehilite self) (codehilite_conf self).

(** The text of a group that took part in the match. *)
Definition text_of (o : option text) : text :=
  match o with
  | Some s => s
  | None => []
  end.

(** Truth value of [m.group(...)]: a group that is absent or empty is
    false. *)
Definition truthy (o : option text) : bool :=
  match o with
  | Some (_ :: _) => true
  | _ => false
  end.

Definition _escape (txt : text) : text :=
  let txt := replace "&" (str "&amp;") txt in
  let txt := replace "<" (str "&lt;") txt in
  let txt := replace ">" (str "&gt;") txt in
  let txt := replace dquote (str "&quot;") txt in
  txt.

(** The replacement of a [quote] block: the body of [process_fence]'s
    loop over the paragraphs. *)
Definition quote_paragraph (paragraph : text) : text :=
  let lines := split [nl] paragraph in
  join [nl]
    (map (fun line => str "> " ++ line)
         (filter (fun line => negb (text_eqb line [])) lines)).

Definition quote_replacement (body : text) : text :=
  let paragraphs := split [nl; nl] body in
  join [nl; nl] (map quote_paragraph paragraphs).

Definition is_quote (l : text) : bool :=
  text_eqb l (str "quote") || text_eqb l (str "quoted").

(** ['%s\n%s\n%s' % (text[:m.start()], mid, text[m.end():])] *)
Definition splice (m : rmatch) (mid s : text) : text :=
  upto (m_start m) s ++ [nl] ++ mid ++ [nl] ++ from (m_end m) s.

Section WithLibrary.
Variable lib : Library.

Definition process_fence (self : Preprocessor) (m : rmatch) (s : text)
    : text * Preprocessor :=
  let langclass :=
    if truthy (group m lang) then LANG_TAG (text_of (group m lang)) else [] in
  if truthy (group m lang) && is_quote (text_of (group m lang))
  then (splice m (quote_replacement (text_of (group m code))) s, self)
  else
    let body :=
      match codehilite_conf self with
      | Some conf =>
          hilite lib (text_of (group m code))
            (force_linenos conf) (guess_lang conf) (css_class conf)
            (pygments_style conf)
            (if truthy (group m lang) then group m lang else None)
            (noclasses conf)
      | None => CODE_WRAP langclass (_escape (text_of (group m code)))
      end in
    let '(placeholder, st) := store lib (htmlStash (markdown self)) body true in
    (splice m placeholder s, with_stash self st).

(** The [while 1] loop of [run]; [None] when the fuel runs out. *)
Fixpoint main_loop (fuel : nat) (self : Preprocessor) (s : text) (e : nat)
    : option (text * nat * Preprocessor) :=
  match fuel with
  | O => None
  | S fuel' =>
      match search FENCED_BLOCK_RE s 0 with
      | Some m =>
          let e := m_end m in
          let '(s, self) := process_fence self m s in
          main_loop fuel' self s e
      | None => Some (s, e, self)
      end
  end.

(** The check for the code hilite extension at the head of [run]. *)
Fixpoint find_codehilite (exts : list Extension) : option Config :=
  match exts with
  | [] => None
  | CodeHiliteExtension config :: _ => Some config
  | OtherExtension :: rest => find_codehilite rest
  end.

Definition check_codehilite (self : Preprocessor) : Preprocessor :=
  if checked_for_codehilite self then self
  else
    mkSelf (markdown self) true
      (match find_codehilite (registeredExtensions (markdown self)) with
       | Some config => Some config
       | None => codehilite_conf self
       end).

(** What [run] does once the loop is over. *)
Definition fix_up (self : Preprocessor) (s : text) (e : nat)
    : text * Preprocessor :=
  match search FENCE_RE s e with
  | Some f =>
      let s :=
        if text_eqb (last2 s) [nl; nl]
        then but_last2 s ++ [nl] ++ text_of (group f fence) ++ last2 s
        else s ++ text_of (group f fence) in
      match search FENCED_BLOCK_RE s 0 with
      | Some m => process_fence self m s
      | None => (s, self)
      end
  | None => (s, self)
  end.

Definition run (fuel : nat) (self : Preprocessor) (lines : list text)
    : option (list text * Preprocessor) :=
  let self := check_codehilite self in
  let s := join [nl] lines in
  match main_loop fuel self s 0 with
  | Some (s, e, self) =>
      let '(s, self) := fix_up self s e in
      Some (split [nl] s, self)
  | None => None
  end.

End WithLibrary.

End FencedCode.
Import Re Markdown FencedCode.


(** ** What a pattern can match

    [den r b x a1 gs gs'] reads: with [b] before the cursor and [x ++ a1]
    after it, the pattern [r] can consume [x] and turn the groups [gs]
    into [gs'].  It ignores the order in which the matcher tries the
    alternatives. *)

Fixpoint den (r : regex) (b x a1 : text) (gs gs' : groups) : Prop :=
  match r with
  | Bol => x = [] /\ at_bol b = true /\ gs' = gs
  | Eol => x = [] /\ at_eol a1 = true /\ gs' = gs
  | Behind c => x = [] /\ (exists b', b = c :: b') /\ gs' = gs
  | Chr c => x = [c] /\ gs' = gs
  | Maybe p => (x = [] \/ exists c, x = [c] /\ p c = true) /\ gs' = gs
  | Many lo p => forallb p x = true /\ lo <= length x /\ gs' = gs
  | Few p => forallb p x = true /\ gs' = gs
  | Seq r1 r2 =>
      exists x1 x2 gsm,
        x = x1 ++ x2 /\ den r1 b x1 (x2 ++ a1) gs gsm
        /\ den r2 (rev x1 ++ b) x2 a1 gsm gs'
  | Opt r' => (x = [] /\ gs' = gs) \/ den r' b x a1 gs gs'
  | Grp g r' => exists gsm, den r' b x a1 gs gsm /\ gs' = set_group g x gsm
  | Ref g => get_group g gs = Some x /\ gs' = gs
  end.

Definition tildes (n : nat) : text := repeat "~"%char n.
Definition spaces (n : nat) : text := repeat " "%char n.

Definition one_or_none (p : ascii -> bool) (s : text) : Prop :=
  s = [] \/ exists c, s = [c] /\ p c = true.

Definition tag_parse (tg L : text) : Prop :=
  exists ob od cb,
    tg = ob ++ od ++ L ++ cb
    /\ one_or_none is_lbrace ob /\ one_or_none is_dot od
    /\ forallb is_langchar L = true /\ one_or_none is_rbrace cb.

(** ** Lines and fence markers *)

Fixpoint take_while (p : ascii -> bool) (s : text) : text :=
  match s with
  | c :: s' => if p c then c :: take_while p s' else []
  | [] => []
  end.

Fixpoint drop_while (p : ascii -> bool) (s : text) : text :=
  match s with
  | c :: s' => if p c then drop_while p s' else s
  | [] => []
  end.

(** The number of tildes a line begins with. *)
Definition tilde_run (l : text) : nat := length (take_while is_tilde l).

(** A fence marker is a line that begins with three or more tildes. *)
Definition is_marker (l : text) : bool := 3 <=? tilde_run l.

Definition count_markers (ls : list text) : nat :=
  length (filter is_marker ls).

(** The fence markers of a text: those of its lines. *)
Definition markers (s : text) : nat := count_markers (split [nl] s).

Definition no_nl (l : text) : bool :=
  forallb (fun c => negb (Ascii.eqb c nl)) l.

(** ** Documents made of plain lines and fenced blocks *)

(** Every line followed by a newline, and every line preceded by one. *)
Definition unlines (ls : list text) : text := flat_map (fun l => l ++ [nl]) ls.
Definition tail_text (ls : list text) : text := flat_map (fun l => nl :: l) ls.

Definition drop_if (p : ascii -> bool) (s : text) : text :=
  match s with
  | c :: s' => if p c then s' else s
  | [] => []
  end.

Definition take_if (p : ascii -> bool) (s : text) : text :=
  match s with
  | c :: _ => if p c then [c] else []
  | [] => []
  end.

(** The language tag at the head of [s], and what follows the tag group. *)
Definition lang_of (s : text) : text :=
  take_while is_langchar (drop_if is_dot (drop_if is_lbrace s)).

Definition after_tag (s : text) : text :=
  drop_if is_rbrace
    (drop_while is_langchar (drop_if is_dot (drop_if is_lbrace s))).

(** What follows the tildes and the blanks after them. *)
Definition after_fence (l : text) : text :=
  drop_while is_space (drop_while is_tilde l).

(** A line that opens a block: three or more tildes, blanks, the tag
    group, blanks; the result is the number of tildes and the tag. *)
Definition opener (l : text) : option (nat * text) :=
  if (3 <=? tilde_run l)
     && text_eqb (drop_while is_space (after_tag (after_fence l))) []
  then Some (tilde_run l, lang_of (after_fence l))
  else None.

(** A line that [FENCE_RE] matches: as [opener], without blanks at the
    end of a tag. *)
Definition fence_line (l : text) : option nat :=
  if (3 <=? tilde_run l) && text_eqb (after_tag (after_fence l)) []
  then Some (tilde_run l)
  else None.

(** A line that closes a block opened with [n] tildes: exactly [n]
    tildes, then blanks only. *)
Definition closer (n : nat) (l : text) : bool :=
  starts_with (tildes n) l && forallb is_space (skipn n l).

Inductive item :=
| Plain (l : text)
| Fenced (o : text) (body : list text) (c : text).

Definition item_lines (it : item) : list text :=
  match it with
  | Plain l => [l]
  | Fenced o body c => o :: body ++ [c]
  end.

Definition doc_lines (doc : list item) : list text := flat_map item_lines doc.

Definition plain_line (l : text) : bool := no_nl l && negb (is_marker l).

(** A plain line does not begin with three tildes; the body of a block
    has no line that closes it. *)
Definition wf_item (it : item) : bool :=
  match it with
  | Plain l => plain_line l
  | Fenced o body c =>
      match opener o with
      | Some (n, _) =>
          forallb (fun l => no_nl l && negb (closer n l)) body && closer n c
      | None => false
      end
  end.

Definition wf_doc (doc : list item) : bool := forallb wf_item doc.

Definition blocks (doc : list item) : nat :=
  length (filter (fun it => match it with Fenced _ _ _ => true | _ => false end)
                 doc).

Definition quote_tag (L : text) : bool := truthy (Some L) && is_quote L.

Definition block_tag (o : text) : text :=
  match opener o with
  | Some (_, L) => L
  | None => []
  end.

Definition quote_blocks (doc : list item) : nat :=
  length (filter (fun it => match it with
                            | Fenced o _ _ => quote_tag (block_tag o)
                            | _ => false
                            end) doc).

Section Expected.
Variable lib : Library.
Variable conf : option Config.

(** The markup that is stored for a block with tag [L] and body [body]. *)
Definition markup (L body : text) : text :=
  match conf with
  | Some c =>
      hilite lib body (force_linenos c) (guess_lang c) (css_class c)
        (pygments_style c) (if truthy (Some L) then Some L else None)
        (noclasses c)
  | None =>
      CODE_WRAP (if truthy (Some L) then LANG_TAG L else []) (_escape body)
  end.

(** The lines of the document with every block replaced in place, the
    placeholders numbered from [k] on. *)
Fixpoint expected_lines (k : nat) (doc : list item) : list text :=
  match doc with
  | [] => []
  | Plain l :: rest => l :: expected_lines k rest
  | Fenced o body c :: rest =>
      if quote_tag (block_tag o)
      then [] :: split [nl] (quote_replacement (unlines body))
             ++ [] :: expected_lines k rest
      else [] :: get_placeholder lib k :: [] :: expected_lines (S k) rest
  end.

(** The markup stored, block after block. *)
Fixpoint expected_stored (doc : list item) : list (text * bool) :=
  match doc with
  | [] => []
  | Plain _ :: rest => expected_stored rest
  | Fenced o body c :: rest =>
      if quote_tag (block_tag o) then expected_stored rest
      else (markup (block_tag o) (unlines body), true) :: expected_stored rest
  end.

End Expected.

(** The stash after the blocks of a document were stored. *)
Definition stash_after (lib : Library) (conf : option Config)
    (doc : list item) (st : HtmlStash) : HtmlStash :=
  mkStash (rawHtmlBlocks st ++ expected_stored lib conf doc)
          (html_counter st + length (expected_stored lib conf doc)).

(** ** A concrete host

    Python-Markdown's placeholders, no syntax highlighter registered, and
    an empty stash.  The highlighter of [python_markdown] is never called
    in that case; it returns the code as it is. *)

Definition python_markdown : Library :=
  mkLibrary HTML_PLACEHOLDER (fun src _ _ _ _ _ _ => src).

Definition fresh : Preprocessor := init (mkMarkdown [] (mkStash [] 0)).

(** The lines and the stored markup of a result of [run]. *)
Definition out_lines (r : option (list text * Preprocessor)) : list text :=
  match r with
  | Some (ls, _) => ls
  | None => []
  end.

Definition out_stored (r : option (list text * Preprocessor)) : list text :=
  match r with
  | Some (_, self) => map fst (rawHtmlBlocks (htmlStash (markdown self)))
  | None => []
  end.

(** [m.group(0)]: the text of the whole match. *)
Definition matched (m : rmatch) (s : text) : text :=
  upto (m_end m - m_start m) (from (m_start m) s).

(** Escaping as the specification words it: each of the four characters
    is replaced by its entity, every other character is kept. *)
Definition escape_char (c : ascii) : text :=
  if Ascii.eqb c "&" then str "&amp;"
  else if Ascii.eqb c "<" then str "&lt;"
  else if Ascii.eqb c ">" then str "&gt;"
  else if Ascii.eqb c dquote then str "&quot;"
  else [c].

Definition escape_spec (s : text) : text := flat_map escape_char s.

(** A document given by its lines. *)
Definition lines_of (l : list string) : list text := map str l.

(** A document with a tagged block whose body holds a longer run of
    tildes, and a block whose body holds a shorter one. *)
Definition demo_doc : list item :=
  [Plain (str "intro");
   Fenced (str "~~~ {.python}") [str "x = 1"; str "~~~~"] (str "~~~  ");
   Plain (str "between");
   Fenced (str "~~~~") [str "~~~"; str "y"] (str "~~~~")].

(** A line of a block quote: empty, or a line of the body that was not
    empty, behind the mark. *)
Definition quoted_line (l : text) : Prop :=
  l = [] \/ exists x, x <> [] /\ no_nl x = true /\ l = str "> " ++ x.

(** ** Vocabulary of the further properties *)

(** The characters that [_escape] replaces. *)
Definition is_special (c : ascii) : bool :=
  Ascii.eqb c "&" || Ascii.eqb c "<" || Ascii.eqb c ">" || Ascii.eqb c dquote.

(** The preprocessor of a Markdown instance whose list of registered
    extensions has become [exts] (further calls of
    [md.registerExtension]). *)
Definition with_extensions (self : Preprocessor) (exts : list Extension)
    : Preprocessor :=
  mkSelf (mkMarkdown exts (htmlStash (markdown self)))
         (checked_for_codehilite self) (codehilite_conf self).

(** [self'] is [self] after some blocks were stored: the check for the
    highlighter and the registered extensions are as they were, and the
    stash holds the blocks of [self] followed by [added], each marked
    safe, its counter moved on by their number. *)
Definition stored_more (self self' : Preprocessor) (added : list (text * bool))
    : Prop :=
  checked_for_codehilite self' = checked_for_codehilite self
  /\ codehilite_conf self' = codehilite_conf self
  /\ registeredExtensions (markdown self')
     = registeredExtensions (markdown self)
  /\ rawHtmlBlocks (htmlStash (markdown self'))
     = rawHtmlBlocks (htmlStash (markdown self)) ++ added
  /\ html_counter (htmlStash (markdown self'))
     = html_counter (htmlStash (markdown self)) + length added
  /\ Forall (fun p => snd p = true) added.

(** The result of a run with the registered extensions replaced. *)
Definition result_with_extensions (exts : list Extension)
    (r : option (list text * Preprocessor))
    : option (list text * Preprocessor) :=
  match r with
  | Some (out, self) => Some (out, with_extensions self exts)
  | None => None
  end.

(** The text [r] does not begin with a character of the class [p]. *)
Definition stops (p : ascii -> bool) (r : text) : bool :=
  match r with
  | c :: _ => negb (p c)
  | [] => true
  end.

(** Among the lines there is a line that opens a block and, after it, a
    line that closes it. *)
Definition has_block (lines : list text) : Prop :=
  exists A o B c C n L,
    lines = A ++ o :: B ++ c :: C
    /\ opener o = Some (n, L) /\ closer n c = true.

(** Two preprocessors whose stashes hand out the same placeholder
    next. *)
Definition same_counter (a b : Preprocessor) : Prop :=
  html_counter (htmlStash (markdown a)) = html_counter (htmlStash (markdown b)).

(** A host with a highlighter that wraps the code in a [div]. *)
Definition highlighting_host : Library :=
  mkLibrary HTML_PLACEHOLDER
    (fun src _ _ _ _ _ _ => str "<div>" ++ src ++ str "</div>").

(** ** Properties of the matcher *)

Section Matcher.

Lemma eqb_true (x y : ascii) : Ascii.eqb x y = true -> x = y.
Proof. apply Ascii.eqb_eq. Qed.

Lemma starts_with_app (s a : text) :
  starts_with s a = true -> a = s ++ skipn (length s) a.
Proof.
  revert a; induction s as [|c s IH]; intros [|d a]; simpl; try easy.
  intros H; apply andb_true_iff in H as [Hc Hs].
  apply eqb_true in Hc; subst d. f_equal. now apply IH.
Qed.

Lemma starts_with_refl (s a : text) : starts_with s (s ++ a) = true.
Proof.
  induction s as [|c s IH]; simpl; [easy|].
  now rewrite Ascii.eqb_refl, IH.
Qed.

Lemma skipn_app_exact (x a : text) : skipn (length x) (x ++ a) = a.
Proof. induction x; simpl; auto. Qed.

Lemma captured_app (x a : text) : captured (x ++ a) a = x.
Proof.
  unfold captured. rewrite length_app.
  replace (length x + length a - length a) with (length x) by lia.
  induction x; simpl; [now destruct a | now f_equal].
Qed.

Lemma rev_cons_app (c : ascii) (x b : text) :
  rev (c :: x) ++ b = rev x ++ c :: b.
Proof. simpl. now rewrite <- app_assoc. Qed.

Lemma greedy_sound p lo k b a res :
  greedy p lo k b a = Some res ->
  exists x a1, a = x ++ a1 /\ forallb p x = true /\ lo <= length x
               /\ k (rev x ++ b) a1 = Some res.
Proof.
  revert lo b; induction a as [|c a IH]; intros lo b H; simpl in H.
  - destruct lo; [|discriminate]. now exists [], [].
  - assert (Hstop : match lo with 0 => k b (c :: a) | S _ => None end
                    = Some res ->
                    exists x a1, c :: a = x ++ a1 /\ forallb p x = true
                                 /\ lo <= length x
                                 /\ k (rev x ++ b) a1 = Some res).
    { destruct lo; [|discriminate]. intros E. now exists [], (c :: a). }
    destruct (p c) eqn:Hp; [|auto].
    destruct (greedy p (pred lo) k (c :: b) a) eqn:G; [|auto].
    inversion H; subst r. apply IH in G as (x & a1 & -> & Hx & Hlo & Hk).
    exists (c :: x), a1. rewrite rev_cons_app. simpl. rewrite Hp, Hx.
    repeat split; auto. lia.
Qed.

Lemma greedy_complete p lo k b x a1 :
  forallb p x = true -> lo <= length x -> k (rev x ++ b) a1 <> None ->
  greedy p lo k b (x ++ a1) <> None.
Proof.
  revert lo b; induction x as [|c x IH]; intros lo b Hx Hlo Hk; simpl in *.
  - assert (lo = 0) by lia; subst lo.
    destruct a1 as [|c a]; simpl; [easy|].
    destruct (p c); [|easy]. now destruct (greedy p 0 k (c :: b) a).
  - apply andb_true_iff in Hx as [Hc Hx]. rewrite Hc.
    destruct (greedy p (pred lo) k (c :: b) (x ++ a1)) eqn:G; [easy|].
    exfalso. revert G. apply IH; auto; [lia|].
    now rewrite <- rev_cons_app.
Qed.

Lemma lazy_sound p k b a res :
  lazy p k b a = Some res ->
  exists x a1, a = x ++ a1 /\ forallb p x = true
               /\ k (rev x ++ b) a1 = Some res.
Proof.
  revert b; induction a as [|c a IH]; intros b H; simpl in H.
  - destruct (k b []) eqn:K; [|discriminate]. inversion H; subst.
    now exists [], [].
  - destruct (k b (c :: a)) eqn:K.
    + inversion H; subst. now exists [], (c :: a).
    + destruct (p c) eqn:Hp; [|discriminate].
      apply IH in H as (x & a1 & -> & Hx & Hk).
      exists (c :: x), a1. rewrite rev_cons_app. simpl. now rewrite Hp, Hx.
Qed.

Lemma lazy_complete p k b x a1 :
  forallb p x = true -> k (rev x ++ b) a1 <> None ->
  lazy p k b (x ++ a1) <> None.
Proof.
  revert b; induction x as [|c x IH]; intros b Hx Hk; simpl in *.
  - destruct a1; simpl; now destruct (k b _).
  - apply andb_true_iff in Hx as [Hc Hx].
    destruct (k b (c :: x ++ a1)); [easy|]. rewrite Hc.
    apply IH; auto. now rewrite <- rev_cons_app.
Qed.

(** Whatever the matcher returns was reached through a match of the
    pattern. *)
Lemma exec_sound r : forall b a gs k res,
  exec r b a gs k = Some res ->
  exists x a1 gs',
    a = x ++ a1 /\ den r b x a1 gs gs' /\ k (rev x ++ b) a1 gs' = Some res.
Proof.
  induction r; intros b a gs k res H; simpl in H.
  - destruct (at_bol b) eqn:E; [|discriminate]. now exists [], a, gs.
  - destruct (at_eol a) eqn:E; [|discriminate]. now exists [], a, gs.
  - destruct b as [|x b]; [discriminate|].
    destruct (Ascii.eqb x c) eqn:E; [|discriminate].
    apply eqb_true in E; subst x. exists [], a, gs. simpl.
    repeat split; eauto.
  - destruct a as [|x a]; [discriminate|].
    destruct (Ascii.eqb x c) eqn:E; [|discriminate].
    apply eqb_true in E; subst x. now exists [c], a, gs.
  - destruct a as [|x a].
    + exists [], [], gs. simpl. auto.
    + destruct (p x) eqn:Hp.
      * destruct (k (x :: b) a gs) eqn:K.
        -- inversion H; subst. exists [x], a, gs. simpl.
           repeat split; auto. right. now exists x.
        -- exists [], (x :: a), gs. simpl. auto.
      * exists [], (x :: a), gs. simpl. auto.
  - apply greedy_sound in H as (x & a1 & -> & Hx & Hlo & Hk).
    exists x, a1, gs. simpl. auto.
  - apply lazy_sound in H as (x & a1 & -> & Hx & Hk).
    exists x, a1, gs. simpl. auto.
  - apply IHr1 in H as (x1 & a1 & gs1 & -> & D1 & H).
    apply IHr2 in H as (x2 & a2 & gs2 & -> & D2 & H).
    exists (x1 ++ x2), a2, gs2. rewrite rev_app_distr, <- !app_assoc.
    repeat split; auto. simpl. now exists x1, x2, gs1.
  - destruct (exec r b a gs k) eqn:E.
    + inversion H; subst. apply IHr in E as (x & a1 & gs1 & -> & D & K).
      exists x, a1, gs1. simpl. auto.
    + exists [], a, gs. simpl. auto.
  - apply IHr in H as (x & a1 & gs1 & -> & D & K).
    rewrite captured_app in K.
    exists x, a1, (set_group g x gs1). simpl. eauto.
  - destruct (get_group g gs) as [s|] eqn:G; [|discriminate].
    destruct (starts_with s a) eqn:E; [|discriminate].
    exists s, (skipn (length s) a), gs. simpl.
    repeat split; auto. now apply starts_with_app.
Qed.

(** Every match of the pattern that the rest of the pattern accepts makes
    the matcher return something. *)
Lemma exec_complete r : forall b x a1 gs gs' k,
  den r b x a1 gs gs' -> k (rev x ++ b) a1 gs' <> None ->
  exec r b (x ++ a1) gs k <> None.
Proof.
  induction r; intros b x a1 gs gs' k D K; simpl in D.
  - destruct D as (-> & E & ->). simpl. now rewrite E.
  - destruct D as (-> & E & ->). simpl. now rewrite E.
  - destruct D as (-> & (b' & ->) & ->). simpl. now rewrite Ascii.eqb_refl.
  - destruct D as (-> & ->). simpl. now rewrite Ascii.eqb_refl.
  - destruct D as ([-> | (c & -> & Hp)] & ->); simpl in *.
    + destruct a1 as [|c a]; [easy|]. destruct (p c); [|easy].
      now destruct (k (c :: b) a gs).
    + rewrite Hp. now destruct (k (c :: b) a1 gs).
  - destruct D as (Hx & Hlo & ->). simpl. now apply greedy_complete.
  - destruct D as (Hx & ->). simpl. now apply lazy_complete.
  - destruct D as (x1 & x2 & gsm & -> & D1 & D2). simpl.
    rewrite <- app_assoc. apply IHr1 with (gs' := gsm); auto.
    apply IHr2 with (gs' := gs'); auto.
    now rewrite rev_app_distr, <- app_assoc in K.
  - simpl. destruct D as [(-> & ->) | D].
    + simpl in *. now destruct (exec r b a1 gs k).
    + destruct (exec r b (x ++ a1) gs k) eqn:E; [easy|].
      exfalso. revert E. now apply IHr with (gs' := gs').
  - destruct D as (gsm & D & ->). simpl.
    apply IHr with (gs' := gsm); auto. now rewrite captured_app.
  - destruct D as (G & ->). simpl. rewrite G, starts_with_refl.
    now rewrite skipn_app_exact.
Qed.

Lemma scan_sound r : forall a b m,
  scan r b a = Some m ->
  exists x y b' a' gs,
    a = x ++ y
    /\ exec r (rev x ++ b) y no_groups finish = Some (b', a', gs)
    /\ m = mkMatch (length (rev x ++ b)) (length b') gs.
Proof.
  induction a as [|c a IH]; intros b m H; simpl in H.
  - destruct (exec r b [] no_groups finish) as [[[b' a'] gs]|] eqn:E;
      [|discriminate].
    inversion H; subst. now exists [], [], b', a', gs.
  - destruct (exec r b (c :: a) no_groups finish) as [[[b' a'] gs]|] eqn:E.
    + inversion H; subst. now exists [], (c :: a), b', a', gs.
    + apply IH in H as (x & y & b' & a' & gs & -> & E' & ->).
      exists (c :: x), y, b', a', gs. now rewrite rev_cons_app.
Qed.

Lemma scan_complete r : forall x y b,
  exec r (rev x ++ b) y no_groups finish <> None ->
  scan r b (x ++ y) <> None.
Proof.
  induction x as [|c x IH]; intros y b H; simpl in *.
  - destruct y; simpl;
      now destruct (exec r b _ no_groups finish) as [[[? ?] ?]|].
  - destruct (exec r b (c :: x ++ y) no_groups finish) as [[[? ?] ?]|];
      [easy|].
    apply IH. now rewrite <- rev_cons_app.
Qed.

End Matcher.

Section Shapes.

Lemma forallb_tildes x : forallb is_tilde x = true -> x = tildes (length x).
Proof.
  induction x as [|c x IH]; simpl; [easy|]. intros H.
  apply andb_true_iff in H as [Hc Hx]. apply eqb_true in Hc. subst c.
  unfold tildes in *. simpl. f_equal. auto.
Qed.

Lemma forallb_spaces x : forallb is_space x = true -> x = spaces (length x).
Proof.
  induction x as [|c x IH]; simpl; [easy|]. intros H.
  apply andb_true_iff in H as [Hc Hx]. apply eqb_true in Hc. subst c.
  unfold spaces in *. simpl. f_equal. auto.
Qed.

Lemma den_tag_group b x a1 gs gs' :
  den tag_group b x a1 gs gs' <->
  exists L, tag_parse x L /\ gs' = set_group tag x (set_group lang L gs).
Proof.
  unfold tag_group, tag_parse, one_or_none. simpl. split.
  - intros (g1 & (x1 & x2 & g2 & -> & (H1 & ->) & x3 & x4 & g3 & -> &
             (H3 & ->) & x5 & x6 & g4 & -> & (g5 & (H5 & _ & ->) & ->) &
             H6 & ->) & ->).
    exists x5. split; [|reflexivity]. now exists x1, x3, x6.
  - intros (L & (ob & od & cb & -> & H1 & H2 & H3 & H4) & ->).
    exists (set_group lang L gs). split; [|reflexivity].
    exists ob, (od ++ L ++ cb), gs. repeat split; auto.
    exists od, (L ++ cb), gs. repeat split; auto.
    exists L, cb, (set_group lang L gs). repeat split; auto.
    exists gs. repeat split; auto. lia.
Qed.

Lemma rev_ends_nl (body B b0 : text) :
  rev body ++ nl :: B = nl :: b0 ->
  body = [] \/ exists body', body = body' ++ [nl].
Proof.
  destruct body as [|c body] using rev_ind; [now left|].
  rewrite rev_app_distr. simpl. intros H. inversion H; subst.
  right. now exists body.
Qed.

Local Opaque tag_group.

Lemma den_block b x a1 gs' :
  den FENCED_BLOCK_RE b x a1 no_groups gs' ->
  exists n s1 tg s2 body s3 otag olang,
    x = tildes n ++ spaces s1 ++ tg ++ spaces s2 ++ nl :: body
          ++ tildes n ++ spaces s3
    /\ at_bol b = true /\ 3 <= n
    /\ ((tg = [] /\ otag = None /\ olang = None)
        \/ exists L, tag_parse tg L /\ otag = Some tg /\ olang = Some L)
    /\ (body = [] \/ exists body', body = body' ++ [nl])
    /\ at_eol a1 = true
    /\ gs' = mkGroups (Some (tildes n)) otag olang (Some body).
Proof.
  unfold FENCED_BLOCK_RE, fence_group. simpl.
  intros (x1 & x2 & g1 & -> & (g0 & (y1 & y2 & g2 & -> & (-> & Hbol & ->) &
            Ht & Hn & ->) & ->) &
          s1 & x3 & g3 & -> & (Hs1 & _ & ->) &
          tg & x4 & g4 & -> & Htag &
          s2 & x5 & g5 & -> & (Hs2 & _ & ->) &
          c1 & x6 & g6 & -> & (-> & ->) &
          body & x7 & g7 & -> & (g8 & (_ & ->) & ->) &
          e1 & x8 & g9 & -> & (-> & (b0 & Hb) & ->) &
          f1 & x9 & g10 & -> & (Hf & ->) &
          s3 & e2 & g11 & -> & (Hs3 & _ & ->) & (-> & Heol & ->)).
  simpl in *.
  apply forallb_tildes in Ht. apply forallb_spaces in Hs1, Hs2, Hs3.
  apply rev_ends_nl in Hb.
  rewrite app_nil_r.
  exists (length y2), (length s1), tg, (length s2), body, (length s3).
  rewrite <- Ht, <- Hs1, <- Hs2, <- Hs3.
  destruct Htag as [(-> & ->) | Htag].
  - simpl in Hf. injection Hf as <-.
    exists None, None. repeat split; auto.
  - apply den_tag_group in Htag as (L & HL & ->).
    simpl in Hf. injection Hf as <-.
    exists (Some tg), (Some L). repeat split; auto. right. now exists L.
Qed.

Local Transparent tag_group.

End Shapes.

(** ** Splitting into lines and joining again *)

Section Lines.

Lemma split_nl_nil : split [nl] [] = [[]].
Proof. reflexivity. Qed.

Lemma split_nl_cons c s :
  split [nl] (c :: s) =
  if Ascii.eqb c nl then [] :: split [nl] s
  else match split [nl] s with
       | p :: ps => (c :: p) :: ps
       | [] => [[c]]
       end.
Proof.
  unfold split.
  change (split_from [nl] 0 (c :: s)) with
    (if Ascii.eqb nl c && true then [] :: split_from [nl] 0 s
     else match split_from [nl] 0 s with
          | p :: ps => (c :: p) :: ps
          | [] => [[c]]
          end).
  now rewrite andb_true_r, Ascii.eqb_sym.
Qed.

Lemma split_nl_nonempty s : split [nl] s <> [].
Proof.
  destruct s as [|c s]; [easy|]. rewrite split_nl_cons.
  destruct (Ascii.eqb c nl); [easy|]. now destruct (split [nl] s).
Qed.

Lemma split_nl_app x y :
  split [nl] (x ++ nl :: y) = split [nl] x ++ split [nl] y.
Proof.
  induction x as [|c x IH]; simpl.
  - now rewrite split_nl_cons, Ascii.eqb_refl.
  - rewrite !split_nl_cons, IH. destruct (Ascii.eqb c nl); [easy|].
    pose proof (split_nl_nonempty x). now destruct (split [nl] x).
Qed.

Lemma split_nl_line l : no_nl l = true -> split [nl] l = [l].
Proof.
  induction l as [|c l IH]; simpl; [easy|]. intros H.
  apply andb_true_iff in H as [Hc Hl]. rewrite split_nl_cons.
  apply negb_true_iff in Hc. rewrite Hc. now rewrite IH.
Qed.

Lemma split_nl_pieces s : Forall (fun l => no_nl l = true) (split [nl] s).
Proof.
  induction s as [|c s IH]; [now repeat constructor|].
  rewrite split_nl_cons. destruct (Ascii.eqb c nl) eqn:E.
  - now constructor.
  - destruct (split [nl] s) as [|p ps]; [now repeat constructor; simpl; rewrite E|].
    inversion IH; subst. constructor; auto. simpl. now rewrite E.
Qed.

Lemma join_cons sep l ls :
  ls <> [] -> join sep (l :: ls) = l ++ sep ++ join sep ls.
Proof. now destruct ls. Qed.

Lemma join_split_nl s : join [nl] (split [nl] s) = s.
Proof.
  induction s as [|c s IH]; [easy|]. rewrite split_nl_cons.
  pose proof (split_nl_nonempty s) as Hne.
  destruct (Ascii.eqb c nl) eqn:E.
  - apply eqb_true in E; subst c. rewrite join_cons by assumption.
    simpl. now rewrite IH.
  - destruct (split [nl] s) as [|p ps]; [easy|].
    destruct ps as [|q ps]; simpl in *; now rewrite <- IH.
Qed.

Lemma split_join_nl ls :
  ls <> [] -> Forall (fun l => no_nl l = true) ls ->
  split [nl] (join [nl] ls) = ls.
Proof.
  induction ls as [|l ls IH]; [easy|]. intros _ H.
  inversion H as [|? ? Hl Hls]; subst.
  destruct ls as [|l' ls]; [now apply split_nl_line|].
  rewrite join_cons by easy.
  change ([nl] ++ join [nl] (l' :: ls)) with (nl :: join [nl] (l' :: ls)).
  rewrite split_nl_app, split_nl_line by assumption.
  rewrite IH; [reflexivity | easy | assumption].
Qed.

Lemma count_markers_app l1 l2 :
  count_markers (l1 ++ l2) = count_markers l1 + count_markers l2.
Proof. unfold count_markers. now rewrite filter_app, length_app. Qed.

Lemma at_bol_rev pre :
  at_bol (rev pre) = true -> pre = [] \/ exists pre', pre = pre' ++ [nl].
Proof.
  destruct pre as [|c pre _] using rev_ind; [now left|].
  rewrite rev_app_distr. simpl. intros H. apply eqb_true in H. subst c.
  right. now exists pre.
Qed.

Lemma at_eol_cases post :
  at_eol post = true -> post = [] \/ exists post', post = nl :: post'.
Proof.
  destruct post as [|c post]; [now left|]. simpl. intros H.
  apply eqb_true in H. subst c. right. now exists post.
Qed.

(** Replacing a stretch of whole lines changes the markers of that
    stretch only. *)
Lemma markers_context pre post :
  at_bol (rev pre) = true -> at_eol post = true ->
  exists c, forall X, markers (pre ++ X ++ post) = c + markers X.
Proof.
  intros Hb He. unfold markers.
  apply at_bol_rev in Hb as [-> | (pre' & ->)];
    apply at_eol_cases in He as [-> | (post' & ->)].
  - exists 0. intros X. simpl. now rewrite app_nil_r.
  - exists (count_markers (split [nl] post')). intros X. simpl.
    rewrite split_nl_app, count_markers_app. lia.
  - exists (count_markers (split [nl] pre')). intros X.
    rewrite app_nil_r, <- app_assoc. simpl.
    now rewrite split_nl_app, count_markers_app.
  - exists (count_markers (split [nl] pre') + count_markers (split [nl] post')).
    intros X. rewrite <- !app_assoc. simpl.
    rewrite split_nl_app, count_markers_app, split_nl_app, count_markers_app.
    lia.
Qed.

Lemma markers_wrapped mid : markers (nl :: mid ++ [nl]) = markers mid.
Proof.
  unfold markers. rewrite split_nl_cons, Ascii.eqb_refl, split_nl_app.
  change ([] :: split [nl] mid ++ split [nl] [])
    with ([[]] ++ split [nl] mid ++ split [nl] []).
  rewrite !count_markers_app, split_nl_nil.
  change (count_markers [[]]) with 0. lia.
Qed.

Lemma take_while_tildes n s :
  n <= length (take_while is_tilde (tildes n ++ s)).
Proof. unfold tildes. induction n; simpl; lia. Qed.

Lemma split_nl_tildes n s :
  exists p ps, split [nl] (tildes n ++ s) = (tildes n ++ p) :: ps.
Proof.
  unfold tildes. induction n as [|n (p & ps & IH)]; simpl.
  - pose proof (split_nl_nonempty s).
    destruct (split [nl] s) as [|p ps]; [easy|]. now exists p, ps.
  - rewrite split_nl_cons, IH.
    change (Ascii.eqb "~" nl) with false. cbv iota. now exists p, ps.
Qed.

Lemma markers_tildes n s : 3 <= n -> 1 <= markers (tildes n ++ s).
Proof.
  intros Hn. unfold markers. destruct (split_nl_tildes n s) as (p & ps & ->).
  unfold count_markers. simpl. unfold is_marker, tilde_run.
  pose proof (take_while_tildes n p).
  destruct (3 <=? _) eqn:E; [simpl; lia|].
  apply Nat.leb_gt in E. lia.
Qed.

End Lines.

(** ** What a successful search tells *)

Section Search.

Lemma search_sound r s pos m :
  search r s pos = Some m ->
  exists pre M post,
    s = pre ++ M ++ post
    /\ m_start m = length pre /\ m_end m = length pre + length M
    /\ Nat.min pos (length s) <= length pre
    /\ den r (rev pre) M post no_groups (m_groups m).
Proof.
  unfold search. intros H.
  apply scan_sound in H as (x & y & b' & a' & gs & Hs & E & ->).
  apply exec_sound in E as (M & a1 & gs' & -> & D & K).
  unfold finish in K. inversion K; subst b' a' gs'. clear K.
  exists (firstn pos s ++ x), M, a1. simpl.
  rewrite rev_app_distr, <- app_assoc, <- Hs, firstn_skipn.
  repeat split; auto.
  - now rewrite !length_app, !length_rev, Nat.add_comm.
  - rewrite !length_app, !length_rev. lia.
  - rewrite length_app, length_firstn. lia.
Qed.

Lemma upto_app pre rest : upto (length pre) (pre ++ rest) = pre.
Proof.
  unfold upto. rewrite firstn_app, Nat.sub_diag, firstn_all. simpl.
  now rewrite app_nil_r.
Qed.

Lemma from_app pre M post :
  from (length pre + length M) (pre ++ M ++ post) = post.
Proof.
  unfold from. rewrite app_assoc, <- length_app. apply skipn_app_exact.
Qed.

Lemma splice_app m mid pre M post :
  m_start m = length pre -> m_end m = length pre + length M ->
  splice m mid (pre ++ M ++ post) = pre ++ nl :: mid ++ nl :: post.
Proof.
  intros Hs He. unfold splice. now rewrite Hs, He, upto_app, from_app.
Qed.

End Search.

(** ** The replacement of a quote block has no fence marker *)

Section Quote.

Lemma count_markers_quoted ls :
  count_markers (map (fun line => str "> " ++ line) ls) = 0.
Proof. induction ls; [reflexivity | exact IHls]. Qed.

Lemma no_nl_quoted ls :
  Forall (fun l => no_nl l = true) ls ->
  Forall (fun l => no_nl l = true) (map (fun line => str "> " ++ line) ls).
Proof.
  intros H. apply Forall_map. eapply Forall_impl; [|exact H].
  intros l Hl. exact Hl.
Qed.

Lemma markers_quote_paragraph p : markers (quote_paragraph p) = 0.
Proof.
  unfold quote_paragraph, markers.
  set (ls := filter _ (split [nl] p)).
  assert (Hls : Forall (fun l => no_nl l = true) ls).
  { apply Forall_forall. intros l Hl. apply filter_In in Hl as [Hl _].
    revert l Hl. apply Forall_forall, split_nl_pieces. }
  destruct ls as [|l ls]; [reflexivity|].
  rewrite split_join_nl.
  - apply count_markers_quoted.
  - easy.
  - now apply no_nl_quoted.
Qed.

Lemma markers_join_paragraphs qs :
  Forall (fun q => markers q = 0) qs -> markers (join [nl; nl] qs) = 0.
Proof.
  induction qs as [|q qs IH]; intros H; [reflexivity|].
  inversion H as [|? ? Hq Hqs]; subst.
  destruct qs as [|q' qs]; [exact Hq|].
  rewrite join_cons by easy.
  change ([nl; nl] ++ ?x) with (nl :: nl :: x).
  unfold markers in *. rewrite split_nl_app, count_markers_app, Hq.
  rewrite split_nl_cons, Ascii.eqb_refl.
  change ([] :: ?l) with ([[]] ++ l). rewrite count_markers_app.
  now rewrite IH.
Qed.

Lemma markers_quote_replacement body : markers (quote_replacement body) = 0.
Proof.
  unfold quote_replacement. apply markers_join_paragraphs.
  apply Forall_map, Forall_forall. intros p _.
  apply markers_quote_paragraph.
Qed.

End Quote.

(** ** Every substitution removes fence markers *)

Section Loop.
Variable lib : Library.

Lemma process_fence_text self m s :
  exists mid,
    fst (process_fence lib self m s) = splice m mid s
    /\ (mid = quote_replacement (text_of (group m code))
        \/ mid = get_placeholder lib (html_counter (htmlStash (markdown self)))).
Proof.
  unfold process_fence.
  destruct (truthy (group m lang) && is_quote (text_of (group m lang))).
  - eexists. split; [reflexivity | now left].
  - eexists. split; [reflexivity | now right].
Qed.

Lemma process_fence_decreases self m s :
  (forall k, markers (get_placeholder lib k) = 0) ->
  search FENCED_BLOCK_RE s 0 = Some m ->
  markers (fst (process_fence lib self m s)) < markers s.
Proof.
  intros Hph H.
  apply search_sound in H as (pre & M & post & -> & Hs & He & _ & D).
  apply den_block in D
    as (n & s1 & tg & s2 & body & s3 & otag & olang & HM & Hb & Hn & _ & _
        & Hpost & _).
  destruct (process_fence_text self m (pre ++ M ++ post)) as (mid & -> & Hmid).
  rewrite splice_app by assumption.
  destruct (markers_context pre post Hb Hpost) as (c & Hc).
  replace (pre ++ nl :: mid ++ nl :: post)
    with (pre ++ (nl :: mid ++ [nl]) ++ post)
    by (simpl; now rewrite <- app_assoc).
  rewrite !Hc, markers_wrapped, HM.
  pose proof (markers_tildes n
    (spaces s1 ++ tg ++ spaces s2 ++ nl :: body ++ tildes n ++ spaces s3) Hn).
  assert (markers mid = 0) as ->; [|lia].
  destruct Hmid as [-> | ->]; [apply markers_quote_replacement | apply Hph].
Qed.

Lemma main_loop_returns fuel : forall self s e,
  (forall k, markers (get_placeholder lib k) = 0) ->
  markers s < fuel -> main_loop lib fuel self s e <> None.
Proof.
  induction fuel as [|fuel IH]; intros self s e Hph Hf; [lia|].
  simpl. destruct (search FENCED_BLOCK_RE s 0) as [m|] eqn:E; [|easy].
  pose proof (process_fence_decreases self m s Hph E) as Hd.
  destruct (process_fence lib self m s) as [s' self']. simpl in Hd.
  apply IH; auto. lia.
Qed.

Lemma main_loop_more_fuel fuel : forall fuel' self s e r,
  main_loop lib fuel self s e = Some r -> fuel <= fuel' ->
  main_loop lib fuel' self s e = Some r.
Proof.
  induction fuel as [|fuel IH]; intros fuel' self s e r H Hle; [easy|].
  destruct fuel' as [|fuel']; [lia|]. simpl in *.
  destruct (search FENCED_BLOCK_RE s 0) as [m|]; [|assumption].
  destruct (process_fence lib self m s) as [s' self'].
  apply IH; auto. lia.
Qed.

Lemma run_returns self lines :
  (forall k, markers (get_placeholder lib k) = 0) ->
  exists out, forall fuel,
    markers (join [nl] lines) < fuel -> run lib fuel self lines = Some out.
Proof.
  intros Hph. unfold run.
  set (s := join [nl] lines). set (self0 := check_codehilite self).
  destruct (main_loop lib (S (markers s)) self0 s 0) as [r|] eqn:E.
  - destruct r as [[s1 e1] self1].
    exists (let '(s2, self2) := fix_up lib self1 s1 e1 in
            (split [nl] s2, self2)).
    intros fuel Hf.
    rewrite (main_loop_more_fuel _ fuel _ _ _ _ E) by lia.
    now destruct (fix_up lib self1 s1 e1).
  - exfalso. revert E. apply main_loop_returns; auto.
Qed.

End Loop.

(** ** The first choice of every quantifier *)

Section FirstChoice.

Lemma take_while_all p s : forallb p (take_while p s) = true.
Proof.
  induction s as [|c s IH]; simpl; [easy|].
  destruct (p c) eqn:E; simpl; [now rewrite E|easy].
Qed.

Lemma take_drop_while p s : take_while p s ++ drop_while p s = s.
Proof.
  induction s as [|c s IH]; simpl; [easy|].
  destruct (p c); simpl; [now rewrite IH|easy].
Qed.

Lemma take_while_app_stop p l c rest :
  p c = false -> take_while p (l ++ c :: rest) = take_while p l.
Proof.
  intros Hc. induction l as [|d l IH]; simpl; [now rewrite Hc|].
  destruct (p d); [now rewrite IH|easy].
Qed.

Lemma drop_while_app_stop p l c rest :
  p c = false -> drop_while p (l ++ c :: rest) = drop_while p l ++ c :: rest.
Proof.
  intros Hc. induction l as [|d l IH]; simpl; [now rewrite Hc|].
  destruct (p d); [now rewrite IH|easy].
Qed.

Lemma drop_if_app_stop p l c rest :
  p c = false -> drop_if p (l ++ c :: rest) = drop_if p l ++ c :: rest.
Proof.
  intros Hc. destruct l as [|d l]; simpl; [now rewrite Hc|].
  now destruct (p d).
Qed.

Lemma take_while_spaces_eol x post :
  forallb is_space x = true -> at_eol post = true ->
  take_while is_space (x ++ post) = x /\ drop_while is_space (x ++ post) = post.
Proof.
  intros Hx Hp. induction x as [|c x IH]; simpl in *.
  - destruct post as [|d post]; [easy|]. simpl in Hp.
    apply eqb_true in Hp. subst d. easy.
  - apply andb_true_iff in Hx as [Hc Hx]. rewrite Hc.
    destruct (IH Hx) as [-> ->]. easy.
Qed.

Lemma many_first lo p b a gs k res :
  lo <= length (take_while p a) ->
  k (rev (take_while p a) ++ b) (drop_while p a) gs = Some res ->
  exec (Many lo p) b a gs k = Some res.
Proof.
  simpl. revert lo b. induction a as [|c a IH]; intros lo b Hlo Hk; simpl in *.
  - now replace lo with 0 by lia.
  - destruct (p c) eqn:E; simpl in *.
    + rewrite (IH (pred lo) (c :: b)); [easy|lia|].
      now rewrite <- rev_cons_app.
    + now replace lo with 0 by lia.
Qed.

Lemma maybe_first p b a gs k res :
  k (rev (take_if p a) ++ b) (drop_if p a) gs = Some res ->
  exec (Maybe p) b a gs k = Some res.
Proof.
  intros Hk. simpl. destruct a as [|c a]; simpl in *; [apply Hk|].
  destruct (p c); simpl in Hk; [now rewrite Hk | apply Hk].
Qed.

Lemma opt_first r b a gs k res :
  exec r b a gs k = Some res -> exec (Opt r) b a gs k = Some res.
Proof. intros H. simpl. now rewrite H. Qed.

Lemma lazy_here p k b a res : k b a = Some res -> lazy p k b a = Some res.
Proof. intros H. destruct a; simpl; now rewrite H. Qed.

(** A lazy repetition passes over a line at whose start the rest of the
    pattern fails, when that rest needs a newline behind it. *)
Lemma lazy_skip_line k l : forall b rest,
  (forall c b' a', Ascii.eqb c nl = false -> k (c :: b') a' = None) ->
  no_nl l = true -> k b (l ++ nl :: rest) = None ->
  lazy any k b (l ++ nl :: rest) = lazy any k (nl :: rev l ++ b) rest.
Proof.
  induction l as [|c l IH]; intros b rest Hk Hl H0; simpl in *.
  - now rewrite H0.
  - rewrite H0. apply andb_true_iff in Hl as [Hc Hl].
    apply negb_true_iff in Hc. rewrite IH; auto.
    now rewrite <- app_assoc.
Qed.

Lemma lazy_skip_lines k body : forall b rest,
  (forall c b' a', Ascii.eqb c nl = false -> k (c :: b') a' = None) ->
  Forall (fun l => no_nl l = true
                   /\ forall b' rest', k b' (l ++ nl :: rest') = None) body ->
  lazy any k b (unlines body ++ rest)
  = lazy any k (rev (unlines body) ++ b) rest.
Proof.
  induction body as [|l body IH]; intros b rest Hk H; [reflexivity|].
  inversion H as [|? ? [Hl H0] Hbody]; subst.
  simpl. rewrite <- !app_assoc. simpl. rewrite lazy_skip_line; auto.
  rewrite IH by assumption.
  rewrite rev_app_distr. simpl. now rewrite <- !app_assoc.
Qed.

(** The scan passes over a line at whose start the pattern fails, when
    the pattern needs the start of a line. *)
Lemma scan_skip_line r l : forall b rest,
  (forall c b' a', Ascii.eqb c nl = false ->
                   exec r (c :: b') a' no_groups finish = None) ->
  no_nl l = true -> exec r b (l ++ nl :: rest) no_groups finish = None ->
  scan r b (l ++ nl :: rest) = scan r (nl :: rev l ++ b) rest.
Proof.
  induction l as [|c l IH]; intros b rest Hk Hl H0; simpl in *.
  - now rewrite H0.
  - rewrite H0. apply andb_true_iff in Hl as [Hc Hl].
    apply negb_true_iff in Hc. rewrite IH; auto.
    now rewrite <- app_assoc.
Qed.

Lemma scan_last_line r l : forall b,
  (forall c b' a', Ascii.eqb c nl = false ->
                   exec r (c :: b') a' no_groups finish = None) ->
  no_nl l = true -> exec r b l no_groups finish = None ->
  scan r b l = None.
Proof.
  induction l as [|c l IH]; intros b Hk Hl H0; simpl in *.
  - now rewrite H0.
  - rewrite H0. apply andb_true_iff in Hl as [Hc Hl].
    apply negb_true_iff in Hc. apply IH; auto.
Qed.

End FirstChoice.

(** ** A block is found at its opening line *)

Section BlockAt.

Lemma seq_step r1 r2 b a gs k :
  exec (r1 ;; r2) b a gs k
  = exec r1 b a gs (fun b' a' gs' => exec r2 b' a' gs' k).
Proof. reflexivity. Qed.

Lemma grp_step g r b a gs k :
  exec (Grp g r) b a gs k
  = exec r b a gs (fun b' a' gs' => k b' a' (set_group g (captured a a') gs')).
Proof. reflexivity. Qed.

Lemma bol_step b a gs k : at_bol b = true -> exec Bol b a gs k = k b a gs.
Proof. intros H. simpl. now rewrite H. Qed.

Lemma eol_step b a gs k : at_eol a = true -> exec Eol b a gs k = k b a gs.
Proof. intros H. simpl. now rewrite H. Qed.

Lemma chr_step c b a gs k : exec (Chr c) b (c :: a) gs k = k (c :: b) a gs.
Proof. simpl. now rewrite Ascii.eqb_refl. Qed.

Lemma behind_step c b a gs k :
  exec (Behind c) (c :: b) a gs k = k (c :: b) a gs.
Proof. simpl. now rewrite Ascii.eqb_refl. Qed.

Lemma ref_step g s b a gs k :
  get_group g gs = Some s ->
  exec (Ref g) b (s ++ a) gs k = k (rev s ++ b) a gs.
Proof.
  intros H. simpl. now rewrite H, starts_with_refl, skipn_app_exact.
Qed.

Lemma captured_take_while p a : captured a (drop_while p a) = take_while p a.
Proof. rewrite <- (take_drop_while p a) at 1. apply captured_app. Qed.

Lemma text_eqb_nil x : text_eqb x [] = true -> x = [].
Proof. now destruct x. Qed.

Lemma no_nl_not_app x y r : no_nl x = true -> x <> y ++ nl :: r.
Proof.
  revert y. induction x as [|c x IH]; intros y Hx E.
  - now destruct y.
  - simpl in Hx. apply andb_true_iff in Hx as [Hc Hx].
    destruct y as [|d y]; simpl in E; injection E as -> E.
    + now rewrite Ascii.eqb_refl in Hc.
    + now apply IH in E.
Qed.

Lemma first_nl_unique x y r r' :
  no_nl x = true -> no_nl y = true -> x ++ nl :: r = y ++ nl :: r' ->
  x = y /\ r = r'.
Proof.
  revert y. induction x as [|c x IH]; intros y Hx Hy E.
  - destruct y as [|d y]; simpl in *.
    + now injection E as ->.
    + injection E as <- E. now rewrite Ascii.eqb_refl in Hy.
  - simpl in Hx. apply andb_true_iff in Hx as [Hc Hx].
    destruct y as [|d y]; simpl in *; injection E as -> E.
    + now rewrite Ascii.eqb_refl in Hc.
    + apply andb_true_iff in Hy as [_ Hy].
      destruct (IH y Hx Hy E) as [-> ->]. easy.
Qed.

Lemma no_nl_app x y : no_nl (x ++ y) = no_nl x && no_nl y.
Proof. apply forallb_app. Qed.

Lemma no_nl_tildes n : no_nl (tildes n) = true.
Proof. induction n; simpl; auto. Qed.

Lemma no_nl_spaces x : forallb is_space x = true -> no_nl x = true.
Proof.
  induction x as [|c x IH]; simpl; [easy|]. intros H.
  apply andb_true_iff in H as [Hc Hx]. apply eqb_true in Hc. subst c.
  now rewrite IH.
Qed.

Lemma skipn_tildes n s : skipn n (tildes n ++ s) = s.
Proof. induction n; simpl; auto. Qed.

Lemma length_tildes n : length (tildes n) = n.
Proof. apply repeat_length. Qed.

Lemma closer_shape n c :
  closer n c = true ->
  exists sp, c = tildes n ++ sp /\ forallb is_space sp = true.
Proof.
  unfold closer. intros H. apply andb_true_iff in H as [H1 H2].
  apply starts_with_app in H1. rewrite length_tildes in H1.
  now exists (skipn n c).
Qed.

Lemma closer_intro n sp : forallb is_space sp = true -> closer n (tildes n ++ sp) = true.
Proof.
  intros H. unfold closer. now rewrite starts_with_refl, skipn_tildes, H.
Qed.

Lemma closer_from_split n l rest sp a1 :
  no_nl l = true -> l ++ nl :: rest = tildes n ++ sp ++ a1 ->
  forallb is_space sp = true -> at_eol a1 = true -> closer n l = true.
Proof.
  intros Hl E Hsp Ha.
  assert (Hx : no_nl (tildes n ++ sp) = true)
    by now rewrite no_nl_app, no_nl_tildes, no_nl_spaces.
  apply at_eol_cases in Ha as [-> | (a1' & ->)].
  - rewrite app_nil_r in E. symmetry in E. now apply no_nl_not_app in E.
  - rewrite app_assoc in E. apply first_nl_unique in E as [-> _]; auto.
    now apply closer_intro.
Qed.

(** The end of [FENCED_BLOCK_RE], from the look-behind on. *)
Lemma closing_needs_nl c b a gs k :
  Ascii.eqb c nl = false ->
  exec (Behind nl ;; Ref fence ;; Many 0 is_space ;; Eol) (c :: b) a gs k
  = None.
Proof. intros H. simpl. now rewrite H. Qed.

Lemma closing_fails n l b rest gs k :
  g_fence gs = Some (tildes n) -> no_nl l = true -> closer n l = false ->
  exec (Behind nl ;; Ref fence ;; Many 0 is_space ;; Eol)
       b (l ++ nl :: rest) gs k = None.
Proof.
  intros Hg Hl Hc.
  destruct (exec _ b (l ++ nl :: rest) gs k) as [res|] eqn:E; [|easy].
  exfalso. apply exec_sound in E as (x & a1 & gs' & Ha & D & _).
  simpl in D.
  destruct D as (x1 & x2 & g1 & -> & (-> & _ & ->) &
                 f & x3 & g2 & -> & (Hf & ->) &
                 sp & x4 & g3 & -> & (Hsp & _ & ->) & (-> & Heol & ->)).
  simpl in *. rewrite Hg in Hf. injection Hf as <-.
  rewrite app_nil_r, <- app_assoc in Ha.
  now rewrite (closer_from_split n l rest sp a1) in Hc.
Qed.

Lemma closing_first n sp post b gs k res :
  g_fence gs = Some (tildes n) -> forallb is_space sp = true ->
  at_eol post = true -> hd nl b = nl -> b <> [] ->
  k (rev sp ++ rev (tildes n) ++ b) post gs = Some res ->
  exec (Behind nl ;; Ref fence ;; Many 0 is_space ;; Eol)
       b (tildes n ++ sp ++ post) gs k = Some res.
Proof.
  intros Hg Hsp Hpost Hhd Hne Hk.
  destruct b as [|c b]; [easy|]. simpl in Hhd. subst c.
  rewrite seq_step, behind_step, seq_step, (ref_step fence (tildes n)) by easy.
  rewrite seq_step. destruct (take_while_spaces_eol sp post Hsp Hpost) as [Ht Hd].
  apply many_first; [lia|]. rewrite Ht, Hd. now rewrite eol_step.
Qed.

Lemma opener_inv o n L :
  opener o = Some (n, L) ->
  n = tilde_run o /\ 3 <= n /\ L = lang_of (after_fence o)
  /\ drop_while is_space (after_tag (after_fence o)) = [].
Proof.
  unfold opener. destruct (3 <=? tilde_run o) eqn:E1; [|easy].
  destruct (text_eqb _ []) eqn:E2; [|easy]. simpl.
  intros H. injection H as <- <-. apply Nat.leb_le in E1.
  apply text_eqb_nil in E2. easy.
Qed.

Lemma unlines_head_nl body b :
  hd nl (rev (unlines body) ++ nl :: b) = nl
  /\ rev (unlines body) ++ nl :: b <> [].
Proof.
  destruct body as [|l body _] using rev_ind; [easy|].
  unfold unlines. rewrite flat_map_app. simpl.
  rewrite app_nil_r, !rev_app_distr. simpl. easy.
Qed.

Lemma block_at b o body c post n L :
  at_bol b = true -> opener o = Some (n, L) ->
  Forall (fun l => no_nl l = true /\ closer n l = false) body ->
  closer n c = true -> at_eol post = true ->
  exists b1 tg,
    exec FENCED_BLOCK_RE b (o ++ nl :: unlines body ++ c ++ post)
      no_groups finish
    = Some (b1, post,
            mkGroups (Some (tildes n)) (Some tg) (Some L)
                     (Some (unlines body))).
Proof.
  intros Hb Ho Hbody Hc Hpost.
  apply opener_inv in Ho as (Hn & Hn3 & HL & Hrest).
  apply closer_shape in Hc as (sp & -> & Hsp).
  set (B := unlines body ++ (tildes n ++ sp) ++ post).
  do 2 eexists. unfold FENCED_BLOCK_RE, fence_group.
  rewrite seq_step, grp_step, seq_step, bol_step by assumption.
  apply many_first.
  { rewrite take_while_app_stop by reflexivity. unfold tilde_run in Hn. lia. }
  rewrite captured_take_while.
  rewrite take_while_app_stop, drop_while_app_stop by reflexivity.
  rewrite seq_step. apply many_first; [lia|].
  rewrite drop_while_app_stop by reflexivity.
  fold (after_fence o).
  rewrite seq_step. apply opt_first. unfold tag_group.
  rewrite grp_step, seq_step. apply maybe_first.
  rewrite drop_if_app_stop by reflexivity.
  rewrite seq_step. apply maybe_first.
  rewrite drop_if_app_stop by reflexivity.
  rewrite seq_step, grp_step. apply many_first; [lia|].
  rewrite captured_take_while.
  rewrite take_while_app_stop, drop_while_app_stop by reflexivity.
  apply maybe_first. rewrite drop_if_app_stop by reflexivity.
  fold (lang_of (after_fence o)). fold (after_tag (after_fence o)).
  rewrite <- HL.
  rewrite seq_step. apply many_first; [lia|].
  rewrite drop_while_app_stop, Hrest by reflexivity.
  rewrite app_nil_l, seq_step, chr_step, seq_step, grp_step.
  assert (HT : take_while is_tilde o = tildes n).
  { rewrite Hn. apply forallb_tildes, take_while_all. }
  rewrite HT.
  change (exec (Few any) ?b ?a ?gs ?k) with (lazy any (fun b' a' => k b' a' gs) b a).
  cbv beta. subst B.
  rewrite lazy_skip_lines.
  - apply lazy_here. rewrite captured_app, <- app_assoc.
    match goal with
    | |- exec _ (rev (unlines body) ++ nl :: ?b0) _ _ _ = _ =>
        destruct (unlines_head_nl body b0) as [Hhd Hne]
    end.
    apply closing_first; auto. reflexivity.
  - intros c b' a' Hc. now apply closing_needs_nl.
  - eapply Forall_impl; [|exact Hbody]. intros l [Hl Hcl]. split; [easy|].
    intros b' rest'. now apply closing_fails with (n := n).
Qed.

End BlockAt.

(** ** Searching a text made of lines *)

Section Scanning.

(** Both patterns begin with the fence group. *)
Lemma den_fence_start r b x a1 gs gs' :
  den (fence_group ;; r) b x a1 gs gs' ->
  at_bol b = true /\ exists n X, 3 <= n /\ x = tildes n ++ X.
Proof.
  unfold fence_group. simpl.
  intros (x1 & x2 & g1 & -> & (g0 & (y1 & y2 & g2 & -> & (-> & Hb & ->) &
            Ht & Hn & ->) & ->) & _).
  split; [exact Hb|]. exists (length y2), x2. split; [exact Hn|].
  simpl. now rewrite <- forallb_tildes.
Qed.

Lemma fence_needs_bol r c b a :
  Ascii.eqb c nl = false ->
  exec (fence_group ;; r) (c :: b) a no_groups finish = None.
Proof. intros H. unfold fence_group. simpl. now rewrite H. Qed.

Lemma tilde_run_prefix l rest n X :
  l ++ nl :: rest = tildes n ++ X -> n <= tilde_run l.
Proof.
  intros E. unfold tilde_run.
  rewrite <- (take_while_app_stop is_tilde l nl rest) by reflexivity.
  rewrite E. apply take_while_tildes.
Qed.

Lemma fence_fails_plain r l b rest :
  is_marker l = false ->
  exec (fence_group ;; r) b (l ++ nl :: rest) no_groups finish = None.
Proof.
  intros Hl.
  destruct (exec _ b (l ++ nl :: rest) no_groups finish) as [res|] eqn:E;
    [|easy].
  exfalso. apply exec_sound in E as (x & a1 & gs' & Ha & D & _).
  apply den_fence_start in D as (_ & n & X & Hn & ->).
  rewrite <- app_assoc in Ha. apply tilde_run_prefix in Ha.
  unfold is_marker in Hl. apply Nat.leb_gt in Hl. lia.
Qed.

Lemma plain_line_inv l :
  plain_line l = true -> no_nl l = true /\ is_marker l = false.
Proof.
  unfold plain_line. intros H. apply andb_true_iff in H as [H1 H2].
  now apply negb_true_iff in H2.
Qed.

Lemma scan_skip_plain r P : forall b rest,
  Forall (fun l => plain_line l = true) P ->
  scan (fence_group ;; r) b (unlines P ++ rest)
  = scan (fence_group ;; r) (rev (unlines P) ++ b) rest.
Proof.
  induction P as [|l P IH]; intros b rest H; [reflexivity|].
  inversion H as [|? ? Hl HP]; subst. apply plain_line_inv in Hl as [Hl Hm].
  simpl. rewrite <- !app_assoc. simpl. rewrite scan_skip_line; auto.
  - rewrite IH by assumption.
    rewrite rev_app_distr. simpl. now rewrite <- !app_assoc.
  - intros c b' a' Hc. now apply fence_needs_bol.
  - now apply fence_fails_plain.
Qed.

Lemma scan_here r b a b1 a1 gs :
  exec r b a no_groups finish = Some (b1, a1, gs) ->
  scan r b a = Some (mkMatch (length b) (length b1) gs).
Proof. intros H. destruct a; simpl; now rewrite H. Qed.

Lemma exec_result_before r b M post gs b1 gs1 :
  exec r b (M ++ post) gs finish = Some (b1, post, gs1) -> b1 = rev M ++ b.
Proof.
  intros H. apply exec_sound in H as (x & a1 & gs' & Ha & _ & K).
  unfold finish in K. injection K as <- <- <-.
  apply app_inv_tail in Ha. now subst x.
Qed.

Lemma at_bol_unlines P : at_bol (rev (unlines P)) = true.
Proof.
  destruct P as [|l P _] using rev_ind; [reflexivity|].
  unfold unlines. rewrite flat_map_app. simpl.
  rewrite app_nil_r, !rev_app_distr. reflexivity.
Qed.

Lemma at_eol_tail_text R : at_eol (tail_text R) = true.
Proof. destruct R; reflexivity. Qed.

(** The search finds the first block of a document: its match begins
    after the plain lines before the block and ends with the closing
    line. *)
Lemma search_block_found P o body c R n L :
  Forall (fun l => plain_line l = true) P ->
  opener o = Some (n, L) ->
  Forall (fun l => no_nl l = true /\ closer n l = false) body ->
  closer n c = true ->
  exists tg,
    search FENCED_BLOCK_RE
      (unlines P ++ (o ++ nl :: unlines body ++ c) ++ tail_text R) 0
    = Some (mkMatch (length (unlines P))
              (length (unlines P) + length (o ++ nl :: unlines body ++ c))
              (mkGroups (Some (tildes n)) (Some tg) (Some L)
                        (Some (unlines body)))).
Proof.
  intros HP Ho Hbody Hc. unfold search. simpl firstn. simpl skipn. simpl rev.
  unfold FENCED_BLOCK_RE. rewrite scan_skip_plain by assumption.
  fold FENCED_BLOCK_RE. rewrite app_nil_r.
  destruct (block_at (rev (unlines P)) o body c (tail_text R) n L)
    as (b1 & tg & E); auto using at_bol_unlines, at_eol_tail_text.
  exists tg.
  replace ((o ++ nl :: unlines body ++ c) ++ tail_text R)
    with (o ++ nl :: unlines body ++ c ++ tail_text R)
    by (rewrite <- !app_assoc; simpl; now rewrite <- !app_assoc).
  rewrite (scan_here _ _ _ _ _ _ E).
  replace (o ++ nl :: unlines body ++ c ++ tail_text R)
    with ((o ++ nl :: unlines body ++ c) ++ tail_text R) in E
    by (rewrite <- !app_assoc; simpl; now rewrite <- !app_assoc).
  apply exec_result_before in E. subst b1.
  now rewrite length_app, !length_rev, Nat.add_comm.
Qed.

End Scanning.

(** ** Texts as joined lines *)

Section Joined.

Lemma join_cons_tail l R : join [nl] (l :: R) = l ++ tail_text R.
Proof.
  revert l. induction R as [|l' R IH]; intros l.
  - simpl. now rewrite app_nil_r.
  - rewrite join_cons by easy. rewrite IH. reflexivity.
Qed.

Lemma join_decompose P l R :
  join [nl] (P ++ l :: R) = unlines P ++ l ++ tail_text R.
Proof.
  induction P as [|p P IH]; [apply join_cons_tail|].
  simpl app. rewrite join_cons by now destruct P.
  rewrite IH. simpl. now rewrite <- !app_assoc.
Qed.

Lemma tail_text_app R1 R2 : tail_text (R1 ++ R2) = tail_text R1 ++ tail_text R2.
Proof. apply flat_map_app. Qed.

Lemma tail_text_body body c :
  tail_text (body ++ [c]) = nl :: unlines body ++ c.
Proof.
  induction body as [|l body IH]; simpl.
  - now rewrite app_nil_r.
  - rewrite IH. now rewrite <- !app_assoc.
Qed.

Lemma tail_text_split mid : tail_text (split [nl] mid) = nl :: mid.
Proof.
  pose proof (split_nl_nonempty mid) as Hne.
  pose proof (join_split_nl mid) as Hj.
  destruct (split [nl] mid) as [|l ls]; [easy|].
  rewrite join_cons_tail in Hj. simpl. now rewrite Hj.
Qed.

Lemma join_block P o body c R :
  join [nl] (P ++ (o :: body ++ [c]) ++ R)
  = unlines P ++ (o ++ nl :: unlines body ++ c) ++ tail_text R.
Proof.
  simpl app. rewrite join_decompose, tail_text_app, tail_text_body.
  rewrite <- !app_assoc. simpl. now rewrite <- !app_assoc.
Qed.

Lemma join_replaced P mid R :
  unlines P ++ nl :: mid ++ nl :: tail_text R
  = join [nl] ((P ++ [] :: split [nl] mid ++ [[]]) ++ R).
Proof.
  rewrite <- app_assoc. simpl app. rewrite join_decompose.
  rewrite !tail_text_app, tail_text_split. simpl.
  now rewrite <- !app_assoc.
Qed.

Lemma count_markers_zero ls :
  count_markers ls = 0 -> Forall (fun l => is_marker l = false) ls.
Proof.
  unfold count_markers. induction ls as [|l ls IH]; simpl; [constructor|].
  destruct (is_marker l) eqn:E; simpl; [easy|]. intros H.
  constructor; auto.
Qed.

Lemma plain_lines_of mid :
  markers mid = 0 -> Forall (fun l => plain_line l = true) (split [nl] mid).
Proof.
  intros H. apply count_markers_zero in H.
  pose proof (split_nl_pieces mid) as Hp.
  apply Forall_forall. intros l Hl. unfold plain_line.
  rewrite Forall_forall in H, Hp. now rewrite (Hp l Hl), (H l Hl).
Qed.

Lemma markers_plain_line l : plain_line l = true -> markers l = 0.
Proof.
  intros H. apply plain_line_inv in H as [Hn Hm]. unfold markers.
  rewrite split_nl_line by assumption. unfold count_markers. simpl.
  now rewrite Hm.
Qed.

Lemma markers_plain_lines Ls :
  Forall (fun l => plain_line l = true) Ls -> markers (join [nl] Ls) = 0.
Proof.
  intros H. destruct Ls as [|l Ls]; [reflexivity|]. unfold markers.
  rewrite split_join_nl; [|easy|].
  - unfold count_markers. induction H as [|x Xs Hx _ IH]; [reflexivity|].
    apply plain_line_inv in Hx as [_ Hx]. simpl. now rewrite Hx.
  - eapply Forall_impl; [|exact H]. intros x Hx.
    now apply plain_line_inv in Hx.
Qed.

Lemma markers_fence_start pre n X :
  at_bol (rev pre) = true -> 3 <= n -> 1 <= markers (pre ++ tildes n ++ X).
Proof.
  intros Hb Hn. apply at_bol_rev in Hb as [-> | (pre' & ->)].
  - now apply markers_tildes.
  - rewrite <- app_assoc. simpl. unfold markers.
    rewrite split_nl_app, count_markers_app.
    pose proof (markers_tildes n X Hn). unfold markers in *. lia.
Qed.

(** Neither pattern matches anywhere in a text without fence marker. *)
Lemma search_none r s pos :
  markers s = 0 -> search (fence_group ;; r) s pos = None.
Proof.
  intros H. destruct (search _ s pos) as [m|] eqn:E; [|easy]. exfalso.
  apply search_sound in E as (pre & M & post & -> & _ & _ & _ & D).
  apply den_fence_start in D as (Hb & n & X & Hn & ->).
  pose proof (markers_fence_start pre n (X ++ post) Hb Hn) as Hm.
  rewrite <- app_assoc in H. lia.
Qed.

End Joined.

(** ** The loop over a document of plain lines and blocks *)

Section Documents.
Variable lib : Library.

Lemma process_fence_found self m s L body :
  group m lang = Some L -> group m code = Some body ->
  process_fence lib self m s =
  if quote_tag L
  then (splice m (quote_replacement body) s, self)
  else (splice m (get_placeholder lib (html_counter (htmlStash (markdown self)))) s,
        with_stash self
          (mkStash (rawHtmlBlocks (htmlStash (markdown self))
                      ++ [(markup lib (codehilite_conf self) L body, true)])
                   (S (html_counter (htmlStash (markdown self)))))).
Proof.
  intros HL Hb. unfold process_fence, quote_tag, markup, store.
  rewrite HL, Hb. simpl text_of.
  destruct (truthy (Some L) && is_quote L); [reflexivity|].
  now destruct (codehilite_conf self).
Qed.

Lemma with_stash_same self : with_stash self (htmlStash (markdown self)) = self.
Proof. now destruct self as [[exts st] chk conf]. Qed.

Lemma stash_after_nil conf st : stash_after lib conf [] st = st.
Proof.
  unfold stash_after. simpl. rewrite app_nil_r, Nat.add_0_r. now destruct st.
Qed.

Lemma wf_fenced o body c :
  wf_item (Fenced o body c) = true ->
  exists n,
    opener o = Some (n, block_tag o)
    /\ Forall (fun l => no_nl l = true /\ closer n l = false) body
    /\ closer n c = true.
Proof.
  unfold wf_item, block_tag. destruct (opener o) as [[n L]|]; [|easy].
  intros H. apply andb_true_iff in H as [Hb Hc]. exists n.
  repeat split; auto. apply Forall_forall. intros l Hl.
  rewrite forallb_forall in Hb. specialize (Hb l Hl).
  apply andb_true_iff in Hb as [H1 H2]. now apply negb_true_iff in H2.
Qed.

Lemma main_loop_doc :
  (forall k, plain_line (get_placeholder lib k) = true) ->
  forall doc P self e fuel,
    Forall (fun l => plain_line l = true) P ->
    wf_doc doc = true -> blocks doc < fuel ->
    exists e',
      main_loop lib fuel self (join [nl] (P ++ doc_lines doc)) e
      = Some (join [nl]
                (P ++ expected_lines lib
                        (html_counter (htmlStash (markdown self))) doc),
              e',
              with_stash self
                (stash_after lib (codehilite_conf self) doc
                   (htmlStash (markdown self)))).
Proof.
  intros Hph. induction doc as [|it doc IH]; intros P self e fuel HP Hwf Hf.
  - destruct fuel as [|fuel]; [simpl in Hf; lia|].
    exists e. simpl. rewrite app_nil_r.
    unfold FENCED_BLOCK_RE. rewrite search_none
      by now apply markers_plain_lines.
    now rewrite stash_after_nil, with_stash_same.
  - simpl in Hwf. apply andb_true_iff in Hwf as [Hit Hdoc].
    destruct it as [l | o body c].
    + change (doc_lines (Plain l :: doc)) with (l :: doc_lines doc).
      simpl expected_lines.
      replace (P ++ l :: doc_lines doc) with ((P ++ [l]) ++ doc_lines doc)
        by now rewrite <- app_assoc.
      replace (P ++ l :: expected_lines lib
                 (html_counter (htmlStash (markdown self))) doc)
        with ((P ++ [l]) ++ expected_lines lib
                 (html_counter (htmlStash (markdown self))) doc)
        by now rewrite <- app_assoc.
      apply (IH (P ++ [l]) self e fuel); auto.
      apply Forall_app. split; [assumption | now constructor].
    + apply wf_fenced in Hit as (n & Ho & Hbody & Hc).
      destruct fuel as [|fuel]; [simpl in Hf; lia|].
      assert (Hf' : blocks doc < fuel) by (unfold blocks in *; simpl in Hf; lia).
      change (doc_lines (Fenced o body c :: doc))
        with ((o :: body ++ [c]) ++ doc_lines doc).
      rewrite join_block.
      destruct (search_block_found P o body c (doc_lines doc) n (block_tag o)
                  HP Ho Hbody Hc) as (tg & Hs).
      simpl main_loop. rewrite Hs.
      rewrite (process_fence_found self _ _ (block_tag o) (unlines body))
        by reflexivity.
      simpl expected_lines. unfold stash_after. simpl expected_stored.
      destruct (quote_tag (block_tag o)) eqn:Hq.
      * rewrite splice_app by reflexivity. rewrite join_replaced.
        destruct (IH (P ++ [] :: split [nl] (quote_replacement (unlines body))
                        ++ [[]]) self
                    (length (unlines P) + length (o ++ nl :: unlines body ++ c))
                    fuel) as (e' & E); auto.
        { apply Forall_app. split; [assumption|]. constructor; [reflexivity|].
          apply Forall_app. split; [|now constructor].
          apply plain_lines_of, markers_quote_replacement. }
        exists e'. cbv zeta. cbn [m_end]. rewrite E. unfold stash_after.
        rewrite <- !app_assoc. simpl. now rewrite <- !app_assoc.
      * rewrite splice_app by reflexivity. rewrite join_replaced.
        set (k := html_counter (htmlStash (markdown self))).
        set (raw := rawHtmlBlocks (htmlStash (markdown self))).
        set (x := (markup lib (codehilite_conf self) (block_tag o)
                     (unlines body), true)).
        destruct (IH (P ++ [] :: split [nl] (get_placeholder lib k) ++ [[]])
                    (with_stash self (mkStash (raw ++ [x]) (S k)))
                    (length (unlines P) + length (o ++ nl :: unlines body ++ c))
                    fuel) as (e' & E); auto.
        { apply Forall_app. split; [assumption|]. constructor; [reflexivity|].
          apply Forall_app. split; [|now constructor].
          apply plain_lines_of, markers_plain_line, Hph. }
        exists e'. cbv zeta. cbn [m_end]. rewrite E. unfold stash_after. simpl.
        specialize (Hph k). apply plain_line_inv in Hph as [Hnl _].
        rewrite (split_nl_line _ Hnl).
        rewrite <- !app_assoc. simpl. now rewrite Nat.add_succ_r.
Qed.

End Documents.

(** ** The expected output *)

Section ExpectedFacts.
Variable lib : Library.

Lemma expected_lines_plain :
  (forall k, plain_line (get_placeholder lib k) = true) ->
  forall doc k, wf_doc doc = true ->
    Forall (fun l => plain_line l = true) (expected_lines lib k doc).
Proof.
  intros Hph. induction doc as [|it doc IH]; intros k Hwf; [constructor|].
  simpl in Hwf. apply andb_true_iff in Hwf as [Hit Hdoc].
  destruct it as [l | o body c]; simpl.
  - constructor; auto.
  - destruct (quote_tag (block_tag o)).
    + constructor; [reflexivity|]. apply Forall_app. split.
      * apply plain_lines_of, markers_quote_replacement.
      * constructor; [reflexivity | auto].
    + repeat constructor; auto.
Qed.

Lemma expected_lines_nonempty doc k :
  doc <> [] -> expected_lines lib k doc <> [].
Proof.
  destruct doc as [|[l | o body c] doc]; [easy| |]; intros _; simpl; [easy|].
  now destruct (quote_tag (block_tag o)).
Qed.

Lemma stored_count conf doc :
  length (expected_stored lib conf doc) + quote_blocks doc = blocks doc.
Proof.
  unfold quote_blocks, blocks.
  induction doc as [|[l | o body c] doc IH]; simpl; auto.
  destruct (quote_tag (block_tag o)); simpl; lia.
Qed.

Lemma run_doc self doc fuel :
  (forall k, plain_line (get_placeholder lib k) = true) ->
  wf_doc doc = true -> doc <> [] -> blocks doc < fuel ->
  run lib fuel self (doc_lines doc)
  = Some (expected_lines lib (html_counter (htmlStash (markdown self))) doc,
          with_stash (check_codehilite self)
            (stash_after lib (codehilite_conf (check_codehilite self)) doc
               (htmlStash (markdown self)))).
Proof.
  intros Hph Hwf Hne Hf. unfold run.
  assert (Hmd : markdown (check_codehilite self) = markdown self)
    by (unfold check_codehilite; now destruct (checked_for_codehilite self)).
  destruct (main_loop_doc lib Hph doc [] (check_codehilite self) 0 fuel)
    as (e' & E); auto.
  simpl app in E. rewrite E, Hmd. unfold fix_up, FENCE_RE.
  pose proof (expected_lines_plain Hph doc
                (html_counter (htmlStash (markdown self))) Hwf) as Hpl.
  rewrite search_none by now apply markers_plain_lines.
  rewrite split_join_nl; auto.
  - now apply expected_lines_nonempty.
  - eapply Forall_impl; [|exact Hpl]. intros l Hl.
    now apply plain_line_inv in Hl.
Qed.

End ExpectedFacts.

Section PythonMarkdown.

Lemma no_nl_uint u :
  no_nl (str (DecimalString.NilEmpty.string_of_uint u)) = true.
Proof. induction u; simpl; auto. Qed.

Lemma placeholder_plain k : plain_line (HTML_PLACEHOLDER k) = true.
Proof.
  unfold plain_line, HTML_PLACEHOLDER.
  rewrite !no_nl_app, no_nl_uint. reflexivity.
Qed.

End PythonMarkdown.

(** ** The pattern for a dangling fence *)

Section Fence.

Local Opaque tag_group.

Lemma den_fence_re b x a1 gs' :
  den FENCE_RE b x a1 no_groups gs' ->
  exists n s1 tg L,
    x = tildes n ++ spaces s1 ++ tg
    /\ at_bol b = true /\ 3 <= n /\ tag_parse tg L /\ at_eol a1 = true
    /\ gs' = mkGroups (Some (tildes n)) (Some tg) (Some L) None.
Proof.
  unfold FENCE_RE, fence_group. simpl.
  intros (x1 & x2 & g1 & -> & (g0 & (y1 & y2 & g2 & -> & (-> & Hbol & ->) &
            Ht & Hn & ->) & ->) &
          s1 & x3 & g3 & -> & (Hs1 & _ & ->) &
          tg & x4 & g4 & -> & Htag & (-> & Heol & ->)).
  simpl in *. apply forallb_tildes in Ht. apply forallb_spaces in Hs1.
  apply den_tag_group in Htag as (L & HL & ->).
  exists (length y2), (length s1), tg, L. rewrite <- Ht, <- Hs1, app_nil_r.
  repeat split; auto.
Qed.

(** A text of the shape of a block is matched by [FENCED_BLOCK_RE]. *)
Lemma den_block_intro b n s1 tg L s2 body s3 a1 :
  at_bol b = true -> 3 <= n -> tag_parse tg L ->
  (body = [] \/ exists body', body = body' ++ [nl]) -> at_eol a1 = true ->
  den FENCED_BLOCK_RE b
    (tildes n ++ spaces s1 ++ tg ++ spaces s2 ++ nl :: body
       ++ tildes n ++ spaces s3)
    a1 no_groups
    (mkGroups (Some (tildes n)) (Some tg) (Some L) (Some body)).
Proof.
  intros Hb Hn Htag Hbody Heol.
  assert (Hsp : forall k, forallb is_space (spaces k) = true)
    by (induction k; simpl; auto).
  assert (Hti : forallb is_tilde (tildes n) = true)
    by (clear; induction n; simpl; auto).
  unfold FENCED_BLOCK_RE, fence_group. simpl.
  exists (tildes n), (spaces s1 ++ tg ++ spaces s2 ++ nl :: body
                          ++ tildes n ++ spaces s3),
         (mkGroups (Some (tildes n)) None None None).
  split; [reflexivity|]. split.
  { exists no_groups. split; [|reflexivity].
    exists [], (tildes n), no_groups. rewrite length_tildes. auto 10. }
  exists (spaces s1), (tg ++ spaces s2 ++ nl :: body ++ tildes n ++ spaces s3).
  eexists. split; [reflexivity|]. split; [repeat split; auto; lia|].
  exists tg, (spaces s2 ++ nl :: body ++ tildes n ++ spaces s3).
  exists (mkGroups (Some (tildes n)) (Some tg) (Some L) None).
  split; [reflexivity|]. split.
  { right. apply den_tag_group. exists L. split; [assumption | reflexivity]. }
  exists (spaces s2), (nl :: body ++ tildes n ++ spaces s3).
  eexists. split; [reflexivity|]. split; [repeat split; auto; lia|].
  exists [nl], (body ++ tildes n ++ spaces s3).
  eexists. split; [reflexivity|]. split; [split; reflexivity|].
  exists body, (tildes n ++ spaces s3).
  exists (mkGroups (Some (tildes n)) (Some tg) (Some L) (Some body)).
  split; [reflexivity|]. split.
  { exists (mkGroups (Some (tildes n)) (Some tg) (Some L) None).
    split; [|reflexivity]. split; [|reflexivity].
    clear. induction body; simpl; auto. }
  exists [], (tildes n ++ spaces s3). eexists.
  split; [reflexivity|]. split.
  { split; [reflexivity|]. split; [|reflexivity].
    destruct Hbody as [-> | (body' & ->)].
    - simpl. eauto.
    - rewrite rev_app_distr. simpl. eauto. }
  exists (tildes n), (spaces s3). eexists.
  split; [reflexivity|]. split; [split; reflexivity|].
  exists (spaces s3), []. eexists.
  split; [now rewrite app_nil_r|]. split; [repeat split; auto; lia|].
  repeat split; auto.
Qed.

Local Transparent tag_group.

End Fence.

(** ** The repair of a dangling fence *)

Section Repair.

Lemma text_eqb_eq x y : text_eqb x y = true -> x = y.
Proof.
  unfold text_eqb. intros H. apply andb_true_iff in H as [Hl Hs].
  apply Nat.eqb_eq in Hl. apply starts_with_app in Hs.
  assert (E : skipn (length x) y = []) by (rewrite Hl; apply skipn_all).
  rewrite E, app_nil_r in Hs. now symmetry.
Qed.

Lemma last2_split s :
  text_eqb (last2 s) [nl; nl] = true -> s = but_last2 s ++ [nl; nl].
Proof.
  intros H. apply text_eqb_eq in H. rewrite <- H.
  unfold but_last2, last2. now rewrite firstn_skipn.
Qed.

Lemma app_suffix (x : text) : forall y T z,
  x ++ y = T ++ z -> length z <= length y ->
  exists t, y = t ++ z /\ T = x ++ t.
Proof.
  induction x as [|c x IH]; intros y T z E Hl; simpl in *.
  - now exists T.
  - destruct T as [|d T]; simpl in *.
    + subst z. simpl in Hl. rewrite length_app in Hl. lia.
    + injection E as <- E. destruct (IH y T z E Hl) as (t & -> & ->).
      now exists t.
Qed.

Lemma one_or_none_no_nl p s :
  p nl = false -> one_or_none p s -> no_nl s = true.
Proof.
  intros Hp [-> | (c & -> & Hc)]; [reflexivity|]. simpl.
  destruct (Ascii.eqb c nl) eqn:E; [|reflexivity].
  apply eqb_true in E. subst c. now rewrite Hp in Hc.
Qed.

Lemma forallb_no_nl p s :
  p nl = false -> forallb p s = true -> no_nl s = true.
Proof.
  intros Hp. induction s as [|c s IH]; simpl; [easy|]. intros H.
  apply andb_true_iff in H as [Hc Hs]. rewrite IH by assumption.
  destruct (Ascii.eqb c nl) eqn:E; [|reflexivity].
  apply eqb_true in E. subst c. now rewrite Hp in Hc.
Qed.

Lemma tag_parse_no_nl tg L : tag_parse tg L -> no_nl tg = true.
Proof.
  intros (ob & od & cb & -> & H1 & H2 & H3 & H4).
  rewrite !no_nl_app.
  rewrite (one_or_none_no_nl is_lbrace ob), (one_or_none_no_nl is_dot od),
    (forallb_no_nl is_langchar L), (one_or_none_no_nl is_rbrace cb);
    auto.
Qed.

Lemma no_nl_last M m : no_nl (M ++ [m]) = true -> m <> nl.
Proof.
  rewrite no_nl_app. simpl. intros H E. subst m.
  rewrite Ascii.eqb_refl in H. simpl in H. now rewrite andb_false_r in H.
Qed.

Lemma nonempty_last (M : text) : M <> [] -> exists M' m, M = M' ++ [m].
Proof.
  intros H. destruct (exists_last H) as (M' & m & ->). now exists M', m.
Qed.

(** When the text ends with two newlines and a dangling fence is found,
    the text with the closing fence put before the two newlines holds a
    complete block. *)
Lemma repaired_text_matches s e f :
  search FENCE_RE s e = Some f ->
  text_eqb (last2 s) [nl; nl] = true ->
  exists n,
    3 <= n /\ group f fence = Some (tildes n)
    /\ search FENCED_BLOCK_RE
         (but_last2 s ++ [nl] ++ tildes n ++ [nl; nl]) 0 <> None.
Proof.
  intros Hf Hl2. pose proof (last2_split s Hl2) as Hs.
  set (T := but_last2 s) in *.
  apply search_sound in Hf as (pre & M & post & Hspl & _ & _ & _ & D).
  apply den_fence_re in D as (n & s1 & tg & L & HM & Hb & Hn & Htag & Heol & Hg).
  exists n. split; [exact Hn|]. split; [unfold group; now rewrite Hg|].
  assert (HnlM : no_nl M = true).
  { rewrite HM, !no_nl_app, no_nl_tildes, (tag_parse_no_nl tg L Htag).
    rewrite no_nl_spaces; [reflexivity|]. clear. induction s1; simpl; auto. }
  assert (HMne : M <> []).
  { rewrite HM. destruct n; [lia|]. discriminate. }
  destruct (nonempty_last M HMne) as (M' & m & HM').
  assert (Hm : m <> nl) by (apply (no_nl_last M'); now rewrite <- HM').
  assert (Hpost : 2 <= length post).
  { destruct post as [|c1 [|c2 post']]; simpl; try lia; exfalso.
    - rewrite Hspl, app_nil_r, HM' in Hs.
      change (T ++ [nl; nl]) with (T ++ [nl] ++ [nl]) in Hs.
      rewrite !app_assoc in Hs. apply app_inj_tail in Hs as [_ Hs]. auto.
    - simpl in Heol. apply eqb_true in Heol. subst c1.
      rewrite Hspl in Hs.
      change (T ++ [nl; nl]) with (T ++ [nl] ++ [nl]) in Hs.
      rewrite !app_assoc in Hs. apply app_inj_tail in Hs as [Hs _].
      rewrite HM', app_assoc in Hs. apply app_inj_tail in Hs as [_ Hs]. auto. }
  rewrite Hspl, app_assoc in Hs.
  destruct (app_suffix _ _ _ _ Hs Hpost) as (t & Ht & HT).
  assert (Hbody : exists body,
             t ++ [nl] = nl :: body
             /\ (body = [] \/ exists body', body = body' ++ [nl])).
  { destruct t as [|c t].
    - exists []. auto.
    - rewrite Ht in Heol. simpl in Heol. apply eqb_true in Heol. subst c.
      exists (t ++ [nl]). split; [reflexivity|]. right. now exists t. }
  destruct Hbody as (body & Hnb & Hbody).
  pose proof (den_block_intro (rev pre) n s1 tg L 0 body 0 [nl; nl]
                Hb Hn Htag Hbody eq_refl) as Dblock.
  apply exec_complete with (k := finish) in Dblock; [|discriminate].
  rewrite <- (app_nil_r (rev pre)) in Dblock.
  apply scan_complete in Dblock.
  assert (E : T ++ [nl] ++ tildes n ++ [nl; nl]
              = pre ++ (tildes n ++ spaces s1 ++ tg ++ spaces 0 ++ nl :: body
                          ++ tildes n ++ spaces 0) ++ [nl; nl]).
  { rewrite HT. rewrite <- (app_assoc (pre ++ M) t).
    rewrite (app_assoc t [nl]), Hnb, HM.
    change (spaces 0) with (@nil ascii).
    rewrite <- !app_assoc. simpl. now rewrite <- !app_assoc. }
  rewrite E. exact Dblock.
Qed.

Lemma fix_up_repairs lib self s e f :
  search FENCE_RE s e = Some f ->
  text_eqb (last2 s) [nl; nl] = true ->
  exists n m,
    3 <= n /\ group f fence = Some (tildes n)
    /\ search FENCED_BLOCK_RE
         (but_last2 s ++ [nl] ++ tildes n ++ [nl; nl]) 0 = Some m
    /\ fix_up lib self s e
       = process_fence lib self m
           (but_last2 s ++ [nl] ++ tildes n ++ [nl; nl]).
Proof.
  intros Hf Hl2.
  destruct (repaired_text_matches s e f Hf Hl2) as (n & Hn & Hg & Hm).
  destruct (search FENCED_BLOCK_RE _ 0) as [m|] eqn:E; [|easy].
  exists n, m. repeat split; auto.
  unfold fix_up. rewrite Hf, Hl2, Hg. simpl text_of.
  rewrite (text_eqb_eq _ _ Hl2). now rewrite E.
Qed.

End Repair.

(** ** A dangling fence on the last line *)

Section LastLine.

Lemma fence_line_inv l n :
  fence_line l = Some n ->
  n = tilde_run l /\ 3 <= n /\ after_tag (after_fence l) = [].
Proof.
  unfold fence_line. destruct (3 <=? tilde_run l) eqn:E1; [|easy].
  destruct (text_eqb _ []) eqn:E2; [|easy]. simpl.
  intros H. injection H as <-. apply Nat.leb_le in E1.
  apply text_eqb_nil in E2. easy.
Qed.

Lemma fence_at b l n :
  at_bol b = true -> fence_line l = Some n ->
  exists b1 tg L,
    exec FENCE_RE b l no_groups finish
    = Some (b1, [], mkGroups (Some (tildes n)) (Some tg) (Some L) None).
Proof.
  intros Hb Hl. apply fence_line_inv in Hl as (Hn & Hn3 & Hrest).
  assert (HT : take_while is_tilde l = tildes n).
  { rewrite Hn. apply forallb_tildes, take_while_all. }
  do 3 eexists. unfold FENCE_RE, fence_group.
  rewrite seq_step, grp_step, seq_step, bol_step by assumption.
  apply many_first; [unfold tilde_run in Hn; lia|].
  rewrite captured_take_while, HT.
  rewrite seq_step. apply many_first; [lia|].
  fold (after_fence l). rewrite seq_step. unfold tag_group.
  rewrite grp_step, seq_step. apply maybe_first.
  rewrite seq_step. apply maybe_first.
  rewrite seq_step, grp_step. apply many_first; [lia|].
  rewrite captured_take_while.
  apply maybe_first. fold (after_tag (after_fence l)). rewrite Hrest.
  rewrite eol_step by reflexivity. reflexivity.
Qed.

Lemma take_if_drop_if p s : take_if p s ++ drop_if p s = s.
Proof. destruct s as [|c s]; simpl; [easy|]. now destruct (p c). Qed.

Lemma no_nl_take_while p s : p nl = false -> no_nl (take_while p s) = true.
Proof. intros Hp. apply (forallb_no_nl p); auto. apply take_while_all. Qed.

Lemma no_nl_take_if p s : p nl = false -> no_nl (take_if p s) = true.
Proof.
  intros Hp. destruct s as [|c s]; simpl; [easy|].
  destruct (p c) eqn:E; [|easy]. simpl.
  destruct (Ascii.eqb c nl) eqn:E'; [|easy].
  apply eqb_true in E'. subst c. now rewrite Hp in E.
Qed.

Lemma fence_line_no_nl l n : fence_line l = Some n -> no_nl l = true.
Proof.
  intros H. apply fence_line_inv in H as (_ & _ & Hrest).
  rewrite <- (take_drop_while is_tilde l), no_nl_app.
  rewrite no_nl_take_while by reflexivity.
  rewrite <- (take_drop_while is_space (drop_while is_tilde l)), no_nl_app.
  rewrite no_nl_take_while by reflexivity. fold (after_fence l).
  revert Hrest. unfold after_tag. generalize (after_fence l). intros r Hr.
  rewrite <- (take_if_drop_if is_lbrace r), no_nl_app.
  rewrite no_nl_take_if by reflexivity.
  set (r1 := drop_if is_lbrace r) in *.
  rewrite <- (take_if_drop_if is_dot r1), no_nl_app.
  rewrite no_nl_take_if by reflexivity.
  set (r2 := drop_if is_dot r1) in *.
  rewrite <- (take_drop_while is_langchar r2), no_nl_app.
  rewrite no_nl_take_while by reflexivity.
  set (r3 := drop_while is_langchar r2) in *.
  rewrite <- (take_if_drop_if is_rbrace r3), no_nl_app, Hr.
  rewrite no_nl_take_if by reflexivity. reflexivity.
Qed.

(** No block begins on a last line without newline. *)
Lemma block_fails_last b l :
  no_nl l = true -> exec FENCED_BLOCK_RE b l no_groups finish = None.
Proof.
  intros Hl.
  destruct (exec FENCED_BLOCK_RE b l no_groups finish) as [res|] eqn:E;
    [|easy].
  exfalso. apply exec_sound in E as (x & a1 & gs' & Ha & D & _).
  apply den_block in D
    as (n & s1 & tg & s2 & body & s3 & otag & olang & -> & _).
  revert Ha. rewrite <- !app_assoc.
  rewrite (app_assoc (tildes n)), (app_assoc _ tg), (app_assoc _ (spaces s2)).
  simpl. now apply no_nl_not_app.
Qed.

Lemma search_block_none_last P l :
  Forall (fun x => plain_line x = true) P -> no_nl l = true ->
  search FENCED_BLOCK_RE (unlines P ++ l) 0 = None.
Proof.
  intros HP Hl. unfold search. simpl firstn. simpl skipn. simpl rev.
  unfold FENCED_BLOCK_RE. rewrite scan_skip_plain by assumption.
  fold FENCED_BLOCK_RE. apply scan_last_line; auto.
  - intros c b' a' Hc. now apply fence_needs_bol.
  - now apply block_fails_last.
Qed.

Lemma search_fence_last P l n :
  Forall (fun x => plain_line x = true) P -> fence_line l = Some n ->
  exists f,
    search FENCE_RE (unlines P ++ l) 0 = Some f
    /\ group f fence = Some (tildes n).
Proof.
  intros HP Hl. unfold search. simpl firstn. simpl skipn. simpl rev.
  unfold FENCE_RE. rewrite scan_skip_plain by assumption. fold FENCE_RE.
  destruct (fence_at (rev (unlines P) ++ []) l n) as (b1 & tg & L & E);
    auto.
  { rewrite app_nil_r. apply at_bol_unlines. }
  rewrite (scan_here _ _ _ _ _ _ E). eexists. split; reflexivity.
Qed.

Lemma last2_not_newlines x c :
  c <> nl -> text_eqb (last2 (x ++ [c])) [nl; nl] = false.
Proof.
  intros Hc. destruct (text_eqb _ [nl; nl]) eqn:E; [|reflexivity].
  exfalso. apply last2_split in E.
  change (?t ++ [nl; nl]) with (t ++ [nl] ++ [nl]) in E.
  rewrite app_assoc in E. apply app_inj_tail in E as [_ E]. auto.
Qed.

End LastLine.

(** ** The lines of a block quote *)

Section QuoteLines.

Lemma quoted_paragraph_lines p :
  Forall quoted_line (split [nl] (quote_paragraph p)).
Proof.
  unfold quote_paragraph.
  set (f := fun line : text => negb (text_eqb line [])).
  assert (Hls : Forall (fun l => no_nl l = true /\ l <> [])
                  (filter f (split [nl] p))).
  { apply Forall_forall. intros l Hl. apply filter_In in Hl as [Hl Hf].
    pose proof (split_nl_pieces p) as Hp. rewrite Forall_forall in Hp.
    split; [now apply Hp|]. intros ->. discriminate. }
  destruct (filter f (split [nl] p)) as [|l ls] eqn:E.
  - repeat constructor.
  - rewrite split_join_nl.
    + apply Forall_map. eapply Forall_impl; [|exact Hls].
      intros x [Hx Hne]. right. now exists x.
    + easy.
    + apply no_nl_quoted. eapply Forall_impl; [|exact Hls]. now intros x [Hx _].
Qed.

Lemma quoted_lines body :
  Forall quoted_line (split [nl] (quote_replacement body)).
Proof.
  unfold quote_replacement.
  induction (split [nl; nl] body) as [|p ps IH]; [repeat constructor|].
  destruct ps as [|p' ps]; [apply quoted_paragraph_lines|].
  change (map quote_paragraph (p :: p' :: ps))
    with (quote_paragraph p :: map quote_paragraph (p' :: ps)).
  rewrite join_cons by easy.
  change ([nl; nl] ++ ?x) with (nl :: nl :: x).
  rewrite split_nl_app, split_nl_cons, Ascii.eqb_refl.
  apply Forall_app. split; [apply quoted_paragraph_lines|].
  constructor; [now left | exact IH].
Qed.

End QuoteLines.

(** * The claims *)

Local Open Scope string_scope.
Local Open Scope list_scope.

(** ** C6: escaping *)

Lemma replace_app old new x y :
  replace old new (x ++ y) = replace old new x ++ replace old new y.
Proof. apply flat_map_app. Qed.

Lemma escape_app x y : _escape (x ++ y) = _escape x ++ _escape y.
Proof. unfold _escape. now rewrite !replace_app. Qed.

Lemma escape_one c : _escape [c] = escape_char c.
Proof.
  unfold _escape, escape_char, replace. simpl.
  destruct (Ascii.eqb c "&") eqn:E1; [reflexivity|]. simpl.
  destruct (Ascii.eqb c "<") eqn:E2; [reflexivity|]. simpl.
  destruct (Ascii.eqb c ">") eqn:E3; [reflexivity|]. simpl.
  destruct (Ascii.eqb c dquote) eqn:E4; reflexivity.
Qed.

Lemma escape_is_spec s : _escape s = escape_spec s.
Proof.
  induction s as [|c s IH]; [reflexivity|].
  change (c :: s) with ([c] ++ s). rewrite escape_app, escape_one, IH.
  reflexivity.
Qed.

(** C6. [_escape] replaces the ampersand first, then the two angle
    brackets and the double quote: it is the one-pass escaping of the
    specification, it maps the sample text to its escaped form, and a
    second pass over the result changes it again. *)
Theorem C6_escape_order_and_not_idempotent :
  let sample := str "<b>&" ++ [dquote] ++ str "x" ++ [dquote] ++ str "</b>" in
  (forall s, _escape s = escape_spec s)
  /\ _escape sample = str "&lt;b&gt;&amp;&quot;x&quot;&lt;/b&gt;"
  /\ _escape (_escape sample) <> _escape sample
  /\ _escape (str "&lt;") = str "&amp;lt;".
Proof.
  cbv zeta. split; [exact escape_is_spec|].
  split; [reflexivity|]. split; [|reflexivity].
  vm_compute. discriminate.
Qed.

(** ** C2: the closing fence is the opening run *)

(** C2. In the lines [~~~~], [~~~], [~~~~] the search finds one block,
    from the first character to the last: its fence is the run of four
    tildes and its body the line of three tildes, which does not close
    the block.  [run] replaces the three lines by one placeholder and
    stores the body as code. *)
Theorem C2_three_tildes_inside_four :
  let doc := lines_of ["~~~~"; "~~~"; "~~~~"] in
  search FENCED_BLOCK_RE (join [nl] doc) 0
  = Some (mkMatch 0 13
            (mkGroups (Some (str "~~~~")) (Some []) (Some [])
                      (Some (str "~~~" ++ [nl]))))
  /\ out_lines (run python_markdown 2 fresh doc)
     = [[]; HTML_PLACEHOLDER 0; []]
  /\ out_stored (run python_markdown 2 fresh doc)
     = [str "<pre><code>~~~" ++ [nl] ++ str "</code></pre>"].
Proof. cbv zeta. repeat split; vm_compute; reflexivity. Qed.

(** ** C3: a longer run does not close a fence *)

(** C3, as stated, fails: after a fence of four tildes and a line of
    code, a line of five tildes does not close the block. *)
Lemma C3_counterexample :
  ~ (forall k, 4 <= k ->
       search FENCED_BLOCK_RE
         (join [nl] [tildes 4; str "code"; tildes k]) 0 <> None).
Proof. intros H. apply (H 5); [lia | vm_compute; reflexivity]. Qed.

(** ** C8: the offset of the last processed block *)

(** C8. The offset that [run] keeps is the end of the last match in the
    text as it was before the substitution.  After a block of 48
    characters was replaced by a placeholder the text has 22 characters,
    the search for a dangling fence starts at 48 and the fence [~~~~]
    that follows the block is not found: it stays in the output.  With a
    short body the same fence is found and closed. *)
Theorem C8_stale_offset_misses_dangling_fence :
  let long := lines_of ["~~~"; "aaaaaaaaaaaaaaaaaaaaaaaaaaaaaaaaaaaaaaaa";
                        "~~~"; "~~~~"; "x"; ""; ""] in
  let short := lines_of ["~~~"; "a"; "~~~"; "~~~~"; "x"; ""; ""] in
  (exists s self,
      main_loop python_markdown 2 (check_codehilite fresh) (join [nl] long) 0
      = Some (s, 48, self)
      /\ length s = 22
      /\ s = [nl] ++ HTML_PLACEHOLDER 0 ++ [nl]
              ++ join [nl] (lines_of [""; "~~~~"; "x"; ""; ""])
      /\ search FENCE_RE s 48 = None
      /\ search FENCE_RE s 14 <> None)
  /\ out_lines (run python_markdown 3 fresh long)
     = [[]; HTML_PLACEHOLDER 0; []; str "~~~~"; str "x"; []; []]
  /\ out_lines (run python_markdown 3 fresh short)
     = [[]; HTML_PLACEHOLDER 0; []; []; HTML_PLACEHOLDER 1; []; []; []].
Proof.
  cbv zeta. split; [|split; vm_compute; reflexivity].
  eexists. eexists. split; [vm_compute; reflexivity|].
  repeat split; vm_compute; try reflexivity. discriminate.
Qed.

(** ** C10: tildes appended to the last line *)

(** C10, as stated, fails: the dangling fence [~~~] is the last line, the
    three tildes appended to it make a line of six tildes, and that line
    closes the fence of six tildes of the first line; a complete block
    matches and the whole document becomes one placeholder. *)
Lemma C10_counterexample :
  let doc := lines_of ["~~~~~~ py "; "code"; "~~~"] in
  search FENCED_BLOCK_RE (join [nl] doc) 0 = None
  /\ (exists f, search FENCE_RE (join [nl] doc) 0 = Some f
                /\ m_start f = 16 /\ group f fence = Some (str "~~~"))
  /\ search FENCED_BLOCK_RE (join [nl] doc ++ str "~~~") 0 <> None
  /\ out_lines (run python_markdown 1 fresh doc)
     = [[]; HTML_PLACEHOLDER 0; []]
  /\ last (out_lines (run python_markdown 1 fresh doc)) []
     <> str "~~~" ++ str "~~~".
Proof.
  cbv zeta. split; [vm_compute; reflexivity|]. split.
  - eexists. split; [vm_compute; reflexivity|]. split; reflexivity.
  - split; [vm_compute; discriminate|].
    split; [vm_compute; reflexivity | vm_compute; discriminate].
Qed.

(** ** C1: every block of a well-formed document is replaced *)

(** C1. A well-formed document is made of plain lines (no line begins
    with three tildes) and of blocks (an opening line, a body without a
    line that closes it, a closing line).  For such a document [run]
    returns its lines with every block replaced in place and in order:
    by an empty line, a placeholder and an empty line, the placeholders
    being handed out one after the other, or by its block quote between
    two empty lines.  The stash receives one markup for each block that
    is not a quote block, in the order of the blocks; without quote
    blocks these are as many as there are blocks. *)
Theorem C1_blocks_replaced_in_order lib self doc fuel :
  (forall k, plain_line (get_placeholder lib k) = true) ->
  wf_doc doc = true -> doc <> [] -> blocks doc < fuel ->
  let st := htmlStash (markdown self) in
  let conf := codehilite_conf (check_codehilite self) in
  exists self',
    run lib fuel self (doc_lines doc)
    = Some (expected_lines lib (html_counter st) doc, self')
    /\ rawHtmlBlocks (htmlStash (markdown self'))
       = rawHtmlBlocks st ++ expected_stored lib conf doc
    /\ html_counter (htmlStash (markdown self')) + quote_blocks doc
       = html_counter st + blocks doc
    /\ (quote_blocks doc = 0 ->
        length (expected_stored lib conf doc) = blocks doc).
Proof.
  intros Hph Hwf Hne Hf st conf. eexists. split.
  - apply run_doc; assumption.
  - simpl. fold st conf. pose proof (stored_count lib conf doc).
    repeat split; lia.
Qed.

Lemma C1_witness :
  wf_doc demo_doc = true /\ demo_doc <> [] /\ blocks demo_doc < 3
  /\ exists self',
      run python_markdown 3 fresh (doc_lines demo_doc)
      = Some (expected_lines python_markdown 0 demo_doc, self')
      /\ rawHtmlBlocks (htmlStash (markdown self'))
         = [] ++ expected_stored python_markdown None demo_doc
      /\ html_counter (htmlStash (markdown self')) + quote_blocks demo_doc
         = 0 + blocks demo_doc
      /\ (quote_blocks demo_doc = 0 ->
          length (expected_stored python_markdown None demo_doc)
          = blocks demo_doc).
Proof.
  split; [reflexivity|]. split; [discriminate|].
  split; [vm_compute; lia|].
  apply (C1_blocks_replaced_in_order python_markdown fresh demo_doc 3).
  - exact placeholder_plain.
  - reflexivity.
  - discriminate.
  - vm_compute; lia.
Defined.

(** ** C9: the loop ends *)

(** C9. When no line of a placeholder begins with three tildes, every
    substitution of the loop lowers the number of fence markers of the
    text, and [run] returns for every list of lines: the result is
    reached with any fuel beyond that number. *)
Theorem C9_run_terminates lib :
  (forall k, markers (get_placeholder lib k) = 0) ->
  (forall self s m,
      search FENCED_BLOCK_RE s 0 = Some m ->
      markers (fst (process_fence lib self m s)) < markers s)
  /\ (forall self lines, exists out, forall fuel,
         markers (join [nl] lines) < fuel ->
         run lib fuel self lines = Some out).
Proof.
  intros Hph. split.
  - intros self s m. now apply process_fence_decreases.
  - intros self lines. now apply run_returns.
Qed.

Lemma C9_witness :
  (forall k, markers (HTML_PLACEHOLDER k) = 0)
  /\ exists out, forall fuel,
      markers (join [nl] (doc_lines demo_doc)) < fuel ->
      run python_markdown fuel fresh (doc_lines demo_doc) = Some out.
Proof.
  assert (H : forall k, markers (get_placeholder python_markdown k) = 0)
    by (intros k; apply markers_plain_line, placeholder_plain).
  split; [exact H|].
  exact (proj2 (C9_run_terminates python_markdown H) fresh
               (doc_lines demo_doc)).
Defined.

(** ** C3, amended: the closing line has exactly the tildes of the
    opening line *)

Lemma tildes_add n k : tildes (n + k) = tildes n ++ tildes k.
Proof. apply repeat_app. Qed.

Lemma matched_app m pre M post :
  m_start m = length pre -> m_end m = length pre + length M ->
  matched m (pre ++ M ++ post) = M.
Proof.
  intros Hs He. unfold matched, from. rewrite Hs, He, skipn_app_exact.
  replace (length pre + length M - length pre) with (length M) by lia.
  apply upto_app.
Qed.

(** C3, amended. A fence opened with a run of [n] tildes is closed by the
    first following line that is made of exactly [n] tildes and then
    blanks only: the block runs from the opening line to that line and
    its body is every line between.  A line of [n] tildes followed by
    blanks closes; a line of more than [n] tildes does not, it is a line
    of the body. *)
Theorem C3_closed_by_the_same_count P o body c R n L :
  Forall (fun l => plain_line l = true) P ->
  opener o = Some (n, L) ->
  Forall (fun l => no_nl l = true /\ closer n l = false) body ->
  closer n c = true ->
  (exists m,
      search FENCED_BLOCK_RE (join [nl] (P ++ (o :: body ++ [c]) ++ R)) 0
      = Some m
      /\ m_start m = length (unlines P)
      /\ matched m (join [nl] (P ++ (o :: body ++ [c]) ++ R))
         = join [nl] (o :: body ++ [c])
      /\ group m code = Some (unlines body))
  /\ (forall j, closer n (tildes n ++ spaces j) = true)
  /\ (forall k, closer n (tildes (n + S k)) = false).
Proof.
  intros HP Ho Hbody Hc. split; [|split].
  - destruct (search_block_found P o body c R n L HP Ho Hbody Hc)
      as (tg & Hs).
    rewrite join_block, Hs. eexists. split; [reflexivity|].
    split; [reflexivity|]. split; [|reflexivity].
    rewrite matched_app by reflexivity.
    now rewrite join_cons_tail, tail_text_body.
  - intros j. apply closer_intro. clear. induction j; simpl; auto.
  - intros k. unfold closer. rewrite tildes_add, skipn_tildes.
    simpl. now rewrite andb_false_r.
Qed.

Lemma C3_witness :
  Forall (fun l => plain_line l = true) [str "intro"]
  /\ opener (str "~~~~") = Some (4, [])
  /\ Forall (fun l => no_nl l = true /\ closer 4 l = false)
       [str "code"; str "~~~~~"]
  /\ closer 4 (str "~~~~ ") = true
  /\ (exists m,
        search FENCED_BLOCK_RE
          (join [nl] ([str "intro"]
                      ++ (str "~~~~" :: [str "code"; str "~~~~~"]
                            ++ [str "~~~~ "])
                      ++ [str "after"])) 0
        = Some m
        /\ m_start m = length (unlines [str "intro"])
        /\ matched m
             (join [nl] ([str "intro"]
                         ++ (str "~~~~" :: [str "code"; str "~~~~~"]
                               ++ [str "~~~~ "])
                         ++ [str "after"]))
           = join [nl] (str "~~~~" :: [str "code"; str "~~~~~"]
                          ++ [str "~~~~ "])
        /\ group m code = Some (unlines [str "code"; str "~~~~~"]))
  /\ (forall j, closer 4 (tildes 4 ++ spaces j) = true)
  /\ (forall k, closer 4 (tildes (4 + S k)) = false).
Proof.
  assert (H1 : Forall (fun l => plain_line l = true) [str "intro"])
    by (repeat constructor).
  assert (H2 : opener (str "~~~~") = Some (4, [])) by reflexivity.
  assert (H3 : Forall (fun l => no_nl l = true /\ closer 4 l = false)
                 [str "code"; str "~~~~~"]) by (repeat constructor).
  assert (H4 : closer 4 (str "~~~~ ") = true) by reflexivity.
  split; [exact H1|]. split; [exact H2|]. split; [exact H3|].
  split; [exact H4|].
  exact (C3_closed_by_the_same_count [str "intro"] (str "~~~~")
           [str "code"; str "~~~~~"] (str "~~~~ ") [str "after"] 4 []
           H1 H2 H3 H4).
Defined.

(** ** C4: quote blocks *)

(** C4. For a block whose tag is quote or quoted, [process_fence] puts in
    place of the block, between two newlines, the body split at blank
    lines into paragraphs, every paragraph split into lines, the empty
    lines dropped, the others marked, the lines of a paragraph joined by
    a newline and the paragraphs by a blank line; nothing is stored.
    Every line of that text is empty or a marked line.  The body
    [line1], [line2], blank, [line3] gives the three marked lines with
    the blank line kept, and so does the block in a document. *)
Theorem C4_quote_block :
  (forall lib self m s L body,
      group m lang = Some L -> L = str "quote" \/ L = str "quoted" ->
      group m code = Some body ->
      process_fence lib self m s
      = (upto (m_start m) s ++ [nl]
           ++ join [nl; nl]
                (map (fun paragraph =>
                        join [nl]
                          (map (fun line => str "> " ++ line)
                             (filter (fun line => negb (text_eqb line []))
                                (split [nl] paragraph))))
                   (split [nl; nl] body))
           ++ [nl] ++ from (m_end m) s,
         self)
      /\ Forall quoted_line (split [nl] (quote_replacement body)))
  /\ quote_replacement (join [nl] (lines_of ["line1"; "line2"; ""; "line3"]))
     = join [nl] (lines_of ["> line1"; "> line2"; ""; "> line3"])
  /\ (let doc := lines_of ["~~~ quote"; "line1"; "line2"; ""; "line3"; "~~~"] in
      out_lines (run python_markdown 2 fresh doc)
      = lines_of [""; "> line1"; "> line2"; ""; "> line3"; ""]
      /\ out_stored (run python_markdown 2 fresh doc) = []).
Proof.
  split; [|split; [vm_compute; reflexivity
                  | cbv zeta; split; vm_compute; reflexivity]].
  intros lib self m s L body HL Hq Hb. split; [|apply quoted_lines].
  rewrite (process_fence_found lib self m s L body HL Hb).
  assert (quote_tag L = true) as -> by (now destruct Hq as [-> | ->]).
  reflexivity.
Qed.

Lemma C4_witness :
  let m := mkMatch 0 0 (mkGroups None None (Some (str "quoted"))
                                 (Some (str "a" ++ [nl; nl] ++ str "b"))) in
  group m lang = Some (str "quoted")
  /\ (str "quoted" = str "quote" \/ str "quoted" = str "quoted")
  /\ group m code = Some (str "a" ++ [nl; nl] ++ str "b")
  /\ fst (process_fence python_markdown fresh m [])
     = [nl] ++ str "> a" ++ [nl; nl] ++ str "> b" ++ [nl].
Proof.
  cbv zeta. split; [reflexivity|]. split; [now right|].
  split; [reflexivity|].
  rewrite (proj1 (proj1 C4_quote_block python_markdown fresh
                    (mkMatch 0 0
                       (mkGroups None None (Some (str "quoted"))
                          (Some (str "a" ++ [nl; nl] ++ str "b"))))
                    [] (str "quoted") (str "a" ++ [nl; nl] ++ str "b")
                    eq_refl (or_intror eq_refl) eq_refl)).
  vm_compute. reflexivity.
Defined.

(** ** C5: the markup without highlighter *)

(** C5. Without highlighter the markup stored for a block is its escaped
    body between the two tags, the opening tag carrying the class of the
    language exactly when the tag of the block is not empty.  For the
    tag [python] and the body [code_here] it is the text of the claim;
    in a document the body of the block ends with its newline. *)
Theorem C5_markup_without_highlighter :
  (forall lib self m s body,
      codehilite_conf self = None -> group m code = Some body ->
      let st := htmlStash (markdown self) in
      let stored html :=
        (splice m (get_placeholder lib (html_counter st)) s,
         with_stash self
           (mkStash (rawHtmlBlocks st ++ [(html, true)])
                    (S (html_counter st)))) in
      (forall L, group m lang = Some L -> L <> [] -> is_quote L = false ->
         process_fence lib self m s
         = stored (str "<pre><code class=" ++ [dquote] ++ L ++ [dquote]
                     ++ str ">" ++ escape_spec body ++ str "</code></pre>"))
      /\ (truthy (group m lang) = false ->
          process_fence lib self m s
          = stored (str "<pre><code>" ++ escape_spec body
                      ++ str "</code></pre>")))
  /\ markup python_markdown None (str "python") (str "code_here")
     = str "<pre><code class=" ++ [dquote] ++ str "python" ++ [dquote]
         ++ str ">code_here</code></pre>"
  /\ (let doc := lines_of ["~~~python"; "code_here"; "~~~"] in
      out_lines (run python_markdown 2 fresh doc)
      = [[]; HTML_PLACEHOLDER 0; []]
      /\ out_stored (run python_markdown 2 fresh doc)
         = [str "<pre><code class=" ++ [dquote] ++ str "python" ++ [dquote]
              ++ str ">code_here" ++ [nl] ++ str "</code></pre>"]).
Proof.
  split; [|split; [vm_compute; reflexivity
                  | cbv zeta; split; vm_compute; reflexivity]].
  intros lib self m s body Hconf Hb st stored. split.
  - intros L HL Hne Hq.
    rewrite (process_fence_found lib self m s L body HL Hb).
    unfold quote_tag. rewrite Hq, andb_false_r. unfold markup.
    rewrite Hconf. destruct L as [|c L]; [easy|].
    unfold stored, st. simpl truthy. cbv iota.
    unfold CODE_WRAP, LANG_TAG. rewrite escape_is_spec.
    now rewrite <- !app_assoc.
  - intros Ht. unfold process_fence, store. rewrite Ht, Hconf, Hb.
    simpl. unfold stored, st, CODE_WRAP. now rewrite escape_is_spec.
Qed.

Lemma C5_witness :
  let m := mkMatch 0 0 (mkGroups None None (Some (str "python"))
                                 (Some (str "a<b"))) in
  codehilite_conf fresh = None
  /\ group m code = Some (str "a<b")
  /\ group m lang = Some (str "python")
  /\ str "python" <> []
  /\ is_quote (str "python") = false
  /\ out_stored (Some ([], snd (process_fence python_markdown fresh m [])))
     = [str "<pre><code class=" ++ [dquote] ++ str "python" ++ [dquote]
          ++ str ">a&lt;b</code></pre>"].
Proof.
  cbv zeta. split; [reflexivity|]. split; [reflexivity|].
  split; [reflexivity|]. split; [discriminate|]. split; [reflexivity|].
  rewrite (proj1 (proj1 C5_markup_without_highlighter python_markdown fresh
                    (mkMatch 0 0
                       (mkGroups None None (Some (str "python"))
                          (Some (str "a<b"))))
                    [] (str "a<b") eq_refl eq_refl)
                 (str "python") eq_refl
                 ltac:(discriminate) eq_refl).
  vm_compute. reflexivity.
Defined.

(** ** C7: the repair of a dangling fence *)

(** C7. When the search after the loop finds a dangling fence and the
    text ends with two newlines, [run] puts a newline and the run of
    tildes of that fence before the two newlines; the text then holds a
    complete block, which is processed as any other block.  The repair
    is made once: of two fences without end the first is closed and the
    second becomes a line of its body. *)
Theorem C7_dangling_fence_repaired :
  (forall lib self s e f,
      search FENCE_RE s e = Some f ->
      text_eqb (last2 s) [nl; nl] = true ->
      exists n m,
        3 <= n /\ group f fence = Some (tildes n)
        /\ search FENCED_BLOCK_RE
             (but_last2 s ++ [nl] ++ tildes n ++ [nl; nl]) 0 = Some m
        /\ fix_up lib self s e
           = process_fence lib self m
               (but_last2 s ++ [nl] ++ tildes n ++ [nl; nl]))
  /\ (let doc := lines_of ["~~~"; "code"; ""; ""] in
      out_lines (run python_markdown 1 fresh doc)
      = [[]; HTML_PLACEHOLDER 0; []; []; []]
      /\ out_stored (run python_markdown 1 fresh doc)
         = [str "<pre><code>code" ++ [nl] ++ str "</code></pre>"])
  /\ (let doc := lines_of ["~~~"; "a"; "~~~~"; "b"; ""; ""] in
      out_lines (run python_markdown 1 fresh doc)
      = [[]; HTML_PLACEHOLDER 0; []; []; []]
      /\ out_stored (run python_markdown 1 fresh doc)
         = [str "<pre><code>"
              ++ join [nl] (lines_of ["a"; "~~~~"; "b"; "</code></pre>"])]).
Proof.
  split; [exact fix_up_repairs|].
  cbv zeta. repeat split; vm_compute; reflexivity.
Qed.

Lemma C7_witness :
  let s := join [nl] (lines_of ["~~~ py"; "code"; ""; ""]) in
  (exists f, search FENCE_RE s 0 = Some f)
  /\ text_eqb (last2 s) [nl; nl] = true
  /\ exists f n m,
       search FENCE_RE s 0 = Some f
       /\ 3 <= n /\ group f fence = Some (tildes n)
       /\ search FENCED_BLOCK_RE
            (but_last2 s ++ [nl] ++ tildes n ++ [nl; nl]) 0 = Some m
       /\ fix_up python_markdown fresh s 0
          = process_fence python_markdown fresh m
              (but_last2 s ++ [nl] ++ tildes n ++ [nl; nl]).
Proof.
  cbv zeta.
  assert (Hf : search FENCE_RE
                 (join [nl] (lines_of ["~~~ py"; "code"; ""; ""])) 0
               = Some (mkMatch 0 6
                         (mkGroups (Some (str "~~~")) (Some (str "py"))
                                   (Some (str "py")) None)))
    by (vm_compute; reflexivity).
  assert (Hl : text_eqb
                 (last2 (join [nl] (lines_of ["~~~ py"; "code"; ""; ""])))
                 [nl; nl] = true) by (vm_compute; reflexivity).
  split; [eexists; exact Hf|]. split; [exact Hl|].
  destruct (proj1 C7_dangling_fence_repaired python_markdown fresh _ 0 _
              Hf Hl) as (n & m & H).
  eexists. exists n, m. split; [exact Hf | exact H].
Defined.

(** ** C10, amended: tildes appended to a last line *)

Lemma join_last P l : join [nl] (P ++ [l]) = unlines P ++ l.
Proof. rewrite join_decompose. simpl. now rewrite app_nil_r. Qed.

Lemma last2_line x l :
  no_nl l = true -> l <> [] -> text_eqb (last2 (x ++ l)) [nl; nl] = false.
Proof.
  intros Hl Hne. destruct (exists_last Hne) as (l' & c & ->).
  rewrite app_assoc. apply last2_not_newlines. now apply (no_nl_last l').
Qed.

(** C10, amended. When a dangling fence is found and the text does not
    end with two newlines, the run of tildes of the fence is appended to
    the text with nothing between, and the search for a complete block
    is made once more.  When the dangling fence is the last line of the
    document and no line before it begins with three tildes, no block
    matches: [run] returns the lines as they were, the last one with the
    run of tildes appended, and stores nothing. *)
Theorem C10_tildes_appended_to_the_last_line :
  (forall lib self s e f,
      search FENCE_RE s e = Some f ->
      text_eqb (last2 s) [nl; nl] = false ->
      fix_up lib self s e
      = match search FENCED_BLOCK_RE (s ++ text_of (group f fence)) 0 with
        | Some m => process_fence lib self m (s ++ text_of (group f fence))
        | None => (s ++ text_of (group f fence), self)
        end)
  /\ (forall lib self P l n fuel,
         Forall (fun x => plain_line x = true) P ->
         fence_line l = Some n -> 0 < fuel ->
         run lib fuel self (P ++ [l])
         = Some (P ++ [l ++ tildes n], check_codehilite self)).
Proof.
  split.
  - intros lib self s e f Hf Hl. unfold fix_up. now rewrite Hf, Hl.
  - intros lib self P l n fuel HP Hl Hfuel.
    pose proof (fence_line_no_nl l n Hl) as Hnl.
    assert (Hne : l <> []).
    { apply fence_line_inv in Hl as (Hn & Hn3 & _). intros ->.
      unfold tilde_run in Hn. simpl in Hn. lia. }
    assert (Hnl' : no_nl (l ++ tildes n) = true)
      by (rewrite no_nl_app, Hnl; apply no_nl_tildes).
    destruct fuel as [|fuel]; [lia|]. unfold run.
    rewrite join_last. simpl main_loop.
    rewrite search_block_none_last by assumption.
    unfold fix_up.
    destruct (search_fence_last P l n HP Hl) as (f & Hf & Hg).
    rewrite Hf, Hg, last2_line by assumption. simpl text_of.
    rewrite <- app_assoc, search_block_none_last by assumption.
    rewrite <- join_last, split_join_nl; auto.
    + now destruct P.
    + apply Forall_app. split.
      * eapply Forall_impl; [|exact HP]. intros x Hx.
        now apply plain_line_inv in Hx.
      * now repeat constructor.
Qed.

Lemma C10_witness :
  Forall (fun x => plain_line x = true) [str "foo"; str "~~ bar"]
  /\ fence_line (str "~~~~ {.py}") = Some 4
  /\ 0 < 1
  /\ run python_markdown 1 fresh ([str "foo"; str "~~ bar"] ++ [str "~~~~ {.py}"])
     = Some ([str "foo"; str "~~ bar"] ++ [str "~~~~ {.py}" ++ tildes 4],
             check_codehilite fresh).
Proof.
  assert (H1 : Forall (fun x => plain_line x = true) [str "foo"; str "~~ bar"])
    by (repeat constructor).
  assert (H2 : fence_line (str "~~~~ {.py}") = Some 4) by reflexivity.
  assert (H3 : 0 < 1) by lia.
  split; [exact H1|]. split; [exact H2|]. split; [exact H3|].
  exact (proj2 C10_tildes_appended_to_the_last_line python_markdown fresh
           [str "foo"; str "~~ bar"] (str "~~~~ {.py}") 4 1 H1 H2 H3).
Defined.
(** * Further properties *)

(** ** Escaping *)

Lemma escape_cons c s : _escape (c :: s) = escape_char c ++ _escape s.
Proof.
  change (c :: s) with ([c] ++ s). now rewrite escape_app, escape_one.
Qed.

Lemma escape_char_cases c :
  (c = "&"%char /\ escape_char c = str "&amp;")
  \/ (c = "<"%char /\ escape_char c = str "&lt;")
  \/ (c = ">"%char /\ escape_char c = str "&gt;")
  \/ (c = dquote /\ escape_char c = str "&quot;")
  \/ (is_special c = false /\ escape_char c = [c]).
Proof.
  unfold escape_char, is_special.
  destruct (Ascii.eqb c "&") eqn:E1.
  { left. apply Ascii.eqb_eq in E1. now subst. }
  destruct (Ascii.eqb c "<") eqn:E2.
  { right. left. apply Ascii.eqb_eq in E2. now subst. }
  destruct (Ascii.eqb c ">") eqn:E3.
  { right. right. left. apply Ascii.eqb_eq in E3. now subst. }
  destruct (Ascii.eqb c dquote) eqn:E4.
  { right. right. right. left. apply Ascii.eqb_eq in E4. now subst. }
  right. right. right. right. now split.
Qed.

(** X1. The text that [_escape] returns holds no angle bracket and no
    double quote, whatever the text it is given. *)
Theorem X1_escaped_text_has_no_markup s :
  Forall (fun c => c <> "<"%char /\ c <> ">"%char /\ c <> dquote) (_escape s).
Proof.
  induction s as [|c s IH]; [constructor|].
  rewrite escape_cons. apply Forall_app. split; [|exact IH].
  destruct (escape_char_cases c)
    as [[_ ->]|[[_ ->]|[[_ ->]|[[_ ->]|[Hc ->]]]]];
    repeat constructor; try discriminate.
  - intros ->. discriminate.
  - intros ->. discriminate.
  - intros ->. discriminate.
Qed.

Lemma escape_char_inj c d X Y :
  escape_char c ++ X = escape_char d ++ Y -> c = d /\ X = Y.
Proof.
  destruct (escape_char_cases c)
    as [[-> ->]|[[-> ->]|[[-> ->]|[[-> ->]|[Hc ->]]]]];
  destruct (escape_char_cases d)
    as [[-> ->]|[[-> ->]|[[-> ->]|[[-> ->]|[Hd ->]]]]];
  simpl; intros E; try discriminate E;
  try (injection E as E; now subst);
  try (injection E as -> E; discriminate).
Qed.

(** X2. [_escape] loses nothing: two texts with the same escaped form are
    the same text. *)
Theorem X2_escape_is_injective x : forall y, _escape x = _escape y -> x = y.
Proof.
  induction x as [|c x IH]; intros [|d y] E.
  - reflexivity.
  - rewrite escape_cons in E.
    destruct (escape_char_cases d)
      as [[_ H]|[[_ H]|[[_ H]|[[_ H]|[_ H]]]]]; rewrite H in E; discriminate.
  - rewrite escape_cons in E.
    destruct (escape_char_cases c)
      as [[_ H]|[[_ H]|[[_ H]|[[_ H]|[_ H]]]]]; rewrite H in E; discriminate.
  - rewrite !escape_cons in E. apply escape_char_inj in E as [-> E].
    f_equal. now apply IH.
Qed.

Lemma X2_witness :
  _escape (str "a<b" ++ str "&c") = _escape (str "a<" ++ str "b&c")
  /\ str "a<b" ++ str "&c" = str "a<" ++ str "b&c".
Proof.
  assert (H : _escape (str "a<b" ++ str "&c") = _escape (str "a<" ++ str "b&c"))
    by reflexivity.
  split; [exact H|].
  exact (X2_escape_is_injective _ _ H).
Defined.

Lemma escape_length s :
  length s <= length (_escape s)
  /\ (length (_escape s) = length s ->
      forallb (fun c => negb (is_special c)) s = true).
Proof.
  induction s as [|c s [IH1 IH2]]; [split; [simpl; lia | reflexivity]|].
  rewrite escape_cons, length_app.
  destruct (escape_char_cases c)
    as [[_ ->]|[[_ ->]|[[_ ->]|[[_ ->]|[Hc ->]]]]];
    simpl; (split; [lia|]); intros E; try lia.
  rewrite Hc. simpl. apply IH2. lia.
Qed.

(** X3. [_escape] never shortens a text, and it returns the text it was
    given exactly when the text holds none of the four characters it
    replaces. *)
Theorem X3_escape_fixes_clean_text s :
  length s <= length (_escape s)
  /\ (_escape s = s <-> forallb (fun c => negb (is_special c)) s = true).
Proof.
  split; [apply escape_length|]. split.
  - intros E. apply escape_length. now rewrite E.
  - induction s as [|c s IH]; [reflexivity|]. simpl.
    intros H. apply andb_true_iff in H as [Hc Hs].
    rewrite escape_cons, (IH Hs).
    destruct (escape_char_cases c)
      as [[-> _]|[[-> _]|[[-> _]|[[-> _]|[_ ->]]]]];
      try discriminate Hc. reflexivity.
Qed.

(** ** The state of the preprocessor *)

Section State.
Variable lib : Library.

Lemma stored_more_refl self : stored_more self self [].
Proof.
  unfold stored_more. rewrite app_nil_r. simpl.
  repeat split; auto.
Qed.

Lemma stored_more_trans s1 s2 s3 a b :
  stored_more s1 s2 a -> stored_more s2 s3 b -> stored_more s1 s3 (a ++ b).
Proof.
  intros (A1 & A2 & A3 & A4 & A5 & A6) (B1 & B2 & B3 & B4 & B5 & B6).
  unfold stored_more. rewrite B1, B2, B3, B4, B5, A4, A5, length_app.
  repeat split; auto.
  - now rewrite app_assoc.
  - lia.
  - now apply Forall_app.
Qed.

Lemma process_fence_stores self m s :
  exists added,
    stored_more self (snd (process_fence lib self m s)) added
    /\ length added <= 1.
Proof.
  unfold process_fence.
  destruct (truthy (group m lang) && is_quote (text_of (group m lang))).
  - exists []. split; [apply stored_more_refl | simpl; lia].
  - simpl. eexists [(_, true)]. split; [|simpl; lia].
    unfold stored_more. simpl. repeat split; auto. lia.
Qed.

Lemma main_loop_stores fuel : forall self s e s' e' self',
  main_loop lib fuel self s e = Some (s', e', self') ->
  exists added, stored_more self self' added.
Proof.
  induction fuel as [|fuel IH]; intros self s e s' e' self' H;
    [discriminate|].
  simpl in H. destruct (search FENCED_BLOCK_RE s 0) as [m|].
  - destruct (process_fence_stores self m s) as (a & Ha & _).
    destruct (process_fence lib self m s) as [t self1]. simpl in Ha.
    apply IH in H as (b & Hb). exists (a ++ b).
    eapply stored_more_trans; eassumption.
  - injection H as <- <- <-. exists []. apply stored_more_refl.
Qed.

Lemma fix_up_stores self s e :
  exists added, stored_more self (snd (fix_up lib self s e)) added.
Proof.
  unfold fix_up. destruct (search FENCE_RE s e) as [f|];
    [|exists []; apply stored_more_refl].
  match goal with
  | |- context [search FENCED_BLOCK_RE ?t 0] =>
      destruct (search FENCED_BLOCK_RE t 0) as [m|]
  end; [|exists []; apply stored_more_refl].
  destruct (process_fence_stores self m
              (if text_eqb (last2 s) [nl; nl]
               then but_last2 s ++ [nl] ++ text_of (group f fence) ++ last2 s
               else s ++ text_of (group f fence))) as (a & Ha & _).
  now exists a.
Qed.

Lemma run_stores fuel self lines out self' :
  run lib fuel self lines = Some (out, self') ->
  exists added, stored_more (check_codehilite self) self' added.
Proof.
  unfold run. intros H.
  destruct (main_loop lib fuel (check_codehilite self) (join [nl] lines) 0)
    as [[[s e] self1]|] eqn:Hloop; [|discriminate].
  apply main_loop_stores in Hloop as (a & Ha).
  destruct (fix_up_stores self1 s e) as (b & Hb).
  destruct (fix_up lib self1 s e) as [t self2]. simpl in Hb.
  injection H as <- <-. exists (a ++ b).
  eapply stored_more_trans; eassumption.
Qed.

Lemma check_codehilite_md self :
  markdown (check_codehilite self) = markdown self.
Proof. unfold check_codehilite. now destruct (checked_for_codehilite self). Qed.

Lemma check_codehilite_checked self :
  checked_for_codehilite (check_codehilite self) = true.
Proof.
  unfold check_codehilite.
  now destruct (checked_for_codehilite self) eqn:E.
Qed.

Lemma process_fence_with_extensions self exts m s :
  process_fence lib (with_extensions self exts) m s
  = (fst (process_fence lib self m s),
     with_extensions (snd (process_fence lib self m s)) exts).
Proof.
  unfold process_fence.
  destruct (truthy (group m lang) && is_quote (text_of (group m lang)));
    reflexivity.
Qed.

Lemma main_loop_with_extensions exts fuel : forall self s e,
  main_loop lib fuel (with_extensions self exts) s e
  = match main_loop lib fuel self s e with
    | Some (s', e', self') => Some (s', e', with_extensions self' exts)
    | None => None
    end.
Proof.
  induction fuel as [|fuel IH]; intros self s e; [reflexivity|].
  simpl. destruct (search FENCED_BLOCK_RE s 0) as [m|]; [|reflexivity].
  rewrite process_fence_with_extensions.
  destruct (process_fence lib self m s) as [t self1]. simpl. apply IH.
Qed.

Lemma fix_up_with_extensions self exts s e :
  fix_up lib (with_extensions self exts) s e
  = (fst (fix_up lib self s e), with_extensions (snd (fix_up lib self s e)) exts).
Proof.
  unfold fix_up. destruct (search FENCE_RE s e) as [f|]; [|reflexivity].
  match goal with
  | |- context [search FENCED_BLOCK_RE ?t 0] =>
      destruct (search FENCED_BLOCK_RE t 0) as [m|]
  end; [|reflexivity].
  apply process_fence_with_extensions.
Qed.

Lemma run_with_extensions fuel self exts lines :
  checked_for_codehilite self = true ->
  run lib fuel (with_extensions self exts) lines
  = result_with_extensions exts (run lib fuel self lines).
Proof.
  intros Hc. unfold run.
  assert (E1 : check_codehilite (with_extensions self exts)
               = with_extensions self exts)
    by (unfold check_codehilite; simpl; now rewrite Hc).
  assert (E2 : check_codehilite self = self)
    by (unfold check_codehilite; now rewrite Hc).
  rewrite E1, E2, main_loop_with_extensions.
  destruct (main_loop lib fuel self (join [nl] lines) 0)
    as [[[s e] self1]|]; [|reflexivity].
  rewrite fix_up_with_extensions.
  now destruct (fix_up lib self1 s e) as [t self2].
Qed.

End State.

(** X4. [run] only adds to the stash: the blocks stored before the call
    are kept as they were, the blocks of the call follow them, each
    stored as safe, and the counter moves on by their number. *)
Theorem X4_run_only_adds_to_the_stash lib fuel self lines out self' :
  run lib fuel self lines = Some (out, self') ->
  let st := htmlStash (markdown self) in
  let st' := htmlStash (markdown self') in
  exists added,
    rawHtmlBlocks st' = rawHtmlBlocks st ++ added
    /\ html_counter st' = html_counter st + length added
    /\ Forall (fun p => snd p = true) added.
Proof.
  intros H st st'. apply run_stores in H as (added & H).
  destruct H as (_ & _ & _ & H4 & H5 & H6).
  rewrite check_codehilite_md in H4, H5. now exists added.
Qed.

Lemma X4_witness :
  let doc := lines_of ["~~~"; "a"; "~~~"; "~~~ quote"; "b"; "~~~"] in
  exists out self',
    run python_markdown 3 fresh doc = Some (out, self')
    /\ exists added,
         rawHtmlBlocks (htmlStash (markdown self')) = [] ++ added
         /\ html_counter (htmlStash (markdown self')) = 0 + length added
         /\ Forall (fun p => snd p = true) added.
Proof.
  cbv zeta.
  destruct (run python_markdown 3 fresh
              (lines_of ["~~~"; "a"; "~~~"; "~~~ quote"; "b"; "~~~"]))
    as [[out self']|] eqn:H; [|vm_compute in H; discriminate H].
  exists out, self'. split; [reflexivity|].
  exact (X4_run_only_adds_to_the_stash python_markdown 3 fresh _ out self' H).
Defined.

(** X5. The check for the highlighter is made once for a preprocessor.
    After a run the preprocessor is marked as checked and keeps the
    configuration found by that run; extensions registered later change
    nothing: a further run gives the lines and the stash it gives
    without them. *)
Theorem X5_highlighter_checked_once lib fuel self lines out self' :
  run lib fuel self lines = Some (out, self') ->
  checked_for_codehilite self' = true
  /\ codehilite_conf self' = codehilite_conf (check_codehilite self)
  /\ registeredExtensions (markdown self')
     = registeredExtensions (markdown self)
  /\ forall exts fuel2 lines2,
       run lib fuel2 (with_extensions self' exts) lines2
       = result_with_extensions exts (run lib fuel2 self' lines2).
Proof.
  intros H. apply run_stores in H as (added & H1 & H2 & H3 & _).
  rewrite check_codehilite_checked in H1. rewrite check_codehilite_md in H3.
  repeat split; auto. intros exts fuel2 lines2.
  now apply run_with_extensions.
Qed.

Lemma X5_witness :
  let late := [CodeHiliteExtension (mkConfig true true [] [] true)] in
  exists out self',
    run python_markdown 2 fresh (lines_of ["~~~"; "a"; "~~~"])
    = Some (out, self')
    /\ codehilite_conf self' = None
    /\ out_stored (run python_markdown 2 (with_extensions self' late)
                     (lines_of ["~~~"; "b"; "~~~"]))
       = [str "<pre><code>a" ++ [nl] ++ str "</code></pre>";
          str "<pre><code>b" ++ [nl] ++ str "</code></pre>"].
Proof.
  cbv zeta.
  destruct (run python_markdown 2 fresh (lines_of ["~~~"; "a"; "~~~"]))
    as [[out self']|] eqn:H; [|vm_compute in H; discriminate H].
  exists out, self'. split; [reflexivity|].
  destruct (X5_highlighter_checked_once python_markdown 2 fresh _ out self' H)
    as (_ & Hconf & _ & Hrun).
  split; [exact Hconf|].
  rewrite Hrun. vm_compute in H. injection H as <- <-.
  vm_compute. reflexivity.
Defined.

Lemma find_codehilite_first pre c post :
  Forall (fun e => e = OtherExtension) pre ->
  find_codehilite (pre ++ CodeHiliteExtension c :: post) = Some c.
Proof. induction 1 as [|e pre -> _ IH]; [reflexivity | exact IH]. Qed.

Lemma find_codehilite_none exts :
  find_codehilite exts = None <-> Forall (fun e => e = OtherExtension) exts.
Proof.
  induction exts as [|[c|] exts IH]; simpl.
  - split; [constructor | reflexivity].
  - split; [discriminate | intros H; inversion H; discriminate].
  - rewrite IH. split; [now constructor | intros H; now inversion H].
Qed.

(** X6. The first run of a new preprocessor takes the configuration of
    the first code hilite extension among the registered extensions, in
    the order of their registration, and none when no such extension is
    registered; the markup it stores is then the highlighter's, and the
    escaped body otherwise. *)
Theorem X6_first_highlighter_is_used lib md :
  (forall pre c post,
      registeredExtensions md = pre ++ CodeHiliteExtension c :: post ->
      Forall (fun e => e = OtherExtension) pre ->
      check_codehilite (init md) = mkSelf md true (Some c))
  /\ (Forall (fun e => e = OtherExtension) (registeredExtensions md) ->
      check_codehilite (init md) = mkSelf md true None)
  /\ (forall fuel lines out self',
         run lib fuel (init md) lines = Some (out, self') ->
         codehilite_conf self' = find_codehilite (registeredExtensions md)).
Proof.
  split; [|split].
  - intros pre c post E Hpre. unfold check_codehilite, init. simpl.
    now rewrite E, find_codehilite_first.
  - intros H. apply find_codehilite_none in H.
    unfold check_codehilite, init. simpl. now rewrite H.
  - intros fuel lines out self' H.
    apply run_stores in H as (added & _ & H2 & _). rewrite H2.
    unfold check_codehilite, init. simpl.
    now destruct (find_codehilite (registeredExtensions md)).
Qed.

Lemma X6_witness :
  let c1 := mkConfig true false (str "codehilite") (str "default") true in
  let c2 := mkConfig false false [] [] false in
  let md := mkMarkdown [OtherExtension; CodeHiliteExtension c1;
                        CodeHiliteExtension c2] (mkStash [] 0) in
  registeredExtensions md
  = [OtherExtension] ++ CodeHiliteExtension c1 :: [CodeHiliteExtension c2]
  /\ Forall (fun e => e = OtherExtension) [OtherExtension]
  /\ check_codehilite (init md) = mkSelf md true (Some c1).
Proof.
  cbv zeta.
  assert (H1 : registeredExtensions
                 (mkMarkdown
                    [OtherExtension;
                     CodeHiliteExtension
                       (mkConfig true false (str "codehilite") (str "default")
                          true);
                     CodeHiliteExtension (mkConfig false false [] [] false)]
                    (mkStash [] 0))
               = [OtherExtension]
                   ++ CodeHiliteExtension
                        (mkConfig true false (str "codehilite")
                           (str "default") true)
                   :: [CodeHiliteExtension (mkConfig false false [] [] false)])
    by reflexivity.
  assert (H2 : Forall (fun e => e = OtherExtension) [OtherExtension])
    by (repeat constructor).
  split; [exact H1|]. split; [exact H2|].
  exact (proj1 (X6_first_highlighter_is_used python_markdown _) _ _ _ H1 H2).
Defined.

(** ** The lines that a run returns *)

Section RunLines.
Variable lib : Library.

Lemma run_plain fuel self lines :
  Forall (fun l => plain_line l = true) lines -> lines <> [] -> 0 < fuel ->
  run lib fuel self lines = Some (lines, check_codehilite self).
Proof.
  intros Hp Hne Hf. destruct fuel as [|fuel]; [lia|].
  pose proof (markers_plain_lines lines Hp) as Hm.
  unfold run. simpl main_loop.
  unfold FENCED_BLOCK_RE. rewrite (search_none _ _ 0 Hm).
  unfold fix_up, FENCE_RE. rewrite (search_none _ _ 0 Hm).
  rewrite split_join_nl; auto.
  eapply Forall_impl; [|exact Hp]. intros l Hl.
  now apply plain_line_inv in Hl.
Qed.

Lemma run_lines fuel self lines out self' :
  run lib fuel self lines = Some (out, self') ->
  out <> [] /\ Forall (fun l => no_nl l = true) out.
Proof.
  unfold run. intros H.
  destruct (main_loop lib fuel (check_codehilite self) (join [nl] lines) 0)
    as [[[s e] self1]|]; [|discriminate].
  destruct (fix_up lib self1 s e) as [t self2]. injection H as <- <-.
  split; [apply split_nl_nonempty | apply split_nl_pieces].
Qed.

End RunLines.

(** X7. [run] never returns an empty list, and no line it returns holds
    a newline: the lines are the pieces of the text between its
    newlines.  For the empty list it returns one empty line. *)
Theorem X7_run_returns_lines lib fuel self :
  (forall lines out self',
      run lib fuel self lines = Some (out, self') ->
      out <> [] /\ Forall (fun l => no_nl l = true) out)
  /\ (0 < fuel -> run lib fuel self [] = Some ([[]], check_codehilite self)).
Proof.
  split; [intros lines out self'; apply run_lines|].
  intros Hf. destruct fuel as [|fuel]; [lia|]. reflexivity.
Qed.

Lemma X7_witness :
  0 < 1
  /\ run python_markdown 1 fresh [] = Some ([[]], check_codehilite fresh)
  /\ [[]] <> ([] : list text)
  /\ Forall (fun l => no_nl l = true) [[]].
Proof.
  assert (H : 0 < 1) by lia. split; [exact H|].
  pose proof (proj2 (X7_run_returns_lines python_markdown 1 fresh) H) as E.
  split; [exact E|].
  exact (proj1 (X7_run_returns_lines python_markdown 1 fresh) _ _ _ E).
Defined.

(** X8. A document in which no line begins with three tildes goes
    through [run] as it is, and nothing is stored. *)
Theorem X8_no_fence_no_change lib fuel self lines :
  Forall (fun l => plain_line l = true) lines -> lines <> [] -> 0 < fuel ->
  run lib fuel self lines = Some (lines, check_codehilite self).
Proof. apply run_plain. Qed.

Lemma X8_witness :
  Forall (fun l => plain_line l = true)
    [str "~~ two tildes"; []; str "a ~~~ b"]
  /\ [str "~~ two tildes"; []; str "a ~~~ b"] <> []
  /\ 0 < 1
  /\ run python_markdown 1 fresh [str "~~ two tildes"; []; str "a ~~~ b"]
     = Some ([str "~~ two tildes"; []; str "a ~~~ b"], check_codehilite fresh).
Proof.
  assert (H1 : Forall (fun l => plain_line l = true)
                 [str "~~ two tildes"; []; str "a ~~~ b"])
    by (repeat constructor).
  assert (H2 : [str "~~ two tildes"; []; str "a ~~~ b"] <> [])
    by discriminate.
  assert (H3 : 0 < 1) by lia.
  split; [exact H1|]. split; [exact H2|]. split; [exact H3|].
  exact (X8_no_fence_no_change python_markdown 1 fresh _ H1 H2 H3).
Defined.

(** ** A second run *)

Section SecondRun.
Variable lib : Library.

Lemma take_while_tildes_all n : take_while is_tilde (tildes n) = tildes n.
Proof.
  unfold tildes. induction n as [|n IH]; [reflexivity|]. simpl.
  now rewrite IH.
Qed.

Lemma drop_while_tildes_all n : drop_while is_tilde (tildes n) = [].
Proof. induction n as [|n IH]; [reflexivity | exact IH]. Qed.

Lemma fence_line_tildes n : 3 <= n -> fence_line (tildes n) = Some n.
Proof.
  intros Hn. unfold fence_line, tilde_run, after_fence.
  rewrite take_while_tildes_all, drop_while_tildes_all, length_tildes.
  apply Nat.leb_le in Hn. now rewrite Hn.
Qed.

Lemma run_last_fence fuel self P l n :
  Forall (fun x => plain_line x = true) P ->
  fence_line l = Some n -> 0 < fuel ->
  run lib fuel self (P ++ [l])
  = Some (P ++ [l ++ tildes n], check_codehilite self).
Proof.
  intros HP Hl Hfuel.
  pose proof (fence_line_no_nl l n Hl) as Hnl.
  assert (Hne : l <> []).
  { apply fence_line_inv in Hl as (Hn & Hn3 & _). intros ->.
    unfold tilde_run in Hn. simpl in Hn. lia. }
  assert (Hnl' : no_nl (l ++ tildes n) = true)
    by (rewrite no_nl_app, Hnl; apply no_nl_tildes).
  destruct fuel as [|fuel]; [lia|]. unfold run.
  rewrite join_last. simpl main_loop.
  rewrite search_block_none_last by assumption.
  unfold fix_up.
  destruct (search_fence_last P l n HP Hl) as (f & Hf & Hg).
  rewrite Hf, Hg, last2_line by assumption. simpl text_of.
  rewrite <- app_assoc, search_block_none_last by assumption.
  rewrite <- join_last, split_join_nl; auto.
  + now destruct P.
  + apply Forall_app. split.
    * eapply Forall_impl; [|exact HP]. intros x Hx.
      now apply plain_line_inv in Hx.
    * now repeat constructor.
Qed.

Lemma check_codehilite_again self :
  checked_for_codehilite self = true -> check_codehilite self = self.
Proof. intros H. unfold check_codehilite. now rewrite H. Qed.

End SecondRun.

(** X9. A second run over the lines that [run] returned for a
    well-formed document changes nothing: the lines come back as they
    are and nothing more is stored.  This does not hold for every
    document: a last line of [n] tildes comes back with [n] tildes more
    at each run. *)
Theorem X9_second_run_changes_nothing lib :
  (forall self doc fuel fuel2 out self',
      (forall k, plain_line (get_placeholder lib k) = true) ->
      wf_doc doc = true -> doc <> [] -> blocks doc < fuel -> 0 < fuel2 ->
      run lib fuel self (doc_lines doc) = Some (out, self') ->
      run lib fuel2 self' out = Some (out, self'))
  /\ (forall self n fuel,
         3 <= n -> 0 < fuel ->
         run lib fuel self [tildes n]
         = Some ([tildes (n + n)], check_codehilite self)).
Proof.
  split.
  - intros self doc fuel fuel2 out self' Hph Hwf Hne Hf Hf2 H.
    rewrite (run_doc lib self doc fuel Hph Hwf Hne Hf) in H.
    injection H as <- <-.
    rewrite run_plain; auto.
    + f_equal. f_equal. apply check_codehilite_again. simpl.
      apply check_codehilite_checked.
    + now apply expected_lines_plain.
    + now apply expected_lines_nonempty.
  - intros self n fuel Hn Hf. rewrite tildes_add.
    apply (run_last_fence lib fuel self [] (tildes n) n); auto.
    now apply fence_line_tildes.
Qed.

Lemma X9_witness :
  (forall k, plain_line (get_placeholder python_markdown k) = true)
  /\ wf_doc demo_doc = true /\ demo_doc <> [] /\ blocks demo_doc < 3 /\ 0 < 1
  /\ (exists out self',
         run python_markdown 3 fresh (doc_lines demo_doc) = Some (out, self')
         /\ run python_markdown 1 self' out = Some (out, self'))
  /\ 3 <= 3
  /\ run python_markdown 1 fresh [tildes 3]
     = Some ([tildes (3 + 3)], check_codehilite fresh).
Proof.
  assert (H1 : forall k, plain_line (get_placeholder python_markdown k) = true)
    by exact placeholder_plain.
  assert (H2 : wf_doc demo_doc = true) by reflexivity.
  assert (H3 : demo_doc <> []) by discriminate.
  assert (H4 : blocks demo_doc < 3) by (vm_compute; lia).
  assert (H5 : 0 < 1) by lia.
  assert (H6 : 3 <= 3) by lia.
  split; [exact H1|]. split; [exact H2|]. split; [exact H3|].
  split; [exact H4|]. split; [exact H5|]. split.
  - destruct (run python_markdown 3 fresh (doc_lines demo_doc))
      as [[out self']|] eqn:H; [|vm_compute in H; discriminate H].
    exists out, self'. split; [reflexivity|].
    exact (proj1 (X9_second_run_changes_nothing python_markdown)
             fresh demo_doc 3 1 out self' H1 H2 H3 H4 H5 H).
  - split; [exact H6|].
    exact (proj2 (X9_second_run_changes_nothing python_markdown)
             fresh 3 1 H6 H5).
Defined.

(** ** The parts of a fence line *)

Section LineParts.

Lemma take_while_stops p l post :
  stops p post = true -> take_while p (l ++ post) = take_while p l.
Proof.
  intros H. induction l as [|c l IH]; simpl.
  - destruct post as [|d post]; [reflexivity|]. simpl in *.
    now destruct (p d).
  - now rewrite IH.
Qed.

Lemma drop_while_stops p l post :
  stops p post = true -> drop_while p (l ++ post) = drop_while p l ++ post.
Proof.
  intros H. induction l as [|c l IH]; simpl.
  - destruct post as [|d post]; [reflexivity|]. simpl in *.
    now destruct (p d).
  - now destruct (p c).
Qed.

Lemma drop_if_stops p l post :
  stops p post = true -> drop_if p (l ++ post) = drop_if p l ++ post.
Proof.
  intros H. destruct l as [|c l]; simpl.
  - destruct post as [|d post]; [reflexivity|]. simpl in *.
    now destruct (p d).
  - now destruct (p c).
Qed.

Lemma at_eol_stops p post :
  p nl = false -> at_eol post = true -> stops p post = true.
Proof.
  intros Hp H. destruct post as [|c post]; [reflexivity|]. simpl in *.
  apply eqb_true in H. subst c. now rewrite Hp.
Qed.

Lemma tilde_run_app l post :
  at_eol post = true -> tilde_run (l ++ post) = tilde_run l.
Proof.
  intros H. unfold tilde_run.
  now rewrite take_while_stops by (now apply at_eol_stops).
Qed.

Lemma after_fence_app l post :
  at_eol post = true -> after_fence (l ++ post) = after_fence l ++ post.
Proof.
  intros H. unfold after_fence.
  now rewrite !drop_while_stops by (now apply at_eol_stops).
Qed.

Lemma lang_of_app r post :
  at_eol post = true -> lang_of (r ++ post) = lang_of r.
Proof.
  intros H. unfold lang_of.
  rewrite !drop_if_stops by (now apply at_eol_stops).
  now rewrite take_while_stops by (now apply at_eol_stops).
Qed.

Lemma after_tag_app r post :
  at_eol post = true -> after_tag (r ++ post) = after_tag r ++ post.
Proof.
  intros H. unfold after_tag.
  rewrite !drop_if_stops by (now apply at_eol_stops).
  rewrite drop_while_stops by (now apply at_eol_stops).
  now rewrite drop_if_stops by (now apply at_eol_stops).
Qed.

(** [FENCE_RE] at the beginning of a line that is a fence line. *)
Lemma fence_here b a :
  at_bol b = true -> 3 <= tilde_run a ->
  at_eol (after_tag (after_fence a)) = true ->
  exists b1 tg,
    exec FENCE_RE b a no_groups finish
    = Some (b1, after_tag (after_fence a),
            mkGroups (Some (tildes (tilde_run a))) (Some tg)
                     (Some (lang_of (after_fence a))) None).
Proof.
  intros Hb Hn Hrest.
  assert (HT : take_while is_tilde a = tildes (tilde_run a))
    by apply forallb_tildes, take_while_all.
  do 2 eexists. unfold FENCE_RE, fence_group.
  rewrite seq_step, grp_step, seq_step, bol_step by assumption.
  apply many_first; [exact Hn|].
  rewrite captured_take_while, HT.
  rewrite seq_step. apply many_first; [lia|].
  fold (after_fence a). rewrite seq_step. unfold tag_group.
  rewrite grp_step, seq_step. apply maybe_first.
  rewrite seq_step. apply maybe_first.
  rewrite seq_step, grp_step. apply many_first; [lia|].
  rewrite captured_take_while.
  apply maybe_first. fold (after_tag (after_fence a)).
  rewrite eol_step by assumption. reflexivity.
Qed.

Lemma fence_line_at b l n post :
  at_bol b = true -> fence_line l = Some n -> at_eol post = true ->
  exists tg,
    exec FENCE_RE b (l ++ post) no_groups finish
    = Some (rev l ++ b, post,
            mkGroups (Some (tildes n)) (Some tg)
                     (Some (lang_of (after_fence l))) None).
Proof.
  intros Hb Hl Hpost. apply fence_line_inv in Hl as (Hn & Hn3 & Hrest).
  destruct (fence_here b (l ++ post)) as (b1 & tg & E); auto.
  - rewrite tilde_run_app by assumption. lia.
  - now rewrite after_fence_app, after_tag_app, Hrest.
  - rewrite after_fence_app, after_tag_app, Hrest, tilde_run_app,
      lang_of_app, <- Hn in E by assumption.
    change ([] ++ post) with post in E.
    exists tg. rewrite E.
    now rewrite (exec_result_before _ _ _ _ _ _ _ E).
Qed.

Lemma one_or_none_all p s : one_or_none p s -> forallb p s = true.
Proof. intros [->|(c & -> & Hc)]; simpl; [easy | now rewrite Hc]. Qed.

Lemma stops_app p q x r :
  (forall c, q c = true -> p c = false) -> forallb q x = true ->
  stops p r = true -> stops p (x ++ r) = true.
Proof.
  intros Hd Hx Hr. destruct x as [|c x]; [exact Hr|]. simpl in *.
  apply andb_true_iff in Hx as [Hc _]. now rewrite (Hd c Hc).
Qed.

Lemma take_while_self p x : forallb p x = true -> take_while p x = x.
Proof.
  induction x as [|c x IH]; simpl; [easy|]. intros H.
  apply andb_true_iff in H as [Hc Hx]. now rewrite Hc, IH.
Qed.

Lemma drop_while_self p x : forallb p x = true -> drop_while p x = [].
Proof.
  induction x as [|c x IH]; simpl; [easy|]. intros H.
  apply andb_true_iff in H as [Hc Hx]. now rewrite Hc, IH.
Qed.

Lemma drop_while_skip p x r :
  forallb p x = true -> drop_while p (x ++ r) = drop_while p r.
Proof.
  induction x as [|c x IH]; simpl; [easy|]. intros H.
  apply andb_true_iff in H as [Hc Hx]. now rewrite Hc, IH.
Qed.

Lemma take_while_prefix p x r :
  forallb p x = true -> stops p r = true -> take_while p (x ++ r) = x.
Proof. intros Hx Hr. now rewrite take_while_stops, take_while_self. Qed.

Lemma drop_while_prefix p x r :
  forallb p x = true -> stops p r = true -> drop_while p (x ++ r) = r.
Proof. intros Hx Hr. now rewrite drop_while_stops, drop_while_self. Qed.

Lemma drop_if_prefix p x r :
  one_or_none p x -> stops p r = true -> drop_if p (x ++ r) = r.
Proof.
  intros [->|(c & -> & Hc)] Hr; simpl.
  - destruct r as [|d r]; [reflexivity|]. simpl in *. now destruct (p d).
  - now rewrite Hc.
Qed.

Lemma forallb_tildes_all n : forallb is_tilde (tildes n) = true.
Proof. unfold tildes. induction n; simpl; auto. Qed.

Lemma forallb_spaces_all n : forallb is_space (spaces n) = true.
Proof. unfold spaces. induction n; simpl; auto. Qed.

(** The classes of a fence line exclude each other. *)
Lemma not_class (q p : ascii -> bool) c0 :
  (forall c, q c = true -> c = c0) -> p c0 = false ->
  forall c, q c = true -> p c = false.
Proof. intros Hq Hp c Hc. now rewrite (Hq c Hc). Qed.

Lemma class_not (q p : ascii -> bool) c0 :
  (forall c, p c = true -> c = c0) -> q c0 = false ->
  forall c, q c = true -> p c = false.
Proof.
  intros Hp Hq c Hc. destruct (p c) eqn:E; [|reflexivity].
  apply Hp in E. subst c. now rewrite Hq in Hc.
Qed.

Lemma is_tilde_eq c : is_tilde c = true -> c = "~"%char.
Proof. apply eqb_true. Qed.
Lemma is_space_eq c : is_space c = true -> c = " "%char.
Proof. apply eqb_true. Qed.
Lemma is_lbrace_eq c : is_lbrace c = true -> c = "{"%char.
Proof. apply eqb_true. Qed.
Lemma is_dot_eq c : is_dot c = true -> c = "."%char.
Proof. apply eqb_true. Qed.
Lemma is_rbrace_eq c : is_rbrace c = true -> c = "}"%char.
Proof. apply eqb_true. Qed.

(** The tag group at the head of a text, followed by [t]. *)
Lemma tag_at_head tg L t :
  tag_parse tg L ->
  stops is_lbrace t = true -> stops is_dot t = true ->
  stops is_langchar t = true -> stops is_rbrace t = true ->
  lang_of (tg ++ t) = L /\ after_tag (tg ++ t) = t.
Proof.
  intros (ob & od & cb & -> & Hob & Hod & HL & Hcb) T1 T2 T3 T4.
  pose proof (one_or_none_all _ _ Hod) as Aod.
  pose proof (one_or_none_all _ _ Hcb) as Acb.
  rewrite <- !app_assoc. unfold lang_of, after_tag.
  rewrite (drop_if_prefix is_lbrace ob); auto.
  2:{ apply (stops_app _ is_dot); auto.
      { apply (not_class _ _ "."%char); [exact is_dot_eq | reflexivity]. }
      apply (stops_app _ is_langchar); auto.
      { apply (class_not _ _ "{"%char); [exact is_lbrace_eq | reflexivity]. }
      apply (stops_app _ is_rbrace); auto.
      apply (not_class _ _ "}"%char); [exact is_rbrace_eq | reflexivity]. }
  rewrite (drop_if_prefix is_dot od); auto.
  2:{ apply (stops_app _ is_langchar); auto.
      { apply (class_not _ _ "."%char); [exact is_dot_eq | reflexivity]. }
      apply (stops_app _ is_rbrace); auto.
      apply (not_class _ _ "}"%char); [exact is_rbrace_eq | reflexivity]. }
  assert (S3 : stops is_langchar (cb ++ t) = true).
  { apply (stops_app _ is_rbrace); auto.
    apply (not_class _ _ "}"%char); [exact is_rbrace_eq | reflexivity]. }
  rewrite take_while_prefix, drop_while_prefix by assumption.
  split; [reflexivity|]. now apply drop_if_prefix.
Qed.

Lemma tag_parse_nil L : tag_parse [] L -> L = [].
Proof.
  intros (ob & od & cb & E & _). symmetry in E.
  apply app_eq_nil in E as [_ E]. apply app_eq_nil in E as [_ E].
  now apply app_eq_nil in E as [E _].
Qed.

Lemma tag_parse_head c tg L :
  tag_parse (c :: tg) L -> is_space c = false.
Proof.
  intros (ob & od & cb & E & Hob & Hod & HL & Hcb).
  assert (H : forallb (fun x => negb (is_space x)) (c :: tg) = true).
  { rewrite E, !forallb_app.
    assert (A : forall (p : ascii -> bool) x,
               (forall d, p d = true -> is_space d = false) ->
               forallb p x = true ->
               forallb (fun d => negb (is_space d)) x = true).
    { intros p x Hp. induction x as [|d x IH]; simpl; [easy|].
      intros H. apply andb_true_iff in H as [Hd Hx].
      now rewrite (Hp d Hd), IH. }
    rewrite (A is_lbrace), (A is_dot), (A is_langchar), (A is_rbrace);
      auto using one_or_none_all.
    - apply (not_class _ _ "}"%char); [exact is_rbrace_eq | reflexivity].
    - apply (class_not _ _ " "%char); [exact is_space_eq | reflexivity].
    - apply (not_class _ _ "."%char); [exact is_dot_eq | reflexivity].
    - apply (not_class _ _ "{"%char); [exact is_lbrace_eq | reflexivity]. }
  simpl in H. apply andb_true_iff in H as [H _].
  now destruct (is_space c).
Qed.

Lemma stops_tag p tg L r :
  tag_parse tg L ->
  p "{"%char = false -> p "."%char = false -> p "}"%char = false ->
  (forall c, is_langchar c = true -> p c = false) ->
  stops p r = true -> stops p (tg ++ r) = true.
Proof.
  intros (ob & od & cb & -> & Hob & Hod & HL & Hcb) P1 P2 P3 P4 Hr.
  rewrite <- !app_assoc.
  apply (stops_app _ is_lbrace); auto using one_or_none_all.
  { now apply (not_class _ _ "{"%char); [exact is_lbrace_eq|]. }
  apply (stops_app _ is_dot); auto using one_or_none_all.
  { now apply (not_class _ _ "."%char); [exact is_dot_eq|]. }
  apply (stops_app _ is_langchar); auto.
  apply (stops_app _ is_rbrace); auto using one_or_none_all.
  now apply (not_class _ _ "}"%char); [exact is_rbrace_eq|].
Qed.

(** The parts of a line made of tildes, blanks, a tag and blanks, read
    back by the functions on lines. *)
Lemma line_parse n s1 tg L s2 t :
  tag_parse tg L -> at_eol t = true ->
  tilde_run (tildes n ++ spaces s1 ++ tg ++ spaces s2 ++ t) = n
  /\ lang_of (after_fence (tildes n ++ spaces s1 ++ tg ++ spaces s2 ++ t))
     = L
  /\ drop_while is_space
       (after_tag
          (after_fence (tildes n ++ spaces s1 ++ tg ++ spaces s2 ++ t)))
     = t
  /\ (s2 = 0 ->
      after_tag (after_fence (tildes n ++ spaces s1 ++ tg ++ spaces s2 ++ t))
      = t).
Proof.
  intros Htag Ht.
  assert (St : forall p, p nl = false -> p " "%char = false ->
                         stops p (spaces s2 ++ t) = true).
  { intros p Hp Hs. apply (stops_app _ is_space);
      auto using forallb_spaces_all, at_eol_stops.
    now apply (not_class _ _ " "%char); [exact is_space_eq|]. }
  assert (S1 : stops is_tilde (spaces s1 ++ tg ++ spaces s2 ++ t) = true).
  { apply (stops_app _ is_space); auto using forallb_spaces_all.
    { apply (not_class _ _ " "%char); [exact is_space_eq | reflexivity]. }
    apply (stops_tag _ tg L); auto.
    apply (class_not _ _ "~"%char); [exact is_tilde_eq | reflexivity]. }
  assert (Hsp : drop_while is_space t = t).
  { apply (drop_while_prefix is_space []); auto.
    now apply at_eol_stops. }
  assert (Haf : after_fence (tildes n ++ spaces s1 ++ tg ++ spaces s2 ++ t)
                = drop_while is_space (tg ++ spaces s2 ++ t)).
  { unfold after_fence.
    rewrite drop_while_prefix by auto using forallb_tildes_all.
    apply drop_while_skip, forallb_spaces_all. }
  split.
  { unfold tilde_run.
    rewrite take_while_prefix by auto using forallb_tildes_all.
    apply length_tildes. }
  rewrite Haf. destruct tg as [|c tg].
  - apply tag_parse_nil in Htag as HL. subst L. simpl app.
    rewrite drop_while_prefix
      by auto using forallb_spaces_all, at_eol_stops.
    destruct (tag_at_head [] [] t) as [E1 E2];
      auto using at_eol_stops. simpl in E1, E2.
    rewrite E1, E2. now rewrite Hsp.
  - replace (drop_while is_space ((c :: tg) ++ spaces s2 ++ t))
      with ((c :: tg) ++ spaces s2 ++ t)
      by (simpl; now rewrite (tag_parse_head c tg L Htag)).
    destruct (tag_at_head (c :: tg) L (spaces s2 ++ t)) as [E1 E2];
      auto.
    rewrite E1, E2. split; [reflexivity|]. split.
    + now rewrite drop_while_prefix
        by auto using forallb_spaces_all, at_eol_stops.
    + now intros ->.
Qed.

End LineParts.

(** ** Matches as lines of the text *)

Section MatchLines.

Lemma unlines_tail ls : nl :: unlines ls = tail_text ls ++ [nl].
Proof.
  induction ls as [|l ls IH]; [reflexivity|].
  change (unlines (l :: ls)) with ((l ++ [nl]) ++ unlines ls).
  change (tail_text (l :: ls)) with ((nl :: l) ++ tail_text ls).
  rewrite <- !app_assoc. simpl. f_equal. f_equal. exact IH.
Qed.

Lemma unlines_split x : unlines (split [nl] x) = x ++ [nl].
Proof.
  pose proof (unlines_tail (split [nl] x)) as H.
  rewrite tail_text_split in H. now injection H.
Qed.

(** A text that ends at the beginning of a line is made of whole
    lines. *)
Lemma lines_before pre :
  at_bol (rev pre) = true ->
  exists A, unlines A = pre /\ Forall (fun l => no_nl l = true) A.
Proof.
  intros H. apply at_bol_rev in H as [->|(pre' & ->)].
  - exists []. now split.
  - exists (split [nl] pre'). split;
      [apply unlines_split | apply split_nl_pieces].
Qed.

Lemma lines_within body :
  body = [] \/ (exists body', body = body' ++ [nl]) ->
  exists B, unlines B = body /\ Forall (fun l => no_nl l = true) B.
Proof.
  intros [->|(body' & ->)].
  - exists []. now split.
  - exists (split [nl] body'). split;
      [apply unlines_split | apply split_nl_pieces].
Qed.

Lemma lines_after post :
  at_eol post = true ->
  exists C, tail_text C = post /\ Forall (fun l => no_nl l = true) C.
Proof.
  intros H. apply at_eol_cases in H as [->|(post' & ->)].
  - exists []. now split.
  - exists (split [nl] post'). split;
      [apply tail_text_split | apply split_nl_pieces].
Qed.

Lemma tag_parse_empty : tag_parse [] [].
Proof. exists [], [], []. repeat split; now left. Qed.

Lemma opener_intro n s1 tg L s2 :
  3 <= n -> tag_parse tg L ->
  opener (tildes n ++ spaces s1 ++ tg ++ spaces s2) = Some (n, L)
  /\ no_nl (tildes n ++ spaces s1 ++ tg ++ spaces s2) = true.
Proof.
  intros Hn Htag. split.
  - destruct (line_parse n s1 tg L s2 [] Htag eq_refl) as (E1 & E2 & E3 & _).
    rewrite !app_nil_r in *. unfold opener. rewrite E1, E2, E3.
    apply Nat.leb_le in Hn. now rewrite Hn.
  - rewrite !no_nl_app, no_nl_tildes, (tag_parse_no_nl tg L Htag).
    now rewrite !no_nl_spaces by apply forallb_spaces_all.
Qed.

Lemma fence_line_intro n s1 tg L :
  3 <= n -> tag_parse tg L ->
  fence_line (tildes n ++ spaces s1 ++ tg) = Some n
  /\ lang_of (after_fence (tildes n ++ spaces s1 ++ tg)) = L.
Proof.
  intros Hn Htag.
  destruct (line_parse n s1 tg L 0 [] Htag eq_refl) as (E1 & E2 & _ & E4).
  simpl spaces in *. simpl app in *. rewrite !app_nil_r in *.
  split; [|exact E2]. unfold fence_line. rewrite E1, (E4 eq_refl).
  apply Nat.leb_le in Hn. now rewrite Hn.
Qed.

(** A match of [FENCED_BLOCK_RE] is an opening line, the lines of a
    body and a closing line, between whole lines. *)
Lemma block_match_lines s pos m :
  search FENCED_BLOCK_RE s pos = Some m ->
  exists A o B c C n L,
    s = unlines A ++ (o ++ nl :: unlines B ++ c) ++ tail_text C
    /\ Forall (fun l => no_nl l = true) (A ++ (o :: B ++ [c]) ++ C)
    /\ opener o = Some (n, L) /\ closer n c = true /\ 3 <= n
    /\ m_start m = length (unlines A)
    /\ m_end m = length (unlines A) + length (o ++ nl :: unlines B ++ c)
    /\ Nat.min pos (length s) <= length (unlines A)
    /\ group m fence = Some (tildes n)
    /\ text_of (group m lang) = L
    /\ group m code = Some (unlines B).
Proof.
  intros H. apply search_sound in H
    as (pre & M & post & -> & Hs & He & Hpos & D).
  apply den_block in D
    as (n & s1 & tg & s2 & body & s3 & otag & olang
        & -> & Hb & Hn & Htag & Hbody & Hpost & Hg).
  destruct (lines_before pre Hb) as (A & <- & HA).
  destruct (lines_within body Hbody) as (B & <- & HB).
  destruct (lines_after post Hpost) as (C & <- & HC).
  assert (HL : exists L, tag_parse tg L /\ text_of olang = L).
  { destruct Htag as [(-> & _ & ->)|(L & HL & _ & ->)].
    - exists []. split; [apply tag_parse_empty | reflexivity].
    - now exists L. }
  destruct HL as (L & HL & HLo).
  destruct (opener_intro n s1 tg L s2 Hn HL) as (Ho & Hno).
  exists A, (tildes n ++ spaces s1 ++ tg ++ spaces s2), B,
    (tildes n ++ spaces s3), C, n, L.
  assert (Hc : closer n (tildes n ++ spaces s3) = true)
    by apply closer_intro, forallb_spaces_all.
  assert (E : tildes n ++ spaces s1 ++ tg ++ spaces s2 ++ nl :: unlines B
                ++ tildes n ++ spaces s3
              = (tildes n ++ spaces s1 ++ tg ++ spaces s2)
                  ++ nl :: unlines B ++ tildes n ++ spaces s3)
    by now rewrite <- !app_assoc.
  rewrite E in *. unfold group. rewrite Hg. simpl get_group.
  repeat split; auto.
  apply Forall_app. split; [exact HA|]. apply Forall_app. split; [|exact HC].
  constructor; [exact Hno|]. apply Forall_app. split; [exact HB|].
  constructor; [|constructor].
  rewrite no_nl_app, no_nl_tildes.
  now rewrite no_nl_spaces by apply forallb_spaces_all.
Qed.

(** A match of [FENCE_RE] is a fence line between whole lines. *)
Lemma fence_match_line s pos f :
  search FENCE_RE s pos = Some f ->
  exists A l C n,
    s = unlines A ++ l ++ tail_text C
    /\ Forall (fun x => no_nl x = true) (A ++ l :: C)
    /\ fence_line l = Some n
    /\ m_start f = length (unlines A)
    /\ m_end f = length (unlines A) + length l
    /\ Nat.min pos (length s) <= length (unlines A)
    /\ group f fence = Some (tildes n)
    /\ group f lang = Some (lang_of (after_fence l)).
Proof.
  intros H. apply search_sound in H
    as (pre & M & post & -> & Hs & He & Hpos & D).
  apply den_fence_re in D
    as (n & s1 & tg & L & -> & Hb & Hn & Htag & Hpost & Hg).
  destruct (lines_before pre Hb) as (A & <- & HA).
  destruct (lines_after post Hpost) as (C & <- & HC).
  destruct (fence_line_intro n s1 tg L Hn Htag) as (Hl & HLl).
  exists A, (tildes n ++ spaces s1 ++ tg), C, n.
  unfold group. rewrite Hg, HLl. simpl get_group.
  repeat split; auto.
  apply Forall_app. split; [exact HA|]. constructor; [|exact HC].
  now apply (fence_line_no_nl _ n).
Qed.

Lemma text_lines A l C :
  Forall (fun x => no_nl x = true) (A ++ l :: C) ->
  split [nl] (unlines A ++ l ++ tail_text C) = A ++ l :: C.
Proof.
  intros H. rewrite <- join_decompose. apply split_join_nl; auto.
  now destruct A.
Qed.

End MatchLines.

(** ** The body of a match is the shortest *)

Section Shortest.

Lemma search_exec r s pos m :
  search r s pos = Some m ->
  exists pre y b' a',
    s = pre ++ y /\ length pre = m_start m
    /\ exec r (rev pre) y no_groups finish = Some (b', a', m_groups m).
Proof.
  unfold search. intros H.
  apply scan_sound in H as (x & y & b' & a' & gs & Hs & E & ->).
  exists (firstn pos s ++ x), y, b', a'. simpl.
  rewrite rev_app_distr, <- app_assoc, <- Hs, firstn_skipn.
  repeat split; auto.
  now rewrite !length_app, !length_rev, Nat.add_comm.
Qed.

Lemma same_prefix (x y u v : text) :
  x ++ y = u ++ v -> length x = length u -> x = u /\ y = v.
Proof.
  revert u. induction x as [|c x IH]; intros [|d u] E H; try discriminate.
  - now split.
  - simpl in E. injection E as -> E. injection H as H.
    destruct (IH u E H) as [-> ->]. now split.
Qed.

Lemma unlines_inj B : forall B0,
  Forall (fun l => no_nl l = true) B -> Forall (fun l => no_nl l = true) B0 ->
  unlines B = unlines B0 -> B = B0.
Proof.
  induction B as [|l B IH]; intros [|l0 B0] HB HB0 E.
  - reflexivity.
  - exfalso. change (unlines (l0 :: B0)) with ((l0 ++ [nl]) ++ unlines B0) in E.
    rewrite <- app_assoc in E. now destruct l0.
  - exfalso. change (unlines (l :: B)) with ((l ++ [nl]) ++ unlines B) in E.
    rewrite <- app_assoc in E. now destruct l.
  - inversion HB; subst. inversion HB0; subst.
    change (unlines (l :: B)) with ((l ++ [nl]) ++ unlines B) in E.
    change (unlines (l0 :: B0)) with ((l0 ++ [nl]) ++ unlines B0) in E.
    rewrite <- !app_assoc in E. simpl in E.
    apply first_nl_unique in E as [-> E]; auto. f_equal. now apply IH.
Qed.

Lemma tail_text_cons l R : tail_text (l :: R) = nl :: l ++ tail_text R.
Proof. reflexivity. Qed.

Lemma block_text o B c C :
  (o ++ nl :: unlines B ++ c) ++ tail_text C = o ++ tail_text (B ++ c :: C).
Proof.
  rewrite tail_text_app, tail_text_cons, <- app_assoc. f_equal.
  replace ((nl :: unlines B ++ c) ++ tail_text C)
    with ((nl :: unlines B) ++ c ++ tail_text C)
    by (simpl; now rewrite <- app_assoc).
  rewrite unlines_tail, <- app_assoc. reflexivity.
Qed.

Lemma first_closer n B : forall c C,
  closer n c = true ->
  exists B0 c0 C0,
    B ++ c :: C = B0 ++ c0 :: C0 /\ closer n c0 = true
    /\ Forall (fun l => closer n l = false) B0.
Proof.
  induction B as [|l B IH]; intros c C Hc.
  - exists [], c, C. now repeat split.
  - destruct (closer n l) eqn:El.
    + exists [], l, (B ++ c :: C). now repeat split.
    + destruct (IH c C Hc) as (B0 & c0 & C0 & E & Hc0 & HB0).
      exists (l :: B0), c0, C0. simpl. rewrite E.
      repeat split; auto.
Qed.

(** The body of a match holds no line that would close the block. *)
Lemma block_body_shortest s pos m A o B c C n L :
  search FENCED_BLOCK_RE s pos = Some m ->
  s = unlines A ++ (o ++ nl :: unlines B ++ c) ++ tail_text C ->
  Forall (fun l => no_nl l = true) (A ++ (o :: B ++ [c]) ++ C) ->
  opener o = Some (n, L) -> closer n c = true ->
  m_start m = length (unlines A) -> group m code = Some (unlines B) ->
  Forall (fun l => closer n l = false) B.
Proof.
  intros H Es Hnl Ho Hc Hst Hcode.
  apply search_exec in H as (pre & y & b' & a' & Es' & Hlen & Ex).
  rewrite Es in Es'. symmetry in Es'.
  apply same_prefix in Es' as [-> ->]; [|lia].
  destruct (first_closer n B c C Hc) as (B0 & c0 & C0 & E & Hc0 & HB0).
  assert (HBn : Forall (fun l => no_nl l = true) (B ++ c :: C)).
  { apply Forall_app in Hnl as [_ Hnl].
    replace ((o :: B ++ [c]) ++ C) with (o :: B ++ c :: C) in Hnl
      by (simpl; now rewrite <- app_assoc).
    now inversion Hnl. }
  assert (HB : Forall (fun l => no_nl l = true) B)
    by now apply Forall_app in HBn as [HB _].
  assert (HB0n : Forall (fun l => no_nl l = true) B0).
  { assert (X : Forall (fun l => no_nl l = true) (B0 ++ c0 :: C0))
      by (rewrite <- E; exact HBn).
    now apply Forall_app in X as [H0 _]. }
  assert (Ey : (o ++ nl :: unlines B ++ c) ++ tail_text C
               = o ++ nl :: unlines B0 ++ c0 ++ tail_text C0).
  { transitivity (o ++ tail_text (B0 ++ c0 :: C0)).
    - rewrite block_text. f_equal. f_equal. exact E.
    - rewrite <- block_text, <- !app_assoc. simpl.
      now rewrite <- !app_assoc. }
  rewrite Ey in Ex.
  destruct (block_at (rev (unlines A)) o B0 c0 (tail_text C0) n L)
    as (b1 & tg & Ex'); auto using at_bol_unlines, at_eol_tail_text.
  { rewrite Forall_forall in *. intros l Hl. split; auto. }
  rewrite Ex' in Ex. injection Ex as _ _ Eg.
  unfold group in Hcode. rewrite <- Eg in Hcode. simpl in Hcode.
  injection Hcode as Hcode.
  apply unlines_inj in Hcode; auto. now subst B0.
Qed.

End Shortest.

(** X10. Whatever [FENCED_BLOCK_RE] matches is a block made of whole
    lines of the text: a line that opens a block with a run of three or
    more tildes, the lines of the body, and a line made of the same run
    of tildes followed by blanks only.  The groups of the match are the
    run of tildes, the tag of the opening line and the lines of the body,
    each with its newline; no line of the body would close the block. *)
Theorem X10_every_match_is_a_block s pos m :
  search FENCED_BLOCK_RE s pos = Some m ->
  exists A o B c C n L,
    split [nl] s = A ++ o :: B ++ c :: C
    /\ opener o = Some (n, L) /\ closer n c = true
    /\ m_start m = length (unlines A)
    /\ Nat.min pos (length s) <= m_start m
    /\ matched m s = join [nl] (o :: B ++ [c])
    /\ group m fence = Some (tildes n)
    /\ text_of (group m lang) = L
    /\ group m code = Some (unlines B)
    /\ Forall (fun l => closer n l = false) B.
Proof.
  intros H. pose proof H as H'. apply block_match_lines in H
    as (A & o & B & c & C & n & L & Es & Hnl & Ho & Hc & Hn & Hs & He
        & Hpos & Hf & HL & Hcode).
  pose proof (block_body_shortest s pos m A o B c C n L H' Es Hnl Ho Hc
                Hs Hcode) as Hshort.
  subst s. exists A, o, B, c, C, n, L. repeat split; auto.
  - rewrite <- join_block, split_join_nl; auto.
    + simpl. now rewrite <- app_assoc.
    + now destruct A.
  - now rewrite Hs.
  - rewrite matched_app by assumption.
    now rewrite join_cons_tail, tail_text_body.
Qed.

Lemma X10_witness :
  let s := join [nl] (lines_of ["text"; "~~~~ {.py}  "; "a"; "~~~"; "~~~~ ";
                                "more"]) in
  exists m,
    search FENCED_BLOCK_RE s 0 = Some m
    /\ exists A o B c C n L,
         split [nl] s = A ++ o :: B ++ c :: C
         /\ opener o = Some (n, L) /\ closer n c = true
         /\ m_start m = length (unlines A)
         /\ Nat.min 0 (length s) <= m_start m
         /\ matched m s = join [nl] (o :: B ++ [c])
         /\ group m fence = Some (tildes n)
         /\ text_of (group m lang) = L
         /\ group m code = Some (unlines B)
         /\ Forall (fun l => closer n l = false) B.
Proof.
  cbv zeta.
  destruct (search FENCED_BLOCK_RE
              (join [nl] (lines_of ["text"; "~~~~ {.py}  "; "a"; "~~~";
                                    "~~~~ "; "more"])) 0)
    as [m|] eqn:H; [|vm_compute in H; discriminate H].
  exists m. split; [reflexivity|].
  exact (X10_every_match_is_a_block _ 0 m H).
Defined.

(** ** The search for a dangling fence *)

Section FenceSearch.

Lemma same_line x y post a1 :
  no_nl x = true -> no_nl y = true -> at_eol post = true ->
  at_eol a1 = true -> x ++ post = y ++ a1 -> x = y.
Proof.
  intros Hx Hy Hp Ha E.
  apply at_eol_cases in Hp as [->|(post' & ->)];
    apply at_eol_cases in Ha as [->|(a' & ->)].
  - now rewrite !app_nil_r in E.
  - rewrite app_nil_r in E. now apply no_nl_not_app in E.
  - rewrite app_nil_r in E. symmetry in E. now apply no_nl_not_app in E.
  - now apply first_nl_unique in E.
Qed.

Lemma fence_fails b x post :
  no_nl x = true -> fence_line x = None -> at_eol post = true ->
  exec FENCE_RE b (x ++ post) no_groups finish = None.
Proof.
  intros Hx Hf Hp.
  destruct (exec FENCE_RE b (x ++ post) no_groups finish) as [res|] eqn:E;
    [|reflexivity].
  exfalso. apply exec_sound in E as (x0 & a1 & gs' & Ha & D & _).
  apply den_fence_re in D
    as (n & s1 & tg & L & -> & _ & Hn & Htag & Ha1 & _).
  destruct (fence_line_intro n s1 tg L Hn Htag) as (Hl & _).
  apply same_line in Ha; auto.
  - subst x. now rewrite Hl in Hf.
  - now apply (fence_line_no_nl _ n).
Qed.

Lemma scan_skip_lines r P :
  (forall c b' a', Ascii.eqb c nl = false ->
                   exec r (c :: b') a' no_groups finish = None) ->
  Forall (fun l => no_nl l = true
                   /\ forall b rest,
                        exec r b (l ++ nl :: rest) no_groups finish = None)
         P ->
  forall b rest,
    scan r b (unlines P ++ rest) = scan r (rev (unlines P) ++ b) rest.
Proof.
  intros Hr HP. induction HP as [|l P [Hl Hx] _ IH]; intros b rest;
    [reflexivity|].
  change (unlines (l :: P)) with ((l ++ [nl]) ++ unlines P).
  rewrite <- !app_assoc. simpl.
  rewrite scan_skip_line by auto. rewrite IH.
  f_equal. rewrite !rev_app_distr. simpl. now rewrite <- !app_assoc.
Qed.

Lemma search_fence_first P l R n :
  Forall (fun x => no_nl x = true /\ fence_line x = None) P ->
  fence_line l = Some n ->
  exists tg,
    search FENCE_RE (join [nl] (P ++ l :: R)) 0
    = Some (mkMatch (length (unlines P)) (length (unlines P) + length l)
              (mkGroups (Some (tildes n)) (Some tg)
                        (Some (lang_of (after_fence l))) None)).
Proof.
  intros HP Hl. rewrite join_decompose. unfold search.
  simpl firstn. simpl skipn. simpl rev.
  rewrite scan_skip_lines.
  - destruct (fence_line_at (rev (unlines P) ++ []) l n (tail_text R))
      as (tg & E); auto using at_eol_tail_text.
    { rewrite app_nil_r. apply at_bol_unlines. }
    exists tg. rewrite (scan_here _ _ _ _ _ _ E). f_equal. f_equal.
    + now rewrite app_nil_r, length_rev.
    + rewrite app_nil_r, length_app, !length_rev. lia.
  - intros c b' a' Hc. now apply fence_needs_bol.
  - eapply Forall_impl; [|exact HP]. intros x [Hx Hf]. split; [exact Hx|].
    intros b rest. now apply fence_fails.
Qed.

Lemma search_fence_none lines pos :
  Forall (fun x => no_nl x = true /\ fence_line x = None) lines ->
  search FENCE_RE (join [nl] lines) pos = None.
Proof.
  intros H.
  destruct (search FENCE_RE (join [nl] lines) pos) as [f|] eqn:E;
    [|reflexivity].
  exfalso. apply fence_match_line in E
    as (A & l & C & n & Es & Hnl & Hl & _).
  assert (Hin : In l (split [nl] (join [nl] lines))).
  { rewrite Es, text_lines by assumption. apply in_elt. }
  destruct lines as [|x lines].
  - simpl in Hin. destruct Hin as [<-|[]]. discriminate Hl.
  - rewrite split_join_nl in Hin.
    + rewrite Forall_forall in H. apply H in Hin as [_ Hin].
      now rewrite Hl in Hin.
    + discriminate.
    + eapply Forall_impl; [|exact H]. now intros y [Hy _].
Qed.

End FenceSearch.

(** X11. The search for a dangling fence finds fence lines only: whole
    lines made of three or more tildes, blanks and a tag, with nothing
    after the tag, that begin at or after the offset of the search.
    From the beginning of a text it finds the first such line, and it
    finds nothing in a text without such a line. *)
Theorem X11_fence_search_finds_fence_lines :
  (forall s pos f,
      search FENCE_RE s pos = Some f ->
      exists A l C n,
        split [nl] s = A ++ l :: C
        /\ fence_line l = Some n
        /\ m_start f = length (unlines A)
        /\ Nat.min pos (length s) <= m_start f
        /\ matched f s = l
        /\ group f fence = Some (tildes n)
        /\ group f lang = Some (lang_of (after_fence l)))
  /\ (forall P l R n,
         Forall (fun x => no_nl x = true /\ fence_line x = None) P ->
         fence_line l = Some n ->
         exists f,
           search FENCE_RE (join [nl] (P ++ l :: R)) 0 = Some f
           /\ m_start f = length (unlines P)
           /\ m_end f = length (unlines P) + length l
           /\ group f fence = Some (tildes n)
           /\ group f lang = Some (lang_of (after_fence l)))
  /\ (forall lines pos,
         Forall (fun x => no_nl x = true /\ fence_line x = None) lines ->
         search FENCE_RE (join [nl] lines) pos = None).
Proof.
  split; [|split].
  - intros s pos f H. apply fence_match_line in H
      as (A & l & C & n & -> & Hnl & Hl & Hs & He & Hpos & Hf & HL).
    exists A, l, C, n. repeat split; auto.
    + now apply text_lines.
    + now rewrite Hs.
    + now apply matched_app.
  - intros P l R n HP Hl.
    destruct (search_fence_first P l R n HP Hl) as (tg & E).
    rewrite E. eexists. repeat split; reflexivity.
  - apply search_fence_none.
Qed.

Lemma X11_witness :
  let P := [str "~~~ py "; str "~~ x"; str "~~~ a b"] in
  Forall (fun x => no_nl x = true /\ fence_line x = None) P
  /\ fence_line (str "~~~~  {.py}") = Some 4
  /\ (exists f,
         search FENCE_RE (join [nl] (P ++ str "~~~~  {.py}" :: [str "~~~"])) 0
         = Some f
         /\ m_start f = length (unlines P)
         /\ m_end f = length (unlines P) + length (str "~~~~  {.py}")
         /\ group f fence = Some (tildes 4)
         /\ group f lang = Some (lang_of (after_fence (str "~~~~  {.py}"))))
  /\ search FENCE_RE (join [nl] P) 3 = None.
Proof.
  cbv zeta.
  assert (H1 : Forall (fun x => no_nl x = true /\ fence_line x = None)
                 [str "~~~ py "; str "~~ x"; str "~~~ a b"])
    by (repeat constructor).
  assert (H2 : fence_line (str "~~~~  {.py}") = Some 4) by reflexivity.
  split; [exact H1|]. split; [exact H2|]. split.
  - exact (proj1 (proj2 X11_fence_search_finds_fence_lines) _ _
             [str "~~~"] 4 H1 H2).
  - exact (proj2 (proj2 X11_fence_search_finds_fence_lines) _ 3 H1).
Defined.

(** X12. The tag of an opening line may be written bare, behind a dot,
    in braces, or with one of the braces only; blanks may stand before
    and after it.  In each case the block is found and its language is
    the tag without dot and braces. *)
Theorem X12_forms_of_the_language_tag P n s1 ob od L cb s2 body c R :
  Forall (fun l => plain_line l = true) P ->
  3 <= n ->
  one_or_none is_lbrace ob -> one_or_none is_dot od ->
  forallb is_langchar L = true -> one_or_none is_rbrace cb ->
  Forall (fun l => no_nl l = true /\ closer n l = false) body ->
  closer n c = true ->
  let o := tildes n ++ spaces s1 ++ (ob ++ od ++ L ++ cb) ++ spaces s2 in
  exists m,
    search FENCED_BLOCK_RE (join [nl] (P ++ (o :: body ++ [c]) ++ R)) 0
    = Some m
    /\ group m fence = Some (tildes n)
    /\ group m lang = Some L
    /\ group m code = Some (unlines body).
Proof.
  intros HP Hn Hob Hod HL Hcb Hbody Hc o.
  assert (Htag : tag_parse (ob ++ od ++ L ++ cb) L)
    by (exists ob, od, cb; repeat split; assumption).
  destruct (opener_intro n s1 _ L s2 Hn Htag) as (Ho & _).
  destruct (search_block_found P o body c R n L HP Ho Hbody Hc) as (tg & Hs).
  rewrite join_block, Hs. eexists. repeat split; reflexivity.
Qed.

Lemma X12_witness :
  let o := tildes 3 ++ spaces 1 ++ (str "{" ++ str "." ++ str "c++" ++ [])
             ++ spaces 2 in
  Forall (fun l => plain_line l = true) [str "text"]
  /\ 3 <= 3
  /\ one_or_none is_lbrace (str "{") /\ one_or_none is_dot (str ".")
  /\ forallb is_langchar (str "c++") = true /\ one_or_none is_rbrace []
  /\ Forall (fun l => no_nl l = true /\ closer 3 l = false) [str "int x;"]
  /\ closer 3 (str "~~~") = true
  /\ o = str "~~~ {.c++  "
  /\ exists m,
       search FENCED_BLOCK_RE
         (join [nl] ([str "text"] ++ (o :: [str "int x;"] ++ [str "~~~"])
                       ++ [])) 0
       = Some m
       /\ group m fence = Some (tildes 3)
       /\ group m lang = Some (str "c++")
       /\ group m code = Some (unlines [str "int x;"]).
Proof.
  cbv zeta.
  assert (H1 : Forall (fun l => plain_line l = true) [str "text"])
    by (repeat constructor).
  assert (H2 : 3 <= 3) by lia.
  assert (H3 : one_or_none is_lbrace (str "{"))
    by (right; now exists "{"%char).
  assert (H4 : one_or_none is_dot (str "."))
    by (right; now exists "."%char).
  assert (H5 : forallb is_langchar (str "c++") = true) by reflexivity.
  assert (H6 : one_or_none is_rbrace []) by now left.
  assert (H7 : Forall (fun l => no_nl l = true /\ closer 3 l = false)
                 [str "int x;"]) by (repeat constructor).
  assert (H8 : closer 3 (str "~~~") = true) by reflexivity.
  split; [exact H1|]. split; [exact H2|]. split; [exact H3|].
  split; [exact H4|]. split; [exact H5|]. split; [exact H6|].
  split; [exact H7|]. split; [exact H8|]. split; [reflexivity|].
  exact (X12_forms_of_the_language_tag [str "text"] 3 1 (str "{") (str ".")
           (str "c++") [] 2 [str "int x;"] (str "~~~") []
           H1 H2 H3 H4 H5 H6 H7 H8).
Defined.

(** ** A line of tildes that is no fence *)

Section NoFence.
Variable lib : Library.

Lemma count_markers_plain P :
  Forall (fun l => plain_line l = true) P -> count_markers P = 0.
Proof.
  induction 1 as [|l P Hl _ IH]; [reflexivity|].
  apply plain_line_inv in Hl as [_ Hl].
  unfold count_markers in *. simpl. now rewrite Hl.
Qed.

Lemma opener_marker o n L : opener o = Some (n, L) -> is_marker o = true.
Proof.
  intros H. apply opener_inv in H as (-> & H & _).
  unfold is_marker. now apply Nat.leb_le.
Qed.

Lemma closer_marker n c : 3 <= n -> closer n c = true -> is_marker c = true.
Proof.
  intros Hn H. apply closer_shape in H as (sp & -> & _).
  unfold is_marker, tilde_run. apply Nat.leb_le.
  pose proof (take_while_tildes n sp). lia.
Qed.

Lemma plain_no_fence x :
  plain_line x = true -> no_nl x = true /\ fence_line x = None.
Proof.
  intros H. apply plain_line_inv in H as [Hx Hm]. split; [exact Hx|].
  unfold fence_line. unfold is_marker in Hm. now rewrite Hm.
Qed.

(** A block has two lines that begin with three tildes. *)
Lemma block_needs_two_markers lines pos :
  lines <> [] -> Forall (fun l => no_nl l = true) lines ->
  count_markers lines <= 1 ->
  search FENCED_BLOCK_RE (join [nl] lines) pos = None.
Proof.
  intros Hne Hnl Hcount.
  destruct (search FENCED_BLOCK_RE (join [nl] lines) pos) as [m|] eqn:E;
    [|reflexivity].
  exfalso. apply block_match_lines in E
    as (A & o & B & c & C & n & L & Es & Hnl' & Ho & Hc & Hn & _).
  apply (f_equal (split [nl])) in Es.
  rewrite split_join_nl, <- join_block, split_join_nl in Es; auto.
  2:{ now destruct A. }
  subst lines. revert Hcount.
  rewrite !count_markers_app. unfold count_markers at 2. simpl filter.
  rewrite (opener_marker o n L Ho).
  rewrite filter_app. simpl filter. rewrite (closer_marker n c Hn Hc).
  rewrite length_cons, length_app. simpl. lia.
Qed.

Lemma run_no_fence fuel self P l Q :
  Forall (fun x => plain_line x = true) P ->
  Forall (fun x => plain_line x = true) Q ->
  no_nl l = true -> fence_line l = None -> 0 < fuel ->
  run lib fuel self (P ++ l :: Q) = Some (P ++ l :: Q, check_codehilite self).
Proof.
  intros HP HQ Hl Hf Hfuel. destruct fuel as [|fuel]; [lia|].
  assert (Hnl : Forall (fun x => no_nl x = true /\ fence_line x = None)
                  (P ++ l :: Q)).
  { apply Forall_app. split; [|constructor; [now split|]].
    - eapply Forall_impl; [|exact HP]. apply plain_no_fence.
    - eapply Forall_impl; [|exact HQ]. apply plain_no_fence. }
  assert (Hnl' : Forall (fun x => no_nl x = true) (P ++ l :: Q)).
  { eapply Forall_impl; [|exact Hnl]. now intros x [Hx _]. }
  assert (Hne : P ++ l :: Q <> []) by now destruct P.
  unfold run. simpl main_loop.
  rewrite block_needs_two_markers; auto.
  - unfold fix_up. rewrite search_fence_none by assumption.
    now rewrite split_join_nl.
  - rewrite count_markers_app, (count_markers_plain P HP).
    unfold count_markers. simpl filter.
    fold (count_markers Q). destruct (is_marker l); simpl;
      fold (count_markers Q); rewrite (count_markers_plain Q HQ); lia.
Qed.

End NoFence.

(** X13. A line that begins with three tildes and has something after
    its tag, be it a blank, is no fence for the repair.  When it is the
    only line of the document that begins with three tildes, [run]
    returns the document as it is: the line is not closed, also when it
    could open a block. *)
Theorem X13_tildes_with_text_are_left_alone lib fuel self P l Q :
  Forall (fun x => plain_line x = true) P ->
  Forall (fun x => plain_line x = true) Q ->
  no_nl l = true -> fence_line l = None -> 0 < fuel ->
  run lib fuel self (P ++ l :: Q) = Some (P ++ l :: Q, check_codehilite self).
Proof. apply run_no_fence. Qed.

Lemma X13_witness :
  Forall (fun x => plain_line x = true) [str "text"]
  /\ Forall (fun x => plain_line x = true) [str "code"; []; []]
  /\ no_nl (str "~~~ py ") = true
  /\ fence_line (str "~~~ py ") = None
  /\ opener (str "~~~ py ") = Some (3, str "py")
  /\ 0 < 1
  /\ run python_markdown 1 fresh ([str "text"] ++ str "~~~ py " :: [str "code"; []; []])
     = Some ([str "text"] ++ str "~~~ py " :: [str "code"; []; []],
             check_codehilite fresh).
Proof.
  assert (H1 : Forall (fun x => plain_line x = true) [str "text"])
    by (repeat constructor).
  assert (H2 : Forall (fun x => plain_line x = true) [str "code"; []; []])
    by (repeat constructor).
  assert (H3 : no_nl (str "~~~ py ") = true) by reflexivity.
  assert (H4 : fence_line (str "~~~ py ") = None) by reflexivity.
  assert (H5 : 0 < 1) by lia.
  split; [exact H1|]. split; [exact H2|]. split; [exact H3|].
  split; [exact H4|]. split; [reflexivity|]. split; [exact H5|].
  exact (X13_tildes_with_text_are_left_alone python_markdown 1 fresh
           [str "text"] (str "~~~ py ") [str "code"; []; []]
           H1 H2 H3 H4 H5).
Defined.

(** ** The offset of the search for a dangling fence *)

Lemma take_while_length p (l : text) : length (take_while p l) <= length l.
Proof.
  induction l as [|c l IH]; simpl; [lia|]. destruct (p c); simpl; lia.
Qed.

Lemma search_fence_room s e f :
  search FENCE_RE s e = Some f -> e <= m_start f /\ m_start f + 3 <= length s.
Proof.
  intros H. apply fence_match_line in H
    as (A & l & C & n & -> & _ & Hl & Hs & _ & Hpos & _).
  apply fence_line_inv in Hl as (Hn & Hn3 & _).
  pose proof (take_while_length is_tilde l) as Hlen.
  unfold tilde_run in Hn. rewrite !length_app in *. lia.
Qed.

(** X14. The repair looks for a fence from the kept offset on: a fence
    that it closes begins at or after that offset.  When fewer than
    three characters of the text lie at or after the offset, nothing is
    repaired and the text stays as the loop left it. *)
Theorem X14_no_repair_before_the_offset lib self s e :
  (forall f, search FENCE_RE s e = Some f ->
             e <= m_start f /\ m_start f + 3 <= length s)
  /\ (length s < e + 3 -> fix_up lib self s e = (s, self)).
Proof.
  split; [intros f; apply search_fence_room|].
  intros H. unfold fix_up.
  destruct (search FENCE_RE s e) as [f|] eqn:E; [|reflexivity].
  apply search_fence_room in E. lia.
Qed.

Lemma X14_witness :
  let s := join [nl] (lines_of ["~~~~"; "x"; ""; ""]) in
  length s < 6 + 3
  /\ fix_up python_markdown fresh s 6 = (s, fresh)
  /\ fst (fix_up python_markdown fresh s 0) <> s.
Proof.
  cbv zeta.
  assert (H : length (join [nl] (lines_of ["~~~~"; "x"; ""; ""])) < 6 + 3)
    by (vm_compute; lia).
  split; [exact H|]. split.
  - exact (proj2 (X14_no_repair_before_the_offset python_markdown fresh _ 6) H).
  - vm_compute. discriminate.
Defined.

(** ** No block is left *)

Section NoBlockLeft.
Variable lib : Library.

Lemma scan_leftmost r x : forall y b,
  exec r (rev x ++ b) y no_groups finish <> None ->
  exists m, scan r b (x ++ y) = Some m /\ m_start m <= length (rev x ++ b).
Proof.
  induction x as [|c x IH]; intros y b H; simpl app in *.
  - destruct y as [|d y]; simpl;
      destruct (exec r b _ no_groups finish) as [[[b' a'] gs]|];
      try easy; eexists; split; try reflexivity; simpl; lia.
  - simpl scan.
    destruct (exec r b (c :: x ++ y) no_groups finish) as [[[b' a'] gs]|].
    + eexists. split; [reflexivity|]. simpl. rewrite length_app. lia.
    + simpl rev in H. rewrite <- app_assoc in H. simpl in H.
      destruct (IH y (c :: b) H) as (m & Hm & Hle). exists m.
      split; [exact Hm|]. simpl rev. rewrite <- app_assoc. exact Hle.
Qed.

(** An opening line with a closing line after it makes the search
    succeed, at that opening line or before it. *)
Lemma block_found_before A o B c C n L :
  Forall (fun l => no_nl l = true) (A ++ o :: B ++ c :: C) ->
  opener o = Some (n, L) -> closer n c = true ->
  exists m,
    search FENCED_BLOCK_RE (join [nl] (A ++ o :: B ++ c :: C)) 0 = Some m
    /\ m_start m <= length (unlines A).
Proof.
  intros Hnl Ho Hc.
  destruct (first_closer n B c C Hc) as (B0 & c0 & C0 & E & Hc0 & HB0).
  rewrite E in *. clear E.
  assert (HB : Forall (fun l => no_nl l = true /\ closer n l = false) B0).
  { apply Forall_app in Hnl as [_ Hnl]. inversion Hnl as [|? ? _ Hnl'].
    subst. apply Forall_app in Hnl' as [Hnl' _].
    rewrite Forall_forall in *. intros l Hl. split; auto. }
  replace (A ++ o :: B0 ++ c0 :: C0) with (A ++ (o :: B0 ++ [c0]) ++ C0)
    by (simpl; now rewrite <- app_assoc).
  rewrite join_block. unfold search. simpl firstn. simpl skipn. simpl rev.
  destruct (block_at (rev (unlines A) ++ []) o B0 c0 (tail_text C0) n L)
    as (b1 & tg & Ex); auto using at_eol_tail_text.
  { rewrite app_nil_r. apply at_bol_unlines. }
  destruct (scan_leftmost FENCED_BLOCK_RE (unlines A)
              ((o ++ nl :: unlines B0 ++ c0) ++ tail_text C0) [])
    as (m & Hm & Hle).
  { replace ((o ++ nl :: unlines B0 ++ c0) ++ tail_text C0)
      with (o ++ nl :: unlines B0 ++ c0 ++ tail_text C0)
      by (rewrite <- !app_assoc; simpl; now rewrite <- !app_assoc).
    now rewrite Ex. }
  exists m. split; [exact Hm|].
  now rewrite app_nil_r, length_rev in Hle.
Qed.

Lemma no_block_lines s :
  search FENCED_BLOCK_RE s 0 = None -> ~ has_block (split [nl] s).
Proof.
  intros H (A & o & B & c & C & n & L & E & Ho & Hc).
  destruct (block_found_before A o B c C n L) as (m & Hm & _); auto.
  - rewrite <- E. apply split_nl_pieces.
  - rewrite <- E, join_split_nl, H in Hm. discriminate.
Qed.

Lemma block_lines s pos m :
  search FENCED_BLOCK_RE s pos = Some m -> has_block (split [nl] s).
Proof.
  intros H. apply block_match_lines in H
    as (A & o & B & c & C & n & L & -> & Hnl & Ho & Hc & _).
  exists A, o, B, c, C, n, L. repeat split; auto.
  rewrite <- join_block, split_join_nl; auto.
  - simpl. now rewrite <- app_assoc.
  - now destruct A.
Qed.

Lemma has_block_app K T : has_block K -> has_block (K ++ T).
Proof.
  intros (A & o & B & c & C & n & L & -> & Ho & Hc).
  exists A, o, B, c, (C ++ T), n, L. repeat split; auto.
  rewrite <- app_assoc. simpl. f_equal. f_equal.
  now rewrite <- app_assoc.
Qed.

Lemma main_loop_no_block fuel : forall self s e s' e' self',
  main_loop lib fuel self s e = Some (s', e', self') ->
  search FENCED_BLOCK_RE s' 0 = None.
Proof.
  induction fuel as [|fuel IH]; intros self s e s' e' self' H;
    [discriminate|].
  simpl in H. destruct (search FENCED_BLOCK_RE s 0) as [m|] eqn:E.
  - destruct (process_fence lib self m s) as [t self1].
    now apply IH in H.
  - now injection H as <- <- <-.
Qed.

Lemma app_cons_cases (U : list text) : forall c C K x R,
  U ++ c :: C = K ++ x :: R ->
  (exists K', K = U ++ c :: K')
  \/ (U = K /\ c = x /\ C = R)
  \/ (exists U', R = U' ++ c :: C).
Proof.
  induction U as [|u U IH]; intros c C [|k K] x R E; simpl in E.
  - injection E as -> ->. right. now left.
  - injection E as -> ->. left. now exists K.
  - injection E as -> <-. right. right. now exists U.
  - injection E as -> E. destruct (IH c C K x R E)
      as [(K' & ->)|[(-> & -> & ->)|(U' & ->)]].
    + left. now exists K'.
    + right. now left.
    + right. right. now exists U'.
Qed.

Lemma marker_before A Z : forall A' o R,
  count_markers Z = 0 -> is_marker o = true ->
  A ++ Z = A' ++ o :: R ->
  exists A2, A = A' ++ o :: A2 /\ R = A2 ++ Z.
Proof.
  induction A as [|a A IH]; intros A' o R HZ Ho E.
  - exfalso. simpl in E. subst Z. apply count_markers_zero in HZ.
    apply Forall_app in HZ as [_ HZ]. inversion HZ; subst. congruence.
  - destruct A' as [|a' A']; simpl in E; injection E as -> E.
    + exists A. now split.
    + destruct (IH A' o R HZ Ho E) as (A2 & -> & ->). now exists A2.
Qed.

Lemma split_two_newlines : split [nl] [nl; nl] = [[]; []; []].
Proof. reflexivity. Qed.

(** The lines of the text after a closing fence was added for the
    repair: those of the text before, with one line more or with the
    last line longer. *)
Lemma repaired_lines s X :
  no_nl X = true ->
  exists K x1 x2 T,
    split [nl] s = K ++ x1 ++ T
    /\ split [nl] (if text_eqb (last2 s) [nl; nl]
                   then but_last2 s ++ [nl] ++ X ++ last2 s
                   else s ++ X)
       = K ++ x2 :: T
    /\ count_markers T = 0.
Proof.
  intros HX. destruct (text_eqb (last2 s) [nl; nl]) eqn:E.
  - pose proof (last2_split s E) as Hs. apply text_eqb_eq in E.
    rewrite E. exists (split [nl] (but_last2 s)), [], X, [[]; []].
    split; [|split; [|reflexivity]].
    + rewrite Hs at 1.
      change (but_last2 s ++ [nl; nl]) with (but_last2 s ++ nl :: [nl]).
      now rewrite split_nl_app.
    + change (but_last2 s ++ [nl] ++ X ++ [nl; nl])
        with (but_last2 s ++ nl :: X ++ nl :: [nl]).
      now rewrite !split_nl_app, (split_nl_line X HX).
  - destruct (exists_last (split_nl_nonempty s)) as (K & l & Hs).
    exists K, [l], (l ++ X), []. split; [exact Hs|]. split; [|reflexivity].
    pose proof (split_nl_pieces s) as Hp. rewrite Hs in Hp.
    apply Forall_app in Hp as [HK Hl]. inversion Hl; subst.
    rewrite <- (join_split_nl s), Hs, join_last, <- app_assoc, <- join_last.
    apply split_join_nl; [now destruct K|].
    apply Forall_app. split; [exact HK|]. constructor; [|constructor].
    rewrite no_nl_app. now rewrite HX, andb_true_r.
Qed.

Lemma unlines_app P Q : unlines (P ++ Q) = unlines P ++ unlines Q.
Proof. apply flat_map_app. Qed.

Lemma fix_up_no_block self s e :
  (forall k, markers (get_placeholder lib k) = 0) ->
  search FENCED_BLOCK_RE s 0 = None ->
  search FENCED_BLOCK_RE (fst (fix_up lib self s e)) 0 = None.
Proof.
  intros Hph Hs. unfold fix_up.
  destruct (search FENCE_RE s e) as [f|] eqn:Ef; [|exact Hs].
  apply fence_match_line in Ef as (_ & _ & _ & n & _ & _ & _ & _ & _ & _ & Hg & _).
  rewrite Hg. simpl text_of.
  destruct (repaired_lines s (tildes n) (no_nl_tildes n))
    as (K & x1 & x2 & T & HK & HK2 & HT).
  set (s2 := if text_eqb (last2 s) [nl; nl]
             then but_last2 s ++ [nl] ++ tildes n ++ last2 s
             else s ++ tildes n) in *.
  change (split [nl] s2 = K ++ x2 :: T) in HK2.
  destruct (search FENCED_BLOCK_RE s2 0) as [m|] eqn:E2; [|exact E2].
  destruct (process_fence_text lib self m s2) as (mid & -> & Hmid).
  assert (Hm0 : markers mid = 0).
  { destruct Hmid as [->| ->];
      [apply markers_quote_replacement | apply Hph]. }
  pose proof E2 as E2'.
  apply block_match_lines in E2'
    as (A & o & B & c & C & n0 & L & Es2 & Hnl & Ho & Hc & Hn0 & Hst & Hen & _).
  assert (Hlines : split [nl] s2 = (A ++ o :: B) ++ c :: C).
  { rewrite Es2, <- join_block, split_join_nl; auto.
    - rewrite <- !app_assoc. simpl. now rewrite <- app_assoc.
    - now destruct A. }
  assert (HnoK : ~ has_block K).
  { intros HB. apply (no_block_lines s Hs). rewrite HK.
    now apply has_block_app. }
  assert (HC : count_markers C = 0).
  { rewrite HK2 in Hlines. symmetry in Hlines.
    apply app_cons_cases in Hlines
      as [(K' & ->)|[(_ & _ & ->)|(U' & ->)]].
    - exfalso. apply HnoK. exists A, o, B, c, K', n0, L.
      repeat split; auto. now rewrite <- app_assoc.
    - exact HT.
    - exfalso. apply count_markers_zero in HT.
      apply Forall_app in HT as [_ HT]. inversion HT; subst.
      rewrite (closer_marker n0 c Hn0 Hc) in *. discriminate. }
  rewrite Es2, (splice_app m mid _ _ _ Hst Hen), join_replaced.
  match goal with
  | |- search FENCED_BLOCK_RE ?t 0 = None =>
      destruct (search FENCED_BLOCK_RE t 0) as [m'|] eqn:E3
  end; [|reflexivity].
  exfalso. apply block_lines in E3.
  assert (HA : Forall (fun l => no_nl l = true) A)
    by now apply Forall_app in Hnl as [HA _].
  assert (HCn : Forall (fun l => no_nl l = true) C).
  { apply Forall_app in Hnl as [_ Hnl]. now apply Forall_app in Hnl as [_ Hnl]. }
  rewrite split_join_nl in E3.
  2:{ now destruct A. }
  2:{ apply Forall_app. split; [|exact HCn]. apply Forall_app.
      split; [exact HA|]. constructor; [reflexivity|].
      apply Forall_app. split; [apply split_nl_pieces | now repeat constructor]. }
  destruct E3 as (A' & o' & B' & c' & C' & n' & L' & E3 & Ho' & Hc').
  rewrite <- app_assoc in E3.
  assert (HZ : count_markers (([] :: split [nl] mid ++ [[]]) ++ C) = 0).
  { rewrite count_markers_app, HC.
    change ([] :: split [nl] mid ++ [[]]) with ([[]] ++ split [nl] mid ++ [[]]).
    rewrite !count_markers_app. fold (markers mid). now rewrite Hm0. }
  apply marker_before in E3 as (A2 & EA & E3);
    [|exact HZ | now apply (opener_marker o' n' L')].
  symmetry in E3.
  apply marker_before in E3 as (A3 & EA2 & _); [|exact HZ|].
  2:{ apply (closer_marker n'); [|exact Hc'].
      now apply opener_inv in Ho' as (_ & H3 & _). }
  subst A2 A.
  destruct (block_found_before A' o' B' c' (A3 ++ (o :: B ++ [c]) ++ C) n' L')
    as (m0 & Hm0' & Hle); auto.
  { replace (A' ++ o' :: B' ++ c' :: A3 ++ (o :: B ++ [c]) ++ C)
      with ((A' ++ o' :: B' ++ c' :: A3) ++ (o :: B ++ [c]) ++ C); [exact Hnl|].
    rewrite <- !app_assoc. simpl. now rewrite <- !app_assoc. }
  replace (A' ++ o' :: B' ++ c' :: A3 ++ (o :: B ++ [c]) ++ C)
    with ((A' ++ o' :: B' ++ c' :: A3) ++ (o :: B ++ [c]) ++ C) in Hm0'
    by (rewrite <- !app_assoc; simpl; now rewrite <- !app_assoc).
  rewrite join_block, <- Es2, E2 in Hm0'. injection Hm0' as <-.
  rewrite Hst, unlines_app in Hle. rewrite length_app in Hle.
  change (unlines (o' :: B' ++ c' :: A3))
    with ((o' ++ [nl]) ++ unlines (B' ++ c' :: A3)) in Hle.
  rewrite !length_app in Hle. simpl in Hle. lia.
Qed.

End NoBlockLeft.

(** X15. When no line of a placeholder begins with three tildes, [run]
    leaves no block behind: in the lines it returns, no line that opens
    a block is followed by a line that closes it, and a search for a
    block in them finds nothing. *)
Theorem X15_run_leaves_no_block lib fuel self lines out self' :
  (forall k, markers (get_placeholder lib k) = 0) ->
  run lib fuel self lines = Some (out, self') ->
  search FENCED_BLOCK_RE (join [nl] out) 0 = None
  /\ forall A o B c C n L,
       out = A ++ o :: B ++ c :: C -> opener o = Some (n, L) ->
       closer n c = false.
Proof.
  intros Hph H. unfold run in H.
  destruct (main_loop lib fuel (check_codehilite self) (join [nl] lines) 0)
    as [[[s e] self1]|] eqn:Hloop; [|discriminate].
  apply main_loop_no_block in Hloop.
  pose proof (fix_up_no_block lib self1 s e Hph Hloop) as Hfix.
  destruct (fix_up lib self1 s e) as [t self2]. simpl in Hfix.
  injection H as <- <-. rewrite join_split_nl. split; [exact Hfix|].
  intros A o B c C n L E Ho. destruct (closer n c) eqn:Hc; [|reflexivity].
  exfalso. apply (no_block_lines t Hfix). now exists A, o, B, c, C, n, L.
Qed.

Lemma X15_witness :
  let doc := lines_of ["~~~"; "aaaaaaaaaaaaaaaaaaaaaaaaaaaaaaaaaaaaaaaa";
                       "~~~"; "~~~~"; "x"; ""; ""] in
  (forall k, markers (get_placeholder python_markdown k) = 0)
  /\ exists out self',
       run python_markdown 3 fresh doc = Some (out, self')
       /\ search FENCED_BLOCK_RE (join [nl] out) 0 = None
       /\ forall A o B c C n L,
            out = A ++ o :: B ++ c :: C -> opener o = Some (n, L) ->
            closer n c = false.
Proof.
  cbv zeta.
  assert (H : forall k, markers (get_placeholder python_markdown k) = 0)
    by (intros k; apply markers_plain_line, placeholder_plain).
  split; [exact H|].
  destruct (run python_markdown 3 fresh
              (lines_of ["~~~"; "aaaaaaaaaaaaaaaaaaaaaaaaaaaaaaaaaaaaaaaa";
                         "~~~"; "~~~~"; "x"; ""; ""]))
    as [[out self']|] eqn:E; [|vm_compute in E; discriminate E].
  exists out, self'. split; [reflexivity|].
  exact (X15_run_leaves_no_block python_markdown 3 fresh _ out self' H E).
Defined.

(** ** The lines of a block quote *)

Section QuoteKeeps.

Let ne (l : text) : bool := negb (text_eqb l []).
Let mark (l : text) : text := str "> " ++ l.

Lemma split2_sep r : split [nl; nl] (nl :: nl :: r) = [] :: split [nl; nl] r.
Proof. reflexivity. Qed.

Lemma split2_other c r :
  starts_with [nl; nl] (c :: r) = false ->
  split [nl; nl] (c :: r)
  = match split [nl; nl] r with
    | p :: ps => (c :: p) :: ps
    | [] => [[c]]
    end.
Proof. intros H. unfold split. simpl split_from. simpl in H. now rewrite H. Qed.

Lemma split2_nonempty s : split [nl; nl] s <> [].
Proof.
  assert (H : forall n s, length s <= n -> split [nl; nl] s <> []).
  { clear s. induction n as [|n IH]; intros [|c s] Hs;
      [discriminate | simpl in Hs; lia | discriminate |].
    destruct (starts_with [nl; nl] (c :: s)) eqn:E.
    - apply starts_with_app in E. simpl in E. rewrite E. discriminate.
    - rewrite split2_other by assumption.
      now destruct (split [nl; nl] s). }
  now apply (H (length s)).
Qed.

Lemma join_head sep c p ps : join sep ((c :: p) :: ps) = c :: join sep (p :: ps).
Proof. now destruct ps. Qed.

Lemma join_split2 s : join [nl; nl] (split [nl; nl] s) = s.
Proof.
  assert (H : forall n s, length s <= n ->
                          join [nl; nl] (split [nl; nl] s) = s).
  { clear s. induction n as [|n IH]; intros [|c s] Hs;
      [reflexivity | simpl in Hs; lia | reflexivity |].
    destruct (starts_with [nl; nl] (c :: s)) eqn:E.
    - apply starts_with_app in E. simpl in E. rewrite E.
      rewrite split2_sep, join_cons by apply split2_nonempty.
      simpl. f_equal. f_equal. apply IH.
      rewrite E in Hs. simpl in Hs. lia.
    - rewrite split2_other by assumption.
      pose proof (IH s) as IHs. pose proof (split2_nonempty s) as Hne.
      destruct (split [nl; nl] s) as [|p ps]; [easy|].
      rewrite join_head. f_equal. apply IHs. simpl in Hs. lia. }
  now apply (H (length s)).
Qed.

(** The lines of paragraphs joined by a blank line that are not empty
    are those of the paragraphs. *)
Lemma lines_of_paragraphs ps :
  filter ne (split [nl] (join [nl; nl] ps))
  = flat_map (fun p => filter ne (split [nl] p)) ps.
Proof.
  induction ps as [|p ps IH]; [reflexivity|].
  destruct ps as [|q ps]; [simpl; now rewrite app_nil_r|].
  rewrite join_cons by discriminate.
  change ([nl; nl] ++ ?x) with (nl :: nl :: x).
  rewrite split_nl_app, split_nl_cons, Ascii.eqb_refl, filter_app.
  change (filter ne ([] :: ?x)) with (filter ne x).
  rewrite IH. reflexivity.
Qed.

Lemma ne_marked ls : filter ne (map mark ls) = map mark ls.
Proof. induction ls as [|l ls IH]; [reflexivity|]. simpl. now rewrite IH. Qed.

Lemma quote_paragraph_lines p :
  filter ne (split [nl] (quote_paragraph p))
  = map mark (filter ne (split [nl] p)).
Proof.
  change (quote_paragraph p)
    with (join [nl] (map mark (filter ne (split [nl] p)))).
  assert (Hnl : Forall (fun l => no_nl l = true)
                  (map mark (filter ne (split [nl] p)))).
  { apply no_nl_quoted. pose proof (split_nl_pieces p) as H.
    rewrite Forall_forall in *. intros l Hl. apply filter_In in Hl as [Hl _].
    now apply H. }
  destruct (map mark (filter ne (split [nl] p))) as [|l ls] eqn:E;
    [reflexivity|].
  rewrite split_join_nl by (auto; discriminate).
  rewrite <- E. apply ne_marked.
Qed.

Lemma quote_replacement_lines body :
  filter ne (split [nl] (quote_replacement body))
  = map mark (filter ne (split [nl] body)).
Proof.
  unfold quote_replacement. rewrite lines_of_paragraphs.
  rewrite <- (join_split2 body) at 2. rewrite lines_of_paragraphs.
  induction (split [nl; nl] body) as [|p ps IH]; [reflexivity|].
  simpl. rewrite map_app, quote_paragraph_lines. now rewrite IH.
Qed.

End QuoteKeeps.

(** X16. A block quote keeps the lines of the body that are not empty,
    in their order, each behind the mark, and has no other line that is
    not empty. *)
Theorem X16_quote_keeps_the_lines body :
  filter (fun l => negb (text_eqb l []))
         (split [nl] (quote_replacement body))
  = map (fun l => str "> " ++ l)
        (filter (fun l => negb (text_eqb l [])) (split [nl] body)).
Proof. apply quote_replacement_lines. Qed.

(** ** The text does not depend on what is stored *)

Section SameLines.
Variables lib1 lib2 : Library.
Hypothesis Hph : forall k, get_placeholder lib1 k = get_placeholder lib2 k.

Lemma process_fence_same a b m s :
  same_counter a b ->
  fst (process_fence lib1 a m s) = fst (process_fence lib2 b m s)
  /\ same_counter (snd (process_fence lib1 a m s))
                  (snd (process_fence lib2 b m s)).
Proof.
  unfold same_counter, process_fence. intros H.
  destruct (truthy (group m lang) && is_quote (text_of (group m lang)));
    simpl; [now split|].
  rewrite H, Hph. now split.
Qed.

Lemma main_loop_same fuel : forall a b s e,
  same_counter a b ->
  match main_loop lib1 fuel a s e, main_loop lib2 fuel b s e with
  | Some (s1, e1, a'), Some (s2, e2, b') =>
      s1 = s2 /\ e1 = e2 /\ same_counter a' b'
  | None, None => True
  | _, _ => False
  end.
Proof.
  induction fuel as [|fuel IH]; intros a b s e H; [exact I|].
  simpl. destruct (search FENCED_BLOCK_RE s 0) as [m|]; [|now repeat split].
  destruct (process_fence_same a b m s H) as [E1 E2].
  destruct (process_fence lib1 a m s) as [t1 a1].
  destruct (process_fence lib2 b m s) as [t2 b1].
  simpl in E1, E2. subst t2. now apply IH.
Qed.

Lemma fix_up_same a b s e :
  same_counter a b ->
  fst (fix_up lib1 a s e) = fst (fix_up lib2 b s e).
Proof.
  intros H. unfold fix_up.
  destruct (search FENCE_RE s e) as [f|]; [|reflexivity].
  match goal with
  | |- context [search FENCED_BLOCK_RE ?t 0] =>
      destruct (search FENCED_BLOCK_RE t 0) as [m|]
  end; [|reflexivity].
  now apply process_fence_same.
Qed.

Lemma run_same fuel a b lines :
  same_counter a b ->
  option_map fst (run lib1 fuel a lines)
  = option_map fst (run lib2 fuel b lines).
Proof.
  intros H. unfold run.
  assert (H' : same_counter (check_codehilite a) (check_codehilite b))
    by (unfold same_counter; now rewrite !check_codehilite_md).
  pose proof (main_loop_same fuel _ _ (join [nl] lines) 0 H') as Hloop.
  destruct (main_loop lib1 fuel (check_codehilite a) (join [nl] lines) 0)
    as [[[s1 e1] a1]|];
  destruct (main_loop lib2 fuel (check_codehilite b) (join [nl] lines) 0)
    as [[[s2 e2] b1]|]; try easy.
  destruct Hloop as (-> & -> & Hc).
  pose proof (fix_up_same a1 b1 s2 e2 Hc) as Hfix.
  destruct (fix_up lib1 a1 s2 e2) as [t1 a2].
  destruct (fix_up lib2 b1 s2 e2) as [t2 b2].
  simpl in *. now subst.
Qed.

End SameLines.

(** X17. The lines that [run] returns depend on the placeholders only.
    Two runs over the same lines whose stashes hand out the same
    placeholders return the same lines, whatever the highlighter, its
    configuration, the registered extensions and the blocks stored
    before: the highlighter changes what is stored, not the text. *)
Theorem X17_lines_do_not_depend_on_the_highlighter
    lib1 lib2 self1 self2 fuel lines :
  (forall k, get_placeholder lib1 k = get_placeholder lib2 k) ->
  html_counter (htmlStash (markdown self1))
  = html_counter (htmlStash (markdown self2)) ->
  option_map fst (run lib1 fuel self1 lines)
  = option_map fst (run lib2 fuel self2 lines).
Proof. intros Hph Hc. now apply run_same. Qed.

Lemma X17_witness :
  let conf := mkConfig false true (str "codehilite") (str "default") false in
  let highlighted :=
    init (mkMarkdown [CodeHiliteExtension conf]
            (mkStash [(str "<b>", true)] 1)) in
  let plain := init (mkMarkdown [] (mkStash [([], false)] 1)) in
  let doc := lines_of ["~~~ py"; "x < 1"; "~~~"; "text"] in
  (forall k, get_placeholder highlighting_host k
             = get_placeholder python_markdown k)
  /\ html_counter (htmlStash (markdown highlighted))
     = html_counter (htmlStash (markdown plain))
  /\ option_map fst (run highlighting_host 2 highlighted doc)
     = option_map fst (run python_markdown 2 plain doc)
  /\ out_stored (run highlighting_host 2 highlighted doc)
     = [str "<b>"; str "<div>x < 1" ++ [nl] ++ str "</div>"]
  /\ out_stored (run python_markdown 2 plain doc)
     = [[]; str "<pre><code class=" ++ [dquote] ++ str "py" ++ [dquote]
              ++ str ">x &lt; 1" ++ [nl] ++ str "</code></pre>"].
Proof.
  cbv zeta.
  assert (H1 : forall k, get_placeholder highlighting_host k
                         = get_placeholder python_markdown k)
    by reflexivity.
  split; [exact H1|]. split; [reflexivity|]. split.
  - exact (X17_lines_do_not_depend_on_the_highlighter
             highlighting_host python_markdown _ _ 2 _ H1 eq_refl).
  - split; vm_compute; reflexivity.
Defined.

(** ** One substitution, line by line *)

Lemma process_fence_lines lib self s m :
  search FENCED_BLOCK_RE s 0 = Some m ->
  exists A o B c C mid,
    split [nl] s = A ++ o :: B ++ c :: C
    /\ split [nl] (fst (process_fence lib self m s))
       = A ++ [] :: split [nl] mid ++ [] :: C
    /\ group m code = Some (unlines B)
    /\ (mid = quote_replacement (unlines B)
        \/ mid = get_placeholder lib (html_counter (htmlStash (markdown self)))).
Proof.
  intros H. apply block_match_lines in H
    as (A & o & B & c & C & n & L & -> & Hnl & Ho & Hc & Hn & Hs & He
        & _ & _ & _ & Hcode).
  destruct (process_fence_text lib self m
              (unlines A ++ (o ++ nl :: unlines B ++ c) ++ tail_text C))
    as (mid & -> & Hmid).
  rewrite Hcode in Hmid. simpl text_of in Hmid.
  exists A, o, B, c, C, mid.
  assert (HA : Forall (fun l => no_nl l = true) A)
    by now apply Forall_app in Hnl as [HA _].
  assert (HC : Forall (fun l => no_nl l = true) C).
  { apply Forall_app in Hnl as [_ Hnl]. now apply Forall_app in Hnl as [_ Hnl]. }
  repeat split; auto.
  - rewrite <- join_block, split_join_nl; auto.
    + simpl. now rewrite <- app_assoc.
    + now destruct A.
  - rewrite (splice_app m mid _ _ _ Hs He), join_replaced, split_join_nl.
    + rewrite <- !app_assoc. simpl. now rewrite <- !app_assoc.
    + now destruct A.
    + apply Forall_app. split; [|exact HC]. apply Forall_app.
      split; [exact HA|]. constructor; [reflexivity|].
      apply Forall_app. split; [apply split_nl_pieces | now repeat constructor].
Qed.

(** X18. A substitution of the loop replaces whole lines, in any text:
    the lines of the matched block give way to an empty line, the lines
    of the placeholder or of the block quote, and an empty line; the
    lines before the block and the lines after it stay as they are. *)
Theorem X18_a_substitution_replaces_whole_lines lib self s m :
  search FENCED_BLOCK_RE s 0 = Some m ->
  exists A o B c C mid,
    split [nl] s = A ++ o :: B ++ c :: C
    /\ split [nl] (fst (process_fence lib self m s))
       = A ++ [] :: split [nl] mid ++ [] :: C
    /\ group m code = Some (unlines B)
    /\ (mid = quote_replacement (unlines B)
        \/ mid = get_placeholder lib (html_counter (htmlStash (markdown self)))).
Proof. apply process_fence_lines. Qed.

Lemma X18_witness :
  let s := join [nl] (lines_of ["~~~~"; "a"; "~~~ quoted"; "b"; "c";
                                "~~~"; "d"]) in
  exists m,
    search FENCED_BLOCK_RE s 0 = Some m
    /\ split [nl] (fst (process_fence python_markdown fresh m s))
       = lines_of ["~~~~"; "a"; ""; "> b"; "> c"; ""; "d"]
    /\ exists A o B c C mid,
         split [nl] s = A ++ o :: B ++ c :: C
         /\ split [nl] (fst (process_fence python_markdown fresh m s))
            = A ++ [] :: split [nl] mid ++ [] :: C
         /\ group m code = Some (unlines B)
         /\ (mid = quote_replacement (unlines B)
             \/ mid = get_placeholder python_markdown
                        (html_counter (htmlStash (markdown fresh)))).
Proof.
  cbv zeta.
  destruct (search FENCED_BLOCK_RE
              (join [nl] (lines_of ["~~~~"; "a"; "~~~ quoted"; "b";
                                    "c"; "~~~"; "d"])) 0)
    as [m|] eqn:H; [|vm_compute in H; discriminate H].
  exists m. split; [reflexivity|]. split.
  - vm_compute in H. injection H as <-. vm_compute. reflexivity.
  - exact (X18_a_substitution_replaces_whole_lines python_markdown fresh _ m H).
Defined.
